(** * A shallow embedding of the O3 neuron engine

    Signals ([Synapse]), gates ([NeuronGate]), neurons ([Neuron]) and the
    owning [Network], embedded as Rocq functions over an explicit store.

    Conventions of the embedding:
    - a C++ [float] is an exact rational ([Q]); rounding, infinities and NaN
      are not represented.  Numeric results are compared with [==];
    - a [std::shared_ptr<Neuron>] is a handle [loc] into a store of neuron
      records, so that aliasing between the registry, the layer lists and
      the connection maps is the aliasing of the program;
    - a [std::shared_ptr<Synapse>] is the signal value it points to (the
      engine never writes to a signal after handing it over; a custom gate
      that returns its own input is the one place where the program could);
    - listeners are observers: invoking one appends an event to the trace of
      the store;
    - [std::stof], [std::to_string] and [Utils::generateUUID] are the
      operations of a [Platform]. *)

From Stdlib Require Import Ascii String QArith Qminmax Qabs Lqa.
From stdpp Require Import gmap strings list fin_maps pretty.

Set Default Proof Using "Type".
Local Open Scope Q_scope.

(** ** Numeric helpers *)

(** [a < b] on floats. *)
Definition Qltb (a b : Q) : bool := negb (Qle_bool b a).

(** [std::max(a, b)] is [(a < b) ? b : a]. *)
Definition fmax (a b : Q) : Q := if Qltb a b then b else a.

(** [std::min(a, b)] is [(b < a) ? b : a]. *)
Definition fmin (a b : Q) : Q := if Qltb b a then b else a.

(** [std::min(1.0f, std::max(0.0f, x))]. *)
Definition clamp01 (x : Q) : Q := fmin 1 (fmax 0 x).

(** The mathematical clamp of the specification. *)
Definition clamp (x lo hi : Q) : Q :=
  if Qltb x lo then lo else if Qltb hi x then hi else x.

#[export] Instance Q_eq_dec : EqDecision Q.
Proof. solve_decision. Defined.

#[export] Instance Qle_decision (a b : Q) : Decision (a <= b).
Proof.
  destruct (Qle_bool a b) eqn:E.
  - left. by apply Qle_bool_iff.
  - right. intros Hle. apply Qle_bool_iff in Hle. congruence.
Defined.

(** The arithmetic mean of the specification. *)
Definition mean (xs : list Q) : Q :=
  fold_right Qplus 0 xs / inject_Z (Z.of_nat (length xs)).

(** ** Platform services

    [generateUUID] is indexed by the number of identifiers minted so far;
    [stof] returns [None] where [std::stof] throws. *)
Class Platform := {
  generateUUID : nat -> string;
  stof : string -> option Q;
  to_string : Q -> string;
}.

(** ** Signals (synapse.h, synapse.cpp) *)
Module Synapse.

Inductive SynapseType := EXCITATORY | INHIBITORY | MODULATORY.

Record t := mk {
  id : string;
  sourceId : string;
  targetId : string;
  type : SynapseType;
  strength : Q;
  stringPayload : gmap string string;
  tags : list string;
}.

(** [Synapse(id, type, strength)]; the defaults of the header are
    [EXCITATORY] and [1.0f]. *)
Definition new (i : string) (ty : SynapseType) (s : Q) : t :=
  mk i "" "" ty (fmin 1 (fmax 0 s)) ∅ [].

Definition setSourceId (v : string) (s : t) : t :=
  mk (id s) v (targetId s) (type s) (strength s) (stringPayload s) (tags s).

Definition setTargetId (v : string) (s : t) : t :=
  mk (id s) (sourceId s) v (type s) (strength s) (stringPayload s) (tags s).

Definition getSourceId (s : t) : string := sourceId s.
Definition getTargetId (s : t) : string := targetId s.
Definition getId (s : t) : string := id s.
Definition getType (s : t) : SynapseType := type s.
Definition getStrength (s : t) : Q := strength s.

Definition setStrength (value : Q) (s : t) : t :=
  mk (id s) (sourceId s) (targetId s) (type s)
     (fmin 1 (fmax 0 value)) (stringPayload s) (tags s).

Definition hasData (key : string) (s : t) : bool :=
  bool_decide (is_Some (stringPayload s !! key)).

(** [setData<std::string>]. *)
Definition setData (key value : string) (s : t) : t :=
  mk (id s) (sourceId s) (targetId s) (type s) (strength s)
     (<[key := value]> (stringPayload s)) (tags s).

(** [getData<std::string>]: the stored text, or the empty string. *)
Definition getData (key : string) (s : t) : string :=
  default "" (stringPayload s !! key).

Definition getKeys (s : t) : list string :=
  (map_to_list (stringPayload s)).*1.

Definition addTag (tag : string) (s : t) : t :=
  if bool_decide (tag ∈ tags s) then s
  else mk (id s) (sourceId s) (targetId s) (type s) (strength s)
          (stringPayload s) (tags s ++ [tag]).

Definition hasTag (tag : string) (s : t) : bool := bool_decide (tag ∈ tags s).
Definition getTags (s : t) : list string := tags s.

(** [derive(derivedStrength)]; [uuid] is the identifier minted for the
    new signal.  The header's default argument is [-1.0f]. *)
Definition derive_with (uuid : string) (derivedStrength : Q) (s : t) : t :=
  let newStrength :=
    if Qle_bool 0 derivedStrength then derivedStrength else strength s in
  let derived := new uuid (type s) newStrength in
  let derived := setSourceId (sourceId s) derived in
  let derived := setTargetId (targetId s) derived in
  let derived := foldl (fun d tag => addTag tag d) derived (tags s) in
  setData "derived_from" (id s) derived.

Definition derive (uuid : string) (s : t) : t := derive_with uuid (-1) s.

Definition reserved (key : string) : bool :=
  bool_decide (key = "source") || bool_decide (key = "target")
  || bool_decide (key = "strength").

(** [combine(other)]; a null [other] derives from this signal alone. *)
Definition combine (uuid : string) (other : option t) (s : t) : t :=
  match other with
  | None => derive uuid s
  | Some o =>
      let combined := new uuid (type s) ((strength s + getStrength o) / 2) in
      let combined := setSourceId (sourceId s) combined in
      let combined := setTargetId (getTargetId o) combined in
      let combined := foldl (fun d tag => addTag tag d) combined (tags s) in
      let combined := foldl (fun d tag => addTag tag d) combined (getTags o) in
      let combined := setData "combined_from_1" (id s) combined in
      let combined := setData "combined_from_2" (getId o) combined in
      let combined :=
        foldl (fun d key =>
                 if reserved key then d
                 else setData (key +:+ "_1") (getData key s) d)
              combined (getKeys s) in
      foldl (fun d key =>
               if reserved key then d
               else setData (key +:+ "_2") (getData key o) d)
            combined (getKeys o)
  end.

(** The contribution a neuron reads off a signal: the ["strength"] payload
    entry parsed with [std::stof], or [0.5f] when the entry is absent or
    the parse throws (neuron.cpp, in [processSignals] and in [fire]). *)
Definition payloadStrength `{Platform} (s : t) : Q :=
  if hasData "strength" s then
    match stof (getData "strength" s) with
    | Some q => q
    | None => 0.5
    end
  else 0.5.

(** The operations that write to an existing signal. *)
Inductive op :=
| OpSetSourceId (v : string)
| OpSetTargetId (v : string)
| OpSetStrength (v : Q)
| OpSetData (key value : string)
| OpAddTag (tag : string).

Definition apply (o : op) (s : t) : t :=
  match o with
  | OpSetSourceId v => setSourceId v s
  | OpSetTargetId v => setTargetId v s
  | OpSetStrength v => setStrength v s
  | OpSetData k v => setData k v s
  | OpAddTag tag => addTag tag s
  end.

(** The signals the interface can produce: constructed, derived or
    combined ones, each possibly written to afterwards. *)
Inductive reachable : t -> Prop :=
| r_new i ty s : reachable (new i ty s)
| r_apply o s : reachable s -> reachable (apply o s)
| r_derive uuid d s : reachable s -> reachable (derive_with uuid d s)
| r_combine uuid o s :
    reachable s -> (forall x, o = Some x -> reachable x) ->
    reachable (combine uuid o s).

Definition inBounds (s : t) : Prop := 0 <= strength s /\ strength s <= 1.

End Synapse.

(** ** Gates (neuron_gate.h, neuron_gate.cpp) *)
Module NeuronGate.

Inductive GateType := AND | OR | NOT | XOR | THRESHOLD | MODULATOR | CUSTOM.

(** A gate input is a possibly null signal pointer. *)
Definition inputs := list (option Synapse.t).

(** The concrete classes; a modulator carries its factor, a custom gate
    its injected transform (which receives the identifier it may mint). *)
Inductive Kind :=
| AndGate
| OrGate
| NotGate
| XorGate
| ThresholdGate
| ModulatorGate (factor : Q)
| CustomGate (processor : string -> inputs -> option Synapse.t).

Record t := mk {
  id : string;
  kind : Kind;
  threshold : Q;
  active : bool;
  adaptationRate : Q;
}.

Definition getType (g : t) : GateType :=
  match kind g with
  | AndGate => AND
  | OrGate => OR
  | NotGate => NOT
  | XorGate => XOR
  | ThresholdGate => THRESHOLD
  | ModulatorGate _ => MODULATOR
  | CustomGate _ => CUSTOM
  end.

(** [NeuronGate(id, type)]. *)
Definition new (i : string) (k : Kind) : t := mk i k 0.5 true 0.1.

Definition getId (g : t) : string := id g.
Definition getThreshold (g : t) : Q := threshold g.
Definition isActive (g : t) : bool := active g.

Definition setThreshold (v : Q) (g : t) : t :=
  mk (id g) (kind g) (fmin 1 (fmax 0 v)) (active g) (adaptationRate g).

Definition setActive (b : bool) (g : t) : t :=
  mk (id g) (kind g) (threshold g) b (adaptationRate g).

Definition adapt (success : bool) (g : t) : t :=
  mk (id g) (kind g)
     (if success then fmax 0.1 (threshold g - adaptationRate g)
      else fmin 0.9 (threshold g + adaptationRate g))
     (active g) (adaptationRate g).

(** The stamp every activating gate puts on its output. *)
Definition stamp (g : t) (name : string) (result : Synapse.t) : Synapse.t :=
  Synapse.addTag "gate_processed"
    (Synapse.setData "gate_type" name
       (Synapse.setData "gate_id" (id g) result)).

(** The first loop of [AndGate::process]: no null input and no input
    below the threshold. *)
Definition allAboveThreshold (g : t) (ins : inputs) : bool :=
  forallb (fun input =>
             match input with
             | None => false
             | Some s => negb (Qltb (Synapse.getStrength s) (threshold g))
             end) ins.

(** [totalStrength] of [AndGate::process], accumulated from [0.0f]. *)
Definition totalStrength (ins : inputs) : Q :=
  foldl (fun acc input =>
           match input with
           | Some s => acc + Synapse.getStrength s
           | None => acc
           end) 0 ins.

Definition AndGate_process (g : t) (uuid : string) (ins : inputs)
  : option Synapse.t :=
  match ins with
  | [] => None
  | first :: _ =>
      if allAboveThreshold g ins then
        match first with
        | None => None
        | Some s0 =>
            let result := Synapse.derive uuid s0 in
            let avgStrength :=
              totalStrength ins / inject_Z (Z.of_nat (length ins)) in
            let result := Synapse.setStrength avgStrength result in
            Some (stamp g "AND" result)
        end
      else None
  end.

(** The scan of [OrGate::process]: the running strongest qualifying
    input and its strength, starting from null and [0.0f]. *)
Definition strongest (g : t) (ins : inputs) : option Synapse.t * Q :=
  foldl (fun '(best, maxStrength) input =>
           match input with
           | Some s =>
               if negb (Qltb (Synapse.getStrength s) (threshold g))
                  && Qltb maxStrength (Synapse.getStrength s)
               then (Some s, Synapse.getStrength s)
               else (best, maxStrength)
           | None => (best, maxStrength)
           end) (None, 0) ins.

Definition OrGate_process (g : t) (uuid : string) (ins : inputs)
  : option Synapse.t :=
  match ins with
  | [] => None
  | _ =>
      match fst (strongest g ins) with
      | Some s => Some (stamp g "OR" (Synapse.derive uuid s))
      | None => None
      end
  end.

Definition NotGate_process (g : t) (uuid : string) (ins : inputs)
  : option Synapse.t :=
  match ins with
  | Some input :: _ =>
      let result := Synapse.derive uuid input in
      let result :=
        Synapse.setStrength (1 - Synapse.getStrength input) result in
      Some (stamp g "NOT" result)
  | _ => None
  end.

Definition XorGate_process (g : t) (uuid : string) (ins : inputs)
  : option Synapse.t :=
  match ins with
  | [Some i0; Some i1] =>
      let strength1 := Synapse.getStrength i0 in
      let strength2 := Synapse.getStrength i1 in
      let input1Above := negb (Qltb strength1 (threshold g)) in
      let input2Above := negb (Qltb strength2 (threshold g)) in
      if (input1Above && negb input2Above)
         || (negb input1Above && input2Above) then
        let result :=
          Synapse.derive uuid (if input1Above then i0 else i1) in
        let strengthDiff := Qabs (strength1 - strength2) in
        let result := Synapse.setStrength strengthDiff result in
        Some (stamp g "XOR" result)
      else None
  | _ => None
  end.

Definition ThresholdGate_process (g : t) (uuid : string) (ins : inputs)
  : option Synapse.t :=
  match ins with
  | Some input :: _ =>
      if negb (Qltb (Synapse.getStrength input) (threshold g)) then
        let result := Synapse.derive uuid input in
        let result :=
          Synapse.setStrength (Synapse.getStrength input) result in
        Some (stamp g "THRESHOLD" result)
      else None
  | _ => None
  end.

Definition ModulatorGate_process `{Platform} (g : t) (factor : Q)
    (uuid : string) (ins : inputs) : option Synapse.t :=
  match ins with
  | Some input :: _ =>
      let result := Synapse.derive uuid input in
      let result :=
        Synapse.setStrength
          (fmin 1 (fmax 0 (Synapse.getStrength input * factor))) result in
      let result := Synapse.setData "gate_id" (id g) result in
      let result := Synapse.setData "gate_type" "MODULATOR" result in
      let result :=
        Synapse.setData "modulation_factor" (to_string factor) result in
      Some (Synapse.addTag "gate_processed" result)
  | _ => None
  end.

Definition CustomGate_process (g : t)
    (processor : string -> inputs -> option Synapse.t)
    (uuid : string) (ins : inputs) : option Synapse.t :=
  match processor uuid ins with
  | Some result => Some (stamp g "CUSTOM" result)
  | None => None
  end.

(** The virtual [process], dispatched on the class of the gate. *)
Definition process `{Platform} (g : t) (uuid : string) (ins : inputs)
  : option Synapse.t :=
  match kind g with
  | AndGate => AndGate_process g uuid ins
  | OrGate => OrGate_process g uuid ins
  | NotGate => NotGate_process g uuid ins
  | XorGate => XorGate_process g uuid ins
  | ThresholdGate => ThresholdGate_process g uuid ins
  | ModulatorGate factor => ModulatorGate_process g factor uuid ins
  | CustomGate processor => CustomGate_process g processor uuid ins
  end.

(** [NeuronGateFactory::createGate]; the threshold and modulator
    constructors take their header defaults ([0.5f] and [1.0f]), and the
    default custom transform derives from its first input. *)
Definition createGate (ty : GateType) (i : string) : t :=
  match ty with
  | AND => new i AndGate
  | OR => new i OrGate
  | NOT => new i NotGate
  | XOR => new i XorGate
  | THRESHOLD => setThreshold 0.5 (new i ThresholdGate)
  | MODULATOR => new i (ModulatorGate 1)
  | CUSTOM =>
      new i (CustomGate (fun uuid ins =>
                           match ins with
                           | Some s :: _ => Some (Synapse.derive uuid s)
                           | _ => None
                           end))
  end.

End NeuronGate.

(** ** Results of calls that may recurse

    [OutOfFuel]: the cascade did not finish within the recursion budget.
    [Dangling]: a handle designates no neuron of the store (a
    [shared_ptr] never does). *)
Inductive res (A : Type) : Type :=
| Ret (a : A)
| OutOfFuel
| Dangling.
Arguments Ret {A} a.
Arguments OutOfFuel {A}.
Arguments Dangling {A}.

#[export] Instance res_bind : MBind res := fun A B k m =>
  match m with
  | Ret a => k a
  | OutOfFuel => OutOfFuel
  | Dangling => Dangling
  end.

#[export] Instance res_fmap : FMap res := fun A B f m =>
  match m with
  | Ret a => Ret (f a)
  | OutOfFuel => OutOfFuel
  | Dangling => Dangling
  end.

(** A [for] loop whose body may recurse. *)
Fixpoint forM {A S} (body : A -> S -> res S) (xs : list A) (s : S) : res S :=
  match xs with
  | [] => Ret s
  | x :: xs' => s' ← body x s; forM body xs' s'
  end.

(** Handles of neurons. *)
Definition loc := nat.

(** ** Neurons (neuron.h, neuron.cpp) *)
Module Neuron.

Inductive NeuronType :=
| SENSORY | PROCESSING | MEMORY | INTEGRATION | ASSOCIATION | OUTPUT
| REGULATORY.

Inductive NeuronState := RESTING | ACTIVE | REFRACTORY | INHIBITED.

#[export] Instance NeuronState_eq_dec : EqDecision NeuronState.
Proof. solve_decision. Defined.

Record t := mk {
  id : string;
  type : NeuronType;
  state : NeuronState;
  threshold : Q;
  potential : Q;
  refractoryPeriod : bool;
  inputSignals : list Synapse.t;
  outputSignals : list Synapse.t;
  connections : gmap loc Q;
  inputs : list loc;
  tags : list string;
  metadata : gmap string string;
  gates : list NeuronGate.t;
  fireCallbacks : list nat;
  stateChangeCallbacks : list nat;
}.

Definition with_state v n :=
  mk (id n) (type n) v (threshold n) (potential n) (refractoryPeriod n)
     (inputSignals n) (outputSignals n) (connections n) (inputs n) (tags n)
     (metadata n) (gates n) (fireCallbacks n) (stateChangeCallbacks n).
Definition with_threshold v n :=
  mk (id n) (type n) (state n) v (potential n) (refractoryPeriod n)
     (inputSignals n) (outputSignals n) (connections n) (inputs n) (tags n)
     (metadata n) (gates n) (fireCallbacks n) (stateChangeCallbacks n).
Definition with_potential v n :=
  mk (id n) (type n) (state n) (threshold n) v (refractoryPeriod n)
     (inputSignals n) (outputSignals n) (connections n) (inputs n) (tags n)
     (metadata n) (gates n) (fireCallbacks n) (stateChangeCallbacks n).
Definition with_inputSignals v n :=
  mk (id n) (type n) (state n) (threshold n) (potential n)
     (refractoryPeriod n) v (outputSignals n) (connections n) (inputs n)
     (tags n) (metadata n) (gates n) (fireCallbacks n)
     (stateChangeCallbacks n).
Definition with_outputSignals v n :=
  mk (id n) (type n) (state n) (threshold n) (potential n)
     (refractoryPeriod n) (inputSignals n) v (connections n) (inputs n)
     (tags n) (metadata n) (gates n) (fireCallbacks n)
     (stateChangeCallbacks n).
Definition with_connections v n :=
  mk (id n) (type n) (state n) (threshold n) (potential n)
     (refractoryPeriod n) (inputSignals n) (outputSignals n) v (inputs n)
     (tags n) (metadata n) (gates n) (fireCallbacks n)
     (stateChangeCallbacks n).
Definition with_inputs v n :=
  mk (id n) (type n) (state n) (threshold n) (potential n)
     (refractoryPeriod n) (inputSignals n) (outputSignals n)
     (connections n) v (tags n) (metadata n) (gates n) (fireCallbacks n)
     (stateChangeCallbacks n).
Definition with_tags v n :=
  mk (id n) (type n) (state n) (threshold n) (potential n)
     (refractoryPeriod n) (inputSignals n) (outputSignals n)
     (connections n) (inputs n) v (metadata n) (gates n) (fireCallbacks n)
     (stateChangeCallbacks n).
Definition with_metadata v n :=
  mk (id n) (type n) (state n) (threshold n) (potential n)
     (refractoryPeriod n) (inputSignals n) (outputSignals n)
     (connections n) (inputs n) (tags n) v (gates n) (fireCallbacks n)
     (stateChangeCallbacks n).
Definition with_gates v n :=
  mk (id n) (type n) (state n) (threshold n) (potential n)
     (refractoryPeriod n) (inputSignals n) (outputSignals n)
     (connections n) (inputs n) (tags n) (metadata n) v (fireCallbacks n)
     (stateChangeCallbacks n).
Definition with_fireCallbacks v n :=
  mk (id n) (type n) (state n) (threshold n) (potential n)
     (refractoryPeriod n) (inputSignals n) (outputSignals n)
     (connections n) (inputs n) (tags n) (metadata n) (gates n) v
     (stateChangeCallbacks n).
Definition with_stateChangeCallbacks v n :=
  mk (id n) (type n) (state n) (threshold n) (potential n)
     (refractoryPeriod n) (inputSignals n) (outputSignals n)
     (connections n) (inputs n) (tags n) (metadata n) (gates n)
     (fireCallbacks n) v.

(** What listeners observe. *)
Inductive Event :=
| Fired (neuron : loc) (listener : nat)
| StateChanged (neuron : loc) (listener : nat) (old new : NeuronState)
| Processed (network : string) (listener : nat).

(** The store: the live neurons, the trace of listener invocations and
    the number of identifiers minted. *)
Record Store := mkStore {
  heap : gmap loc t;
  trace : list Event;
  minted : nat;
}.

Definition get (l : loc) (w : Store) : res t :=
  match heap w !! l with
  | Some n => Ret n
  | None => Dangling
  end.

Definition put (l : loc) (n : t) (w : Store) : Store :=
  mkStore (<[l := n]> (heap w)) (trace w) (minted w).

Definition emit (evs : list Event) (w : Store) : Store :=
  mkStore (heap w) (trace w ++ evs) (minted w).

Definition with_minted (k : nat) (w : Store) : Store :=
  mkStore (heap w) (trace w) k.

Definition typeTag (ty : NeuronType) : string :=
  match ty with
  | SENSORY => "sensory"
  | PROCESSING => "processing"
  | MEMORY => "memory"
  | INTEGRATION => "integration"
  | ASSOCIATION => "association"
  | OUTPUT => "output"
  | REGULATORY => "regulatory"
  end.

(** [Neuron(id, type)]. *)
Definition new (i : string) (ty : NeuronType) : t :=
  let threshold :=
    match ty with
    | SENSORY => 0.3
    | MEMORY => 0.7
    | REGULATORY => 0.4
    | _ => 0.5
    end in
  mk i ty RESTING threshold 0 false [] [] ∅ [] [typeTag ty] ∅ [] [] [].

(** [std::make_shared<Neuron>(id, type)]: the new neuron lives at a
    handle not yet in use. *)
Definition make_shared (i : string) (ty : NeuronType) (w : Store)
  : loc * Store :=
  let l := fresh (dom (heap w)) in (l, put l (new i ty) w).

Definition getId (n : t) : string := id n.
Definition getType (n : t) : NeuronType := type n.
Definition getState (n : t) : NeuronState := state n.
Definition getThreshold (n : t) : Q := threshold n.
Definition getPotential (n : t) : Q := potential n.
Definition getTags (n : t) : list string := tags n.
Definition hasTag (tag : string) (n : t) : bool := bool_decide (tag ∈ tags n).
Definition hasMetadata (key : string) (n : t) : bool :=
  bool_decide (is_Some (metadata n !! key)).
Definition getMetadata (key : string) (n : t) : string :=
  default "" (metadata n !! key).

(** [getOutputs]: the keys of the connection map, in map order. *)
Definition getOutputs (n : t) : list loc := (map_to_list (connections n)).*1.

(** [getInputs]: the back-references that still lock.  Neurons of the
    store are alive, so every back-reference into it locks. *)
Definition getInputs (w : Store) (n : t) : list loc :=
  filter (fun l => is_Some (heap w !! l)) (inputs n).

Definition getConnectionWeight (target : loc) (n : t) : Q :=
  match connections n !! target with
  | Some weight => weight
  | None => 0
  end.

(** [setState]: the write, then one call per state-change listener. *)
Definition setState (l : loc) (st : NeuronState) (w : Store) : res Store :=
  n ← get l w;
  let oldState := state n in
  let w := put l (with_state st n) w in
  Ret (emit (map (fun cb => StateChanged l cb oldState st)
                 (stateChangeCallbacks n)) w).

Definition setThreshold (l : loc) (v : Q) (w : Store) : res Store :=
  n ← get l w;
  let v := if Qltb v 0 then 0 else v in
  let v := if Qltb 1 v then 1 else v in
  Ret (put l (with_threshold v n) w).

Definition addTag (l : loc) (tag : string) (w : Store) : res Store :=
  n ← get l w;
  Ret (if bool_decide (tag ∈ tags n) then w
       else put l (with_tags (tags n ++ [tag]) n) w).

Definition setMetadata (l : loc) (key value : string) (w : Store)
  : res Store :=
  n ← get l w;
  Ret (put l (with_metadata (<[key := value]> (metadata n)) n) w).

Definition onFire (l : loc) (cb : nat) (w : Store) : res Store :=
  n ← get l w;
  Ret (put l (with_fireCallbacks (fireCallbacks n ++ [cb]) n) w).

Definition onStateChange (l : loc) (cb : nat) (w : Store) : res Store :=
  n ← get l w;
  Ret (put l (with_stateChangeCallbacks (stateChangeCallbacks n ++ [cb]) n) w).

Definition createGate (l : loc) (ty : NeuronGate.GateType) (w : Store)
  : res Store :=
  n ← get l w;
  let gateId := id n +:+ "_gate_" +:+ pretty (length (gates n)) in
  Ret (put l (with_gates (gates n ++ [NeuronGate.createGate ty gateId]) n) w).

(** [connectTo(target, weight)] on the neuron at [l]; [target] may be
    null. *)
Definition connectTo (l : loc) (target : option loc) (weight : Q)
    (w : Store) : res (bool * Store) :=
  match target with
  | None => Ret (false, w)
  | Some tl =>
      if bool_decide (tl = l) then Ret (false, w)
      else
        n ← get l w;
        match connections n !! tl with
        | Some _ =>
            Ret (true, put l (with_connections
                                (<[tl := weight]> (connections n)) n) w)
        | None =>
            let w := put l (with_connections
                              (<[tl := weight]> (connections n)) n) w in
            tn ← get tl w;
            Ret (true, put tl (with_inputs (inputs tn ++ [l]) tn) w)
        end
  end.

(** [disconnectFrom(target)] on the neuron at [l]. *)
Definition disconnectFrom (l : loc) (target : option loc) (w : Store)
    : res (bool * Store) :=
  match target with
  | None => Ret (false, w)
  | Some tl =>
      n ← get l w;
      match connections n !! tl with
      | None => Ret (false, w)
      | Some _ =>
          let w := put l (with_connections (delete tl (connections n)) n) w in
          tn ← get tl w;
          let kept :=
            filter (fun x => is_Some (heap w !! x) ∧ x ≠ l) (inputs tn) in
          Ret (true, put tl (with_inputs kept tn) w)
      end
  end.

Definition setConnectionWeight (l target : loc) (weight : Q) (w : Store)
    : res (bool * Store) :=
  n ← get l w;
  match connections n !! target with
  | Some _ =>
      Ret (true, put l (with_connections
                          (<[target := weight]> (connections n)) n) w)
  | None => Ret (false, w)
  end.

(** The private [reset]. *)
Definition reset (l : loc) (w : Store) : res Store :=
  n ← get l w;
  let w := put l (with_potential 0 n) w in
  w ← setState l RESTING w;
  n ← get l w;
  let w := put l (with_inputSignals [] n) w in
  n ← get l w;
  Ret (put l (with_outputSignals [] n) w).

(** *** The link structure of a store

    [linked w a b]: the neuron at [a] has an outgoing edge to [b].
    [backref w a b]: [a] is among the back-references held by [b]. *)
Definition links_of (w : Store) (a : loc) : gmap loc Q :=
  match heap w !! a with
  | Some n => connections n
  | None => ∅
  end.

Definition inputs_of (w : Store) (b : loc) : list loc :=
  match heap w !! b with
  | Some n => inputs n
  | None => []
  end.

Definition linked (w : Store) (a b : loc) : Prop := is_Some (links_of w a !! b).
Definition backref (w : Store) (a b : loc) : Prop := a ∈ inputs_of w b.

(** The invariant [connectTo] and [disconnectFrom] maintain: edges and
    back-references mirror each other, a back-reference list holds a
    neuron at most once, and no neuron points at itself. *)
Record wf_links (w : Store) : Prop := {
  wf_mirror : forall a b, linked w a b <-> backref w a b;
  wf_nodup : forall b, NoDup (inputs_of w b);
  wf_noself : forall a, ~ linked w a a;
}.

(** [reach w a b]: following edges of [w] leads from [a] to [b]. *)
Inductive reach (w : Store) : loc -> loc -> Prop :=
| reach_refl a : reach w a a
| reach_step a b c : linked w a b -> reach w b c -> reach w a c.

(** What a cascade started at [t] may change between [w] and [w']: the
    neurons reachable from [t], but no edge, no back-reference and no
    identifier; no neuron appears or disappears. *)
Definition frame_ok (t : loc) (w w' : Store) : Prop :=
  (forall m, ~ reach w t m -> heap w' !! m = heap w !! m)
  /\ (forall m, links_of w' m = links_of w m)
  /\ (forall m, inputs_of w' m = inputs_of w m)
  /\ (forall m, id <$> heap w' !! m = id <$> heap w !! m).

(** [settles w w']: every neuron of [w] is still there in [w'], in the state
    it had or in [RESTING]. *)
Definition settles (w w' : Store) : Prop :=
  forall m n,
    heap w !! m = Some n ->
    exists n', heap w' !! m = Some n'
               /\ (state n' = state n \/ state n' = RESTING).

(** How many times [x] occurs in [xs]. *)
Definition occurrences (x : loc) (xs : list loc) : nat :=
  length (filter (fun y => y = x) xs).

(** The fire-listener calls the trace records for the neuron at [l]. *)
Definition is_fired (l : loc) (ev : Event) : bool :=
  match ev with
  | Fired l' _ => bool_decide (l' = l)
  | _ => false
  end.

Definition firings (l : loc) (w : Store) : list Event :=
  List.filter (is_fired l) (trace w).

(** *** Signal processing and firing *)
Section Dynamics.
Context `{Platform}.

(** The inner loop of [processSignals] for one buffered signal: the
    first active gate that produces an output claims the signal; an
    unclaimed signal passes through.  [k] counts the identifiers minted
    (each gate output is derived once). *)
Fixpoint runGates (gs : list NeuronGate.t) (signal : Synapse.t) (k : nat)
  : Synapse.t * nat :=
  match gs with
  | [] => (signal, k)
  | gate :: gs' =>
      if NeuronGate.isActive gate then
        match NeuronGate.process gate (generateUUID k) [Some signal] with
        | Some result => (result, S k)
        | None => runGates gs' signal k
        end
      else runGates gs' signal k
  end.

(** The outer loop: the vector [processed]. *)
Fixpoint runPipeline (gs : list NeuronGate.t) (signals : list Synapse.t)
    (k : nat) : list Synapse.t * nat :=
  match signals with
  | [] => ([], k)
  | signal :: rest =>
      let '(out, k) := runGates gs signal k in
      let '(outs, k) := runPipeline gs rest k in
      (out :: outs, k)
  end.

(** [potentialDelta], accumulated from [0.0f]. *)
Definition potentialDelta (processed : list Synapse.t) : Q :=
  foldl (fun acc signal => acc + Synapse.payloadStrength signal) 0
        processed.

(** The new potential: [potential += delta / size], then the two
    bound checks. *)
Definition updatedPotential (potential : Q) (processed : list Synapse.t)
  : Q :=
  let size :=
    if bool_decide (0 < length processed)%nat
    then inject_Z (Z.of_nat (length processed)) else 1 in
  let p := potential + potentialDelta processed / size in
  let p := if Qltb p 0 then 0 else p in
  if Qltb 1 p then 1 else p.

(** What a neuron makes of its buffer once [signal] has joined it: the
    processed signals, and the potential they raise the neuron to. *)
Definition received (n : t) (signal : Synapse.t) (k : nat) : list Synapse.t :=
  (runPipeline (gates n) (inputSignals n ++ [signal]) k).1.

Definition raisedPotential (n : t) (signal : Synapse.t) (k : nat) : Q :=
  updatedPotential (potential n) (received n signal k).

(** The signal [fire] synthesises when there is no output signal. *)
Definition defaultOutput (n : t) : Synapse.t :=
  Synapse.setData "strength" (to_string (potential n))
    (Synapse.setData "source" (id n)
       (Synapse.new (id n +:+ "_output") Synapse.EXCITATORY 1)).

(** The weighted copy [fire] sends along one edge. *)
Definition weightedCopy (uuid : string) (from to : string) (weight : Q)
    (signal : Synapse.t) : Synapse.t :=
  let weighted := Synapse.derive uuid signal in
  let strength := Synapse.payloadStrength signal * weight in
  let weighted := Synapse.setData "strength" (to_string strength) weighted in
  let weighted := Synapse.setData "from" from weighted in
  Synapse.setData "to" to weighted.

(** The body of the inner loop of [fire]: derive, weigh, stamp and hand
    over to the target through [recv], its [receiveSignal]. *)
Definition deliver (recv : loc -> option Synapse.t -> Store -> res Store)
    (from : string) (target : loc) (weight : Q) (signal : Synapse.t)
    (w : Store) : res Store :=
  tn ← get target w;
  let weighted :=
    weightedCopy (generateUUID (minted w)) from (getId tn) weight signal in
  recv target (Some weighted) (with_minted (S (minted w)) w).

(** [fire] as the specification words it: the output signals are fixed
    when the call starts (the default one if there was none), one weighted
    copy per outgoing edge and output signal is handed to the edge's target,
    and the fire listeners run once all deliveries are made. *)
Definition effectiveOutputs (n : t) : list Synapse.t :=
  match outputSignals n with
  | [] => [defaultOutput n]
  | outs => outs
  end.

Definition deliveries (n : t) : list (loc * Q * Synapse.t) :=
  '(target, weight) ← map_to_list (connections n);
  signal ← effectiveOutputs n;
  [(target, weight, signal)].

Definition fire_spec (recv : loc -> option Synapse.t -> Store -> res Store)
    (l : loc) (w : Store) : res Store :=
  n ← get l w;
  let w := put l (with_outputSignals (effectiveOutputs n) n) w in
  w ← forM (fun '(target, weight, signal) w =>
              deliver recv (id n) target weight signal w)
           (deliveries n) w;
  n ← get l w;
  Ret (emit (map (Fired l) (fireCallbacks n)) w).

(** [fire], calling back into [recv] for every delivery.  The connection
    map is walked as it is when the loop starts; the output vector is
    read again for every edge. *)
Definition fire_with (recv : loc -> option Synapse.t -> Store -> res Store)
    (l : loc) (w : Store) : res Store :=
  n ← get l w;
  let w :=
    match outputSignals n with
    | [] => put l (with_outputSignals [defaultOutput n] n) w
    | _ => w
    end in
  w ← forM (fun '(target, weight) w =>
              n ← get l w;
              forM (deliver recv (id n) target weight)
                   (outputSignals n) w)
           (map_to_list (connections n)) w;
  n ← get l w;
  Ret (emit (map (Fired l) (fireCallbacks n)) w).

Definition blocked (st : NeuronState) : bool :=
  bool_decide (st = REFRACTORY) || bool_decide (st = INHIBITED).

(** [processSignals], with [recv] for the deliveries of [fire]. *)
Definition processSignals_with
    (recv : loc -> option Synapse.t -> Store -> res Store)
    (l : loc) (w : Store) : res Store :=
  n ← get l w;
  if blocked (state n) then Ret w
  else
    match inputSignals n with
    | [] => Ret w
    | _ =>
        let '(processed, k) :=
          runPipeline (gates n) (inputSignals n) (minted w) in
        let p := updatedPotential (potential n) processed in
        let w :=
          put l (with_potential p (with_inputSignals [] n))
              (with_minted k w) in
        w ← (if negb (Qltb p (threshold n)) then
               w ← fire_with recv l w;
               w ← setState l REFRACTORY w;
               n ← get l w;
               let w := put l (with_potential 0 n) w in
               setState l RESTING w
             else Ret w);
        n ← get l w;
        Ret (put l (with_outputSignals (outputSignals n ++ processed) n) w)
    end.

(** [receiveSignal]: buffer the signal, then process at once.  [fuel]
    bounds the depth of the cascade. *)
Fixpoint receiveSignal (fuel : nat) (l : loc) (signal : option Synapse.t)
    (w : Store) : res Store :=
  match fuel with
  | O => OutOfFuel
  | S fuel' =>
      match signal with
      | None => Ret w
      | Some s =>
          n ← get l w;
          let w := put l (with_inputSignals (inputSignals n ++ [s]) n) w in
          processSignals_with (receiveSignal fuel') l w
      end
  end.

Definition processSignals (fuel : nat) : loc -> Store -> res Store :=
  processSignals_with (receiveSignal fuel).

Definition fire (fuel : nat) : loc -> Store -> res Store :=
  fire_with (receiveSignal fuel).

End Dynamics.

End Neuron.

(** ** Networks (network.h, network.cpp) *)
Module Network.

(** What a registered process listener does with the network it is
    handed: observe it, or call [processSignals] on it again. *)
Inductive Callback :=
| Observer (listener : nat)
| Reenter.

Record t := mk {
  id : string;
  neurons : gmap string loc;
  inputNeurons : list loc;
  outputNeurons : list loc;
  processing : bool;
  processCallbacks : list Callback;
}.

Definition with_neurons v net :=
  mk (id net) v (inputNeurons net) (outputNeurons net) (processing net)
     (processCallbacks net).
Definition with_inputNeurons v net :=
  mk (id net) (neurons net) v (outputNeurons net) (processing net)
     (processCallbacks net).
Definition with_outputNeurons v net :=
  mk (id net) (neurons net) (inputNeurons net) v (processing net)
     (processCallbacks net).
Definition with_processing v net :=
  mk (id net) (neurons net) (inputNeurons net) (outputNeurons net) v
     (processCallbacks net).
Definition with_processCallbacks v net :=
  mk (id net) (neurons net) (inputNeurons net) (outputNeurons net)
     (processing net) v.

(** The same network with only its observing listeners registered. *)
Definition is_observer (cb : Callback) : bool :=
  match cb with
  | Observer _ => true
  | Reenter => false
  end.

Definition observers_only (net : t) : t :=
  with_processCallbacks (List.filter is_observer (processCallbacks net)) net.

(** [Network(id)]. *)
Definition new (i : string) : t := mk i ∅ [] [] false [].

Definition getId (net : t) : string := id net.
Definition isProcessing (net : t) : bool := processing net.
Definition getNeuron (i : string) (net : t) : option loc := neurons net !! i.
Definition getAllNeurons (net : t) : list loc := (map_to_list (neurons net)).*2.
Definition getInputNeurons (net : t) : list loc := inputNeurons net.
Definition getOutputNeurons (net : t) : list loc := outputNeurons net.
Definition getNeuronCount (net : t) : nat := size (neurons net).

Definition onProcess (cb : Callback) (net : t) : t :=
  with_processCallbacks (processCallbacks net ++ [cb]) net.

Definition createNeuron (i : string) (ty : Neuron.NeuronType)
    (net : t) (w : Neuron.Store) : loc * t * Neuron.Store :=
  match neurons net !! i with
  | Some l => (l, net, w)
  | None =>
      let '(l, w) := Neuron.make_shared i ty w in
      (l, with_neurons (<[i := l]> (neurons net)) net, w)
  end.

Definition addNeuron (neuron : option loc) (net : t) (w : Neuron.Store)
    : res (bool * t) :=
  match neuron with
  | None => Ret (false, net)
  | Some l =>
      n ← Neuron.get l w;
      match neurons net !! Neuron.getId n with
      | Some _ => Ret (false, net)
      | None =>
          Ret (true, with_neurons (<[Neuron.getId n := l]> (neurons net)) net)
      end
  end.

(** The registry of a network files every neuron under its own identifier,
    and every registered handle is live. *)
Definition registry_ok (net : t) (w : Neuron.Store) : Prop :=
  forall i l,
    neurons net !! i = Some l ->
    exists n, Neuron.heap w !! l = Some n /\ Neuron.getId n = i.

(** The two unlinking loops of [removeNeuron] discard the result of
    [disconnectFrom]. *)
Definition unlink (source target : loc) (w : Neuron.Store)
    : res Neuron.Store :=
  r ← Neuron.disconnectFrom source (Some target) w; Ret r.2.

Definition removeNeuron (i : string) (net : t) (w : Neuron.Store)
    : res (bool * t * Neuron.Store) :=
  match neurons net !! i with
  | None => Ret (false, net, w)
  | Some l =>
      n ← Neuron.get l w;
      let outputs := Neuron.getOutputs n in
      w ← forM (fun output w => unlink l output w) outputs w;
      n ← Neuron.get l w;
      let inputs := Neuron.getInputs w n in
      w ← forM (fun input w => unlink input l w) inputs w;
      let net := with_inputNeurons
                   (filter (fun x => x ≠ l) (inputNeurons net)) net in
      let net := with_outputNeurons
                   (filter (fun x => x ≠ l) (outputNeurons net)) net in
      Ret (true, with_neurons (delete i (neurons net)) net, w)
  end.

Definition connectNeurons (sourceId targetId : string) (weight : Q)
    (net : t) (w : Neuron.Store) : res (bool * Neuron.Store) :=
  match getNeuron sourceId net, getNeuron targetId net with
  | Some source, Some target => Neuron.connectTo source (Some target) weight w
  | _, _ => Ret (false, w)
  end.

Definition disconnectNeurons (sourceId targetId : string)
    (net : t) (w : Neuron.Store) : res (bool * Neuron.Store) :=
  match getNeuron sourceId net, getNeuron targetId net with
  | Some source, Some target => Neuron.disconnectFrom source (Some target) w
  | _, _ => Ret (false, w)
  end.

Definition addInputNeuron (neuron : option loc) (net : t) (w : Neuron.Store)
    : res t :=
  match neuron with
  | None => Ret net
  | Some l =>
      if bool_decide (l ∈ inputNeurons net) then Ret net
      else
        n ← Neuron.get l w;
        let net :=
          match neurons net !! Neuron.getId n with
          | Some _ => net
          | None => with_neurons (<[Neuron.getId n := l]> (neurons net)) net
          end in
        Ret (with_inputNeurons (inputNeurons net ++ [l]) net)
  end.

Definition addOutputNeuron (neuron : option loc) (net : t) (w : Neuron.Store)
    : res t :=
  match neuron with
  | None => Ret net
  | Some l =>
      if bool_decide (l ∈ outputNeurons net) then Ret net
      else
        n ← Neuron.get l w;
        let net :=
          match neurons net !! Neuron.getId n with
          | Some _ => net
          | None => with_neurons (<[Neuron.getId n := l]> (neurons net)) net
          end in
        Ret (with_outputNeurons (outputNeurons net ++ [l]) net)
  end.

(** [reset]: one [setState(RESTING)] per registered neuron. *)
Definition reset (net : t) (w : Neuron.Store) : res Neuron.Store :=
  forM (fun l w => Neuron.setState l Neuron.RESTING w) (getAllNeurons net) w.

Section Dynamics.
Context `{Platform}.

Definition injectSignal (fuel : nat) (signal : option Synapse.t)
    (targetId : string) (net : t) (w : Neuron.Store)
    : res (bool * Neuron.Store) :=
  match signal with
  | None => Ret (false, w)
  | Some s =>
      if bool_decide (targetId ≠ "") then
        match getNeuron targetId net with
        | None => Ret (false, w)
        | Some target =>
            w ← Neuron.receiveSignal fuel target (Some s) w; Ret (true, w)
        end
      else
        w' ← forM (fun l w => Neuron.receiveSignal fuel l (Some s) w)
                  (getInputNeurons net) w;
        Ret (bool_decide (getInputNeurons net ≠ []), w')
  end.

(** The three sweeps of [processSignals]. *)
Definition sweep (fuel : nat) (net : t) (w : Neuron.Store)
    : res Neuron.Store :=
  let allNeurons := getAllNeurons net in
  w ← forM (Neuron.processSignals fuel) (inputNeurons net) w;
  w ← forM (fun l w =>
              if bool_decide (l ∈ inputNeurons net)
                 || bool_decide (l ∈ outputNeurons net)
              then Ret w
              else Neuron.processSignals fuel l w)
           allNeurons w;
  forM (Neuron.processSignals fuel) (outputNeurons net) w.

(** [processSignals]: [processing.exchange(true)] guards the pass; a
    [Reenter] listener calls the method again on the same network. *)
Fixpoint processSignals (fuel : nat) (st : t * Neuron.Store)
    : res (t * Neuron.Store) :=
  match fuel with
  | O => OutOfFuel
  | S fuel' =>
      let '(net, w) := st in
      if processing net then Ret (net, w)
      else
        let net := with_processing true net in
        w ← sweep fuel' net w;
        st ← forM (fun cb '(net, w) =>
                     match cb with
                     | Observer k =>
                         Ret (net, Neuron.emit [Neuron.Processed (id net) k] w)
                     | Reenter => processSignals fuel' (net, w)
                     end)
                  (processCallbacks net) (net, w);
        Ret (with_processing false st.1, st.2)
  end.

End Dynamics.

End Network.

(** ** A platform for worked scenarios

    Identifiers are numbered; [to_string] prints six decimals, rounding to
    nearest with ties to even; [stof] reads decimal notation (leading
    blanks, a sign, digits with an optional fraction, an optional
    exponent). *)
Module Decimal.

Definition digit (c : ascii) : option N :=
  let n := N_of_ascii c in
  if bool_decide (48 <= n < 58)%N then Some (n - 48)%N else None.

Definition is_space (c : ascii) : bool :=
  let n := N_of_ascii c in
  bool_decide (n = 32 \/ 9 <= n <= 13)%N.

Fixpoint skip_spaces (s : string) : string :=
  match s with
  | String c s' => if is_space c then skip_spaces s' else s
  | EmptyString => s
  end.

(** Reads a sign; [true] for a minus. *)
Definition read_sign (s : string) : bool * string :=
  match s with
  | String "-" s' => (true, s')
  | String "+" s' => (false, s')
  | _ => (false, s)
  end.

(** Reads digits: their value, their number and the rest. *)
Fixpoint read_digits (s : string) (acc : N) (count : nat)
  : N * nat * string :=
  match s with
  | String c s' =>
      match digit c with
      | Some d => read_digits s' (acc * 10 + d)%N (S count)
      | None => (acc, count, s)
      end
  | EmptyString => (acc, count, s)
  end.

Definition scale10 (q : Q) (e : Z) : Q :=
  match e with
  | Z0 => q
  | Zpos p => q * inject_Z (Z.pow 10 (Zpos p))
  | Zneg p => q / inject_Z (Z.pow 10 (Zpos p))
  end.

Definition read_exponent (s : string) : Z :=
  match s with
  | String c s' =>
      if bool_decide (c = "e"%char \/ c = "E"%char) then
        let '(neg, s'') := read_sign s' in
        let '(v, count, _) := read_digits s'' 0 0 in
        match count with
        | O => 0%Z
        | _ => if neg then (- Z.of_N v)%Z else Z.of_N v
        end
      else 0%Z
  | EmptyString => 0%Z
  end.

Definition stof (s : string) : option Q :=
  let s := skip_spaces s in
  let '(neg, s) := read_sign s in
  let '(ip, n1, s) := read_digits s 0 0 in
  let '(mant, n2, s) :=
    match s with
    | String "." s' => read_digits s' ip 0
    | _ => (ip, O, s)
    end in
  match (n1 + n2)%nat with
  | O => None
  | _ =>
      let m := inject_Z (Z.of_N mant) in
      let m := if neg then - m else m in
      Some (scale10 m (read_exponent s - Z.of_nat n2))
  end.

(** Nearest integer to [n / d], ties to even, for [0 <= n]. *)
Definition round_div (n : Z) (d : positive) : Z :=
  let q := (n / Zpos d)%Z in
  let r := (n mod Zpos d)%Z in
  match (2 * r ?= Zpos d)%Z with
  | Lt => q
  | Gt => (q + 1)%Z
  | Eq => if Z.even q then q else (q + 1)%Z
  end.

Definition pad6 (s : string) : string :=
  String.string_of_list_ascii
    (replicate (6 - String.length s) "0"%char) +:+ s.

Definition to_string (q : Q) : string :=
  let r := round_div (Z.abs (Qnum q) * 1000000) (Qden q) in
  (if Qltb q 0 then "-" else "")
  +:+ pretty (r / 1000000)%Z +:+ "." +:+ pad6 (pretty (r mod 1000000)%Z).

Definition generateUUID (k : nat) : string := "uuid-" +:+ pretty k.

Definition platform : Platform :=
  Build_Platform generateUUID stof to_string.

End Decimal.

(** ** Worked scenarios

    Two processing neurons [A] and [B] (threshold 0.5 each) created through
    a network, each with one fire listener, first unconnected, then with an
    edge from [A] to [B]. *)
Module Scenario.

Definition created : loc * loc * Network.t * Neuron.Store :=
  let '(a, net, w) :=
    Network.createNeuron "A" Neuron.PROCESSING (Network.new "net")
      (Neuron.mkStore ∅ [] 0) in
  let '(b, net, w) := Network.createNeuron "B" Neuron.PROCESSING net w in
  (a, b, net, w).

Definition A : loc := created.1.1.1.
Definition B : loc := created.1.1.2.
Definition net : Network.t := created.1.2.

(** The store after both neurons got a fire listener. *)
Definition unconnected : Neuron.Store :=
  let w := created.2 in
  let w := match Neuron.onFire A 0%nat w with Ret w => w | _ => w end in
  match Neuron.onFire B 0%nat w with Ret w => w | _ => w end.

(** The same after [connectNeurons("A", "B", weight)]. *)
Definition connected (weight : Q) : Neuron.Store :=
  match Network.connectNeurons "A" "B" weight net unconnected with
  | Ret (_, w) => w
  | _ => unconnected
  end.

(** A stimulus: a signal of the given strength, and the same signal
    carrying the strength as text under the ["strength"] payload key. *)
Definition stimulus (s : Q) : Synapse.t :=
  Synapse.new "stimulus" Synapse.EXCITATORY s.

Definition stimulus_with_payload (s : Q) (text : string) : Synapse.t :=
  Synapse.setData "strength" text (stimulus s).

(** What the neuron at [l] has stored as output: for each signal its
    strength and its ["strength"], ["from"] and ["to"] payload entries. *)
Definition stored (l : loc) (w : Neuron.Store)
  : list (Q * option string * option string * option string) :=
  match Neuron.heap w !! l with
  | Some n =>
      map (fun s => (Synapse.getStrength s,
                     Synapse.stringPayload s !! "strength",
                     Synapse.stringPayload s !! "from",
                     Synapse.stringPayload s !! "to"))
          (Neuron.outputSignals n)
  | None => []
  end.

(** The last signal the neuron at [l] has stored. *)
Definition last_stored (l : loc) (w : Neuron.Store) : option Synapse.t :=
  match Neuron.heap w !! l with
  | Some n => last (Neuron.outputSignals n)
  | None => None
  end.

(** End to end: the edge has weight 0.9 and [A] receives a signal that
    states 0.9 under the ["strength"] key. *)
Definition end_to_end : res Neuron.Store :=
  Neuron.receiveSignal (H := Decimal.platform) 2 A
    (Some (stimulus_with_payload 0.9 "0.9")) (connected 0.9).

(** The same with a signal of strength 0.9 that has no payload. *)
Definition end_to_end_no_payload : res Neuron.Store :=
  Neuron.receiveSignal (H := Decimal.platform) 2 A
    (Some (stimulus 0.9)) (connected 0.9).

(** An edge of weight 2: [A] receives a signal of strength 0.4 that states
    0.9 under the ["strength"] key, keeps it as an output signal, and is
    then made to fire again. *)
Definition loud : Synapse.t := stimulus_with_payload 0.4 "0.9".

Definition refire : res Neuron.Store :=
  w ← Neuron.receiveSignal (H := Decimal.platform) 2 A (Some loud)
        (connected 2);
  Neuron.fire (H := Decimal.platform) 2 A w.

End Scenario.

(** * More of the engine

    The typed payload accessors of a signal, the selections of a network,
    the three tier networks, and further on the utilities. *)

(** ** Typed payload accessors (synapse.h) *)
Module Payload.

(** [setData<bool>]: [std::to_string] prints the promoted integer. *)
Definition setData_bool (key : string) (value : bool) (s : Synapse.t)
  : Synapse.t :=
  Synapse.setData key (if value then "1" else "0") s.

(** [getData<float>]: [std::stof] of the stored text, [0.0f] when it throws
    or when the key is missing. *)
Definition getData_float `{Platform} (key : string) (s : Synapse.t) : Q :=
  match Synapse.stringPayload s !! key with
  | Some text =>
      match stof text with
      | Some q => q
      | None => 0
      end
  | None => 0
  end.

(** [getData<bool>]: the stored text is ["true"] or ["1"]. *)
Definition getData_bool (key : string) (s : Synapse.t) : bool :=
  match Synapse.stringPayload s !! key with
  | Some text => bool_decide (text = "true") || bool_decide (text = "1")
  | None => false
  end.

End Payload.

(** ** Selections of a network (network.cpp) *)
Module Registry.

(** The registered neurons with their records, in registry order; a handle
    without a record is skipped. *)
Definition records (net : Network.t) (w : Neuron.Store)
  : list (loc * Neuron.t) :=
  omap (fun l => n ← Neuron.heap w !! l; Some (l, n))
       (Network.getAllNeurons net).

#[export] Instance NeuronType_eq_dec : EqDecision Neuron.NeuronType.
Proof. solve_decision. Defined.

Definition getNeuronsByType (ty : Neuron.NeuronType) (net : Network.t)
    (w : Neuron.Store) : list loc :=
  (filter (fun p => Neuron.getType p.2 = ty) (records net w)).*1.

Definition getNeuronsByTag (tag : string) (net : Network.t)
    (w : Neuron.Store) : list loc :=
  (filter (fun p => Neuron.hasTag tag p.2 = true) (records net w)).*1.

End Registry.

(** ** The tier networks (network.h, network.cpp) *)
Module Tier.

(** The three tiers extend the base network: the conscious tier by a
    focus (empty at construction) and an attention strength ([0.5f] at
    construction), the subconscious tier by its patterns with their
    responses, the unconscious tier by its filter rules (both empty at
    construction). *)
Record ConsciousNetwork := mkConscious {
  c_base : Network.t;
  focusedNeuronId : string;
  attentionStrength : Q;
}.

Record SubconsciousNetwork := mkSubconscious {
  s_base : Network.t;
  patterns : list (list string * list string);
}.

Record UnconsciousNetwork := mkUnconscious {
  u_base : Network.t;
  filterRules : list (string * string);
}.

Definition newUnconscious (i : string) : UnconsciousNetwork :=
  mkUnconscious (Network.new i) [].

Definition setAttentionFocus (neuronId : string) (c : ConsciousNetwork)
  : ConsciousNetwork :=
  mkConscious (c_base c) neuronId (attentionStrength c).

Definition addFilterRule (key value : string) (u : UnconsciousNetwork)
  : UnconsciousNetwork :=
  mkUnconscious (u_base u) (filterRules u ++ [(key, value)]).

(** The signal [ConsciousNetwork::processSignals] injects. *)
Definition attentionSignal (c : ConsciousNetwork) : Synapse.t :=
  Synapse.setData "source" "conscious_control"
    (Synapse.setData "type" "attention"
       (Synapse.setStrength (attentionStrength c)
          (Synapse.new "attention_signal" Synapse.EXCITATORY 1))).

(** [SubconsciousNetwork::matchesPattern]: every item is a metadata key or
    a tag of some registered neuron. *)
Definition matchesPattern (pattern : list string) (net : Network.t)
    (w : Neuron.Store) : bool :=
  forallb (fun patternItem =>
             existsb (fun p => Neuron.hasMetadata patternItem p.2
                               || Neuron.hasTag patternItem p.2)
                     (Registry.records net w))
          pattern.

(** The signal [generateResponse] builds for one output neuron. *)
Definition responseSignal (response : list string) : Synapse.t :=
  foldl (fun s p => Synapse.setData ("response_" +:+ pretty p.1) p.2 s)
        (Synapse.setStrength 0.8
           (Synapse.new "response_signal" Synapse.EXCITATORY 1))
        (imap (fun i text => (i, text)) response).

(** [UnconsciousNetwork::passesFilters]. *)
Definition passesFilters (signal : option Synapse.t)
    (u : UnconsciousNetwork) : bool :=
  match signal with
  | None => false
  | Some s =>
      match filterRules u with
      | [] => true
      | rules =>
          existsb (fun rule =>
                     Synapse.hasData rule.1 s
                     && bool_decide (Synapse.getData rule.1 s = rule.2))
                  rules
      end
  end.

Section Dynamics.
Context `{Platform}.

Definition generateResponse (fuel : nat) (response : list string)
    (net : Network.t) (w : Neuron.Store) : res Neuron.Store :=
  forM (fun l w => Neuron.receiveSignal fuel l (Some (responseSignal response)) w)
       (Network.getOutputNeurons net) w.

Definition Conscious_processSignals (fuel : nat)
    (st : ConsciousNetwork * Neuron.Store)
  : res (ConsciousNetwork * Neuron.Store) :=
  let '(c, w) := st in
  if Network.isProcessing (c_base c) then Ret (c, w)
  else
    w ← (if bool_decide (focusedNeuronId c <> "") then
           match Network.getNeuron (focusedNeuronId c) (c_base c) with
           | Some focusedNeuron =>
               Neuron.receiveSignal fuel focusedNeuron
                 (Some (attentionSignal c)) w
           | None => Ret w
           end
         else Ret w);
    r ← Network.processSignals fuel (c_base c, w);
    Ret (mkConscious r.1 (focusedNeuronId c) (attentionStrength c), r.2).

Definition Subconscious_processSignals (fuel : nat)
    (st : SubconsciousNetwork * Neuron.Store)
  : res (SubconsciousNetwork * Neuron.Store) :=
  let '(s, w) := st in
  if Network.isProcessing (s_base s) then Ret (s, w)
  else
    w ← forM (fun pr w =>
                if matchesPattern pr.1 (s_base s) w
                then generateResponse fuel pr.2 (s_base s) w
                else Ret w)
             (patterns s) w;
    r ← Network.processSignals fuel (s_base s, w);
    Ret (mkSubconscious r.1 (patterns s), r.2).

Definition Unconscious_processSignals (fuel : nat)
    (st : UnconsciousNetwork * Neuron.Store)
  : res (UnconsciousNetwork * Neuron.Store) :=
  let '(u, w) := st in
  if Network.isProcessing (u_base u) then Ret (u, w)
  else
    r ← Network.processSignals fuel (u_base u, w);
    Ret (mkUnconscious r.1 (filterRules u), r.2).

End Dynamics.

End Tier.

(** ** Predicates used to state what the loops of the engine compute *)

(** What the scan of the OR gate holds after a prefix [seen] of the
    inputs: nothing, every qualifying input so far having no positive
    strength; or the first of the strongest qualifying inputs. *)
Definition scanned (g : NeuronGate.t) (seen : NeuronGate.inputs)
    (acc : option Synapse.t * Q) : Prop :=
  match acc.1 with
  | None =>
      acc.2 = 0
      /\ forall s, Some s ∈ seen ->
                   NeuronGate.threshold g <= Synapse.getStrength s ->
                   Synapse.getStrength s <= 0
  | Some b =>
      acc.2 = Synapse.getStrength b
      /\ NeuronGate.threshold g <= Synapse.getStrength b
      /\ 0 < Synapse.getStrength b
      /\ exists pre post,
           seen = pre ++ Some b :: post
           /\ (forall s, Some s ∈ pre ->
                         NeuronGate.threshold g <= Synapse.getStrength s ->
                         Synapse.getStrength s < Synapse.getStrength b)
           /\ (forall s, Some s ∈ post ->
                         NeuronGate.threshold g <= Synapse.getStrength s ->
                         Synapse.getStrength s <= Synapse.getStrength b)
  end.

(** The gate classes of the engine itself, as opposed to a custom gate. *)
Definition builtin (g : NeuronGate.t) : Prop :=
  match NeuronGate.kind g with
  | NeuronGate.CustomGate _ => False
  | _ => True
  end.

(** [evolves R w w']: every neuron of [w] is still there in [w'], and is
    related by [R] to what it was. *)
Definition evolves (R : Neuron.t -> Neuron.t -> Prop)
    (w w' : Neuron.Store) : Prop :=
  forall m n,
    Neuron.heap w !! m = Some n ->
    exists n', Neuron.heap w' !! m = Some n' /\ R n n'.

(** The part of a neuron that signal processing never writes to. *)
Definition same_wiring (n n' : Neuron.t) : Prop :=
  Neuron.id n' = Neuron.id n
  /\ Neuron.type n' = Neuron.type n
  /\ Neuron.threshold n' = Neuron.threshold n
  /\ Neuron.connections n' = Neuron.connections n
  /\ Neuron.inputs n' = Neuron.inputs n
  /\ Neuron.tags n' = Neuron.tags n
  /\ Neuron.metadata n' = Neuron.metadata n
  /\ Neuron.gates n' = Neuron.gates n
  /\ Neuron.fireCallbacks n' = Neuron.fireCallbacks n
  /\ Neuron.stateChangeCallbacks n' = Neuron.stateChangeCallbacks n.

(** The stored output signals are kept, in order, new ones behind. *)
Definition outputs_grow (n n' : Neuron.t) : Prop :=
  Neuron.outputSignals n `prefix_of` Neuron.outputSignals n'.

(** A potential within [[0, 1]] stays there. *)
Definition potential_in_range (n : Neuron.t) : Prop :=
  0 <= Neuron.potential n /\ Neuron.potential n <= 1.

Definition range_kept (n n' : Neuron.t) : Prop :=
  potential_in_range n -> potential_in_range n'.

(** A neuron a pass has nothing to do for: its buffer is empty, or its
    state keeps it from processing. *)
Definition quiescent (w : Neuron.Store) (l : loc) : Prop :=
  exists n,
    Neuron.heap w !! l = Some n
    /\ (Neuron.inputSignals n = []
        \/ Neuron.blocked (Neuron.state n) = true).

(** The events the observing listeners of a network leave in the trace
    when they are run once, in registration order. *)
Definition observed (net : Network.t) : list Neuron.Event :=
  omap (fun cb =>
          match cb with
          | Network.Observer k => Some (Neuron.Processed (Network.id net) k)
          | Network.Reenter => None
          end) (Network.processCallbacks net).

(** ** Utilities (utils.h, utils.cpp) *)
Module Utils.

(** *** [simpleHash]: FNV-1a over 64 bits, printed as 16 hex digits *)

Definition FNV_PRIME : Z := 1099511628211.
Definition FNV_OFFSET_BASIS : Z := 14695981039346656037.

(** Arithmetic on [uint64_t] wraps around. *)
Definition wrap64 (z : Z) : Z := z mod 2 ^ 64.

(** [static_cast<uint64_t>(c)] for a [char]: where [char] is a signed
    type, a byte above 127 is negative and the conversion wraps it. *)
Definition char_to_u64 (char_is_signed : bool) (c : ascii) : Z :=
  let byte := Z.of_N (N_of_ascii c) in
  if char_is_signed && (128 <=? byte)%Z then wrap64 (byte - 256) else byte.

(** The body of the loop: [hash ^= c; hash *= FNV_PRIME]. *)
Definition fnv1a_step (char_is_signed : bool) (hash : Z) (c : ascii) : Z :=
  wrap64 (Z.lxor hash (char_to_u64 char_is_signed c) * FNV_PRIME).

Fixpoint fnv1a_from (char_is_signed : bool) (hash : Z) (str : string) : Z :=
  match str with
  | EmptyString => hash
  | String c rest =>
      fnv1a_from char_is_signed (fnv1a_step char_is_signed hash c) rest
  end.

Definition fnv1a (char_is_signed : bool) (str : string) : Z :=
  fnv1a_from char_is_signed FNV_OFFSET_BASIS str.

Definition hex_digit (d : Z) : ascii :=
  nth (Z.to_nat d)
      ["0"; "1"; "2"; "3"; "4"; "5"; "6"; "7"; "8"; "9";
       "a"; "b"; "c"; "d"; "e"; "f"]%char "0"%char.

(** The digits of an unsigned value in base 16, most significant first;
    a 64-bit value has at most 16 of them. *)
Fixpoint hex_digits (fuel : nat) (n : Z) (acc : string) : string :=
  match fuel with
  | O => acc
  | S fuel' =>
      let acc := String (hex_digit (n mod 16)) acc in
      if (n / 16 =? 0)%Z then acc else hex_digits fuel' (n / 16) acc
  end.

(** [std::setw(width) << std::setfill(fill)]: padding on the left. *)
Fixpoint fill_string (k : nat) (fill : ascii) (s : string) : string :=
  match k with
  | O => s
  | S k' => String fill (fill_string k' fill s)
  end.

Definition setw (width : nat) (fill : ascii) (s : string) : string :=
  fill_string (width - String.length s) fill s.

(** [ss << std::hex << std::setw(16) << std::setfill('0') << hash]. *)
Definition hex16 (hash : Z) : string :=
  setw 16 "0"%char (hex_digits 16 hash "").

Definition simpleHash (char_is_signed : bool) (str : string) : string :=
  hex16 (fnv1a char_is_signed str).

End Utils.

(** *** [MemoryManager]: the two counters

    Every method holds the manager's mutex for its whole body, so the
    calls are atomic steps on the pair of counters; the counters are
    [size_t] and wrap around. *)
Module MemoryManager.

Record t := mk {
  activeSynapses : Z;
  totalSynapses : Z;
}.

(** [MemoryManager()]. *)
Definition new : t := mk 0 0.

Definition allocateSynapse (m : t) : t :=
  mk (Utils.wrap64 (activeSynapses m + 1))
     (Utils.wrap64 (totalSynapses m + 1)).

(** [deallocateSynapse(ptr)]; [is_null] tells whether [ptr] is null. *)
Definition deallocateSynapse (is_null : bool) (m : t) : t :=
  if is_null then m
  else if (0 <? activeSynapses m)%Z
       then mk (Utils.wrap64 (activeSynapses m - 1)) (totalSynapses m)
       else m.

Definition getActiveSynapseCount (m : t) : Z := activeSynapses m.
Definition getTotalSynapseCount (m : t) : Z := totalSynapses m.

Definition resetStats (m : t) : t := mk 0 0.

(** The calls a client can make. *)
Inductive call :=
| Allocate
| Deallocate (is_null : bool)
| ResetStats.

Definition step (m : t) (c : call) : t :=
  match c with
  | Allocate => allocateSynapse m
  | Deallocate is_null => deallocateSynapse is_null m
  | ResetStats => resetStats m
  end.

Definition run (calls : list call) (m : t) : t := foldl step m calls.

(** How many allocations follow the last [resetStats]. *)
Definition allocations_since_reset (calls : list call) : Z :=
  foldl (fun k c =>
           match c with
           | Allocate => (k + 1)%Z
           | Deallocate _ => k
           | ResetStats => 0%Z
           end) 0%Z calls.

End MemoryManager.

(** * Properties *)

(** ** Numeric helpers *)

Lemma Qltb_lt a b : Qltb a b = true <-> a < b.
Proof.
  unfold Qltb. rewrite negb_true_iff. split.
  - intros H. apply Qnot_le_lt. intros Hle.
    apply Qle_bool_iff in Hle. congruence.
  - intros H. destruct (Qle_bool b a) eqn:E; [|done].
    apply Qle_bool_iff in E. exfalso. exact (Qlt_not_le _ _ H E).
Qed.

Lemma Qltb_ge a b : Qltb a b = false <-> b <= a.
Proof.
  unfold Qltb. rewrite negb_false_iff. apply Qle_bool_iff.
Qed.

#[export] Instance Qltb_proper : Proper (Qeq ==> Qeq ==> eq) Qltb.
Proof. intros a a' Ha b b' Hb. unfold Qltb. by rewrite Ha, Hb. Qed.

#[export] Instance clamp01_proper : Proper (Qeq ==> Qeq) clamp01.
Proof.
  intros a b Hab.
  assert (E1 : Qltb 0 a = Qltb 0 b) by (by rewrite Hab).
  assert (E2 : Qltb a 1 = Qltb b 1) by (by rewrite Hab).
  unfold clamp01, fmin, fmax. rewrite E1.
  destruct (Qltb 0 b); [|reflexivity].
  rewrite E2. destruct (Qltb b 1); [exact Hab | reflexivity].
Qed.

Lemma clamp01_range x : 0 <= clamp01 x /\ clamp01 x <= 1.
Proof.
  unfold clamp01, fmin, fmax.
  destruct (Qltb 0 x) eqn:E0.
  - apply Qltb_lt in E0. destruct (Qltb x 1) eqn:E1.
    + apply Qltb_lt in E1. split; apply Qlt_le_weak; assumption.
    + split; [discriminate | apply Qle_refl].
  - destruct (Qltb 0 1) eqn:E1.
    + split; [apply Qle_refl | discriminate].
    + discriminate.
Qed.

Lemma clamp01_clamp x : clamp01 x == clamp x 0 1.
Proof.
  unfold clamp01, clamp, fmin, fmax.
  destruct (Qltb 0 x) eqn:E0.
  - apply Qltb_lt in E0.
    assert (Qltb x 0 = false) as -> by (apply Qltb_ge, Qlt_le_weak, E0).
    destruct (Qltb x 1) eqn:E1.
    + apply Qltb_lt in E1.
      assert (Qltb 1 x = false) as -> by (apply Qltb_ge, Qlt_le_weak, E1).
      reflexivity.
    + apply Qltb_ge in E1. destruct (Qltb 1 x) eqn:E2; [reflexivity|].
      apply Qltb_ge in E2. apply Qle_antisym; assumption.
  - apply Qltb_ge in E0. simpl.
    destruct (Qltb x 0) eqn:E1; [reflexivity|].
    apply Qltb_ge in E1.
    assert (Qltb 1 x = false) as ->.
    { apply Qltb_ge. apply Qle_trans with 0; [assumption | discriminate]. }
    apply Qle_antisym; assumption.
Qed.

Lemma clamp01_id x : 0 <= x -> x <= 1 -> clamp01 x == x.
Proof.
  intros H0 H1. rewrite clamp01_clamp. unfold clamp.
  assert (Qltb x 0 = false) as -> by (apply Qltb_ge, H0).
  assert (Qltb 1 x = false) as -> by (apply Qltb_ge, H1).
  reflexivity.
Qed.

(** ** Signals *)

Lemma strength_addTag tag s :
  Synapse.strength (Synapse.addTag tag s) = Synapse.strength s.
Proof. unfold Synapse.addTag. by case_bool_decide. Qed.

Lemma strength_foldl_addTag tgs s :
  Synapse.strength (foldl (fun d tag => Synapse.addTag tag d) s tgs)
  = Synapse.strength s.
Proof.
  revert s. induction tgs as [|tag tgs IH]; intros s; simpl; [done|].
  by rewrite IH, strength_addTag.
Qed.

Lemma strength_foldl_copy (f : string -> string) (g : string -> string)
    keys s :
  Synapse.strength
    (foldl (fun d key =>
              if Synapse.reserved key then d
              else Synapse.setData (f key) (g key) d) s keys)
  = Synapse.strength s.
Proof.
  revert s. induction keys as [|key keys IH]; intros s; simpl; [done|].
  rewrite IH. by destruct (Synapse.reserved key).
Qed.

Lemma strength_derive_with uuid d s :
  Synapse.strength (Synapse.derive_with uuid d s)
  = clamp01 (if Qle_bool 0 d then d else Synapse.strength s).
Proof.
  unfold Synapse.derive_with. simpl. by rewrite strength_foldl_addTag.
Qed.

Lemma strength_combine uuid o s :
  Synapse.strength (Synapse.combine uuid (Some o) s)
  = clamp01 ((Synapse.strength s + Synapse.strength o) / 2).
Proof.
  unfold Synapse.combine.
  rewrite (strength_foldl_copy (fun key => key +:+ "_2")
             (fun key => Synapse.getData key o)).
  rewrite (strength_foldl_copy (fun key => key +:+ "_1")
             (fun key => Synapse.getData key s)).
  simpl. by rewrite !strength_foldl_addTag.
Qed.

Lemma reachable_inBounds s : Synapse.reachable s -> Synapse.inBounds s.
Proof.
  induction 1 as [i ty q | o s _ IH | uuid d s _ _ | uuid o s _ _ _ _].
  - apply clamp01_range.
  - destruct o; simpl; try exact IH.
    + apply clamp01_range.
    + unfold Synapse.inBounds. by rewrite strength_addTag.
  - unfold Synapse.inBounds. rewrite strength_derive_with.
    apply clamp01_range.
  - unfold Synapse.inBounds. destruct o as [x|].
    + rewrite strength_combine. apply clamp01_range.
    + unfold Synapse.combine, Synapse.derive.
      rewrite strength_derive_with. apply clamp01_range.
Qed.

(** C3. Constructing a signal with strength [s], or writing [s] with
    [setStrength], stores [clamp(s, 0, 1)], which [getStrength] returns; and
    every signal the interface can produce (constructed, derived, combined,
    and written to by any sequence of setters) has its strength within
    [[0, 1]]. *)
Theorem synapse_strength_always_clamped :
  forall s : Q,
    (forall i ty, Synapse.getStrength (Synapse.new i ty s) == clamp s 0 1)
    /\ (forall sig,
          Synapse.getStrength (Synapse.setStrength s sig) == clamp s 0 1)
    /\ (forall sig,
          Synapse.reachable sig ->
          0 <= Synapse.getStrength sig /\ Synapse.getStrength sig <= 1).
Proof.
  intros s. split; [|split].
  - intros i ty. apply clamp01_clamp.
  - intros sig. apply clamp01_clamp.
  - intros sig Hr. exact (reachable_inBounds sig Hr).
Qed.

(** ** Gates *)

Lemma strength_stamp g name r :
  Synapse.strength (NeuronGate.stamp g name r) = Synapse.strength r.
Proof. unfold NeuronGate.stamp. by rewrite strength_addTag. Qed.

Lemma allAboveThreshold_spec g (sigs : list Synapse.t) :
  NeuronGate.allAboveThreshold g (map Some sigs) = true
  <-> Forall (fun s => NeuronGate.threshold g <= Synapse.getStrength s) sigs.
Proof.
  unfold NeuronGate.allAboveThreshold.
  induction sigs as [|s sigs IH]; simpl.
  - split; [constructor | done].
  - rewrite andb_true_iff, negb_true_iff, Qltb_ge, IH, Forall_cons. tauto.
Qed.

Lemma totalStrength_foldl acc (sigs : list Synapse.t) :
  foldl (fun acc input =>
           match input with
           | Some s => acc + Synapse.getStrength s
           | None => acc
           end) acc (map Some sigs)
  == acc + fold_right Qplus 0 (map Synapse.getStrength sigs).
Proof.
  revert acc. induction sigs as [|s sigs IH]; intros acc; simpl.
  - ring.
  - rewrite IH. ring.
Qed.

Lemma totalStrength_sum (sigs : list Synapse.t) :
  NeuronGate.totalStrength (map Some sigs)
  == fold_right Qplus 0 (map Synapse.getStrength sigs).
Proof.
  unfold NeuronGate.totalStrength. rewrite totalStrength_foldl. ring.
Qed.

Lemma inject_nat_S n :
  inject_Z (Z.of_nat (S n)) == inject_Z (Z.of_nat n) + 1.
Proof. rewrite Nat2Z.inj_succ. unfold Z.succ. by rewrite inject_Z_plus. Qed.

Lemma inject_nat_pos n : 0 < inject_Z (Z.of_nat (S n)).
Proof.
  change 0 with (inject_Z 0). rewrite <- Zlt_Qlt. lia.
Qed.

Lemma sum_bounds (xs : list Q) :
  Forall (fun x => 0 <= x /\ x <= 1) xs ->
  0 <= fold_right Qplus 0 xs
  /\ fold_right Qplus 0 xs <= inject_Z (Z.of_nat (length xs)).
Proof.
  induction 1 as [|x xs [Hx0 Hx1] _ [IH0 IH1]]; simpl fold_right.
  - split; apply Qle_refl.
  - split.
    + change 0 with (0 + 0). by apply Qplus_le_compat.
    + simpl length. rewrite inject_nat_S, (Qplus_comm x).
      by apply Qplus_le_compat.
Qed.

Lemma mean_bounds (xs : list Q) :
  xs <> [] -> Forall (fun x => 0 <= x /\ x <= 1) xs ->
  0 <= mean xs /\ mean xs <= 1.
Proof.
  intros Hne Hall. destruct (sum_bounds xs Hall) as [H0 H1].
  unfold mean. destruct xs as [|x xs]; [done|].
  pose proof (inject_nat_pos (length xs)) as Hpos. simpl length in *.
  split.
  - apply Qle_shift_div_l; [exact Hpos|]. by rewrite Qmult_0_l.
  - apply Qle_shift_div_r; [exact Hpos|]. by rewrite Qmult_1_l.
Qed.

Lemma AndGate_process_Some g uuid (s0 : Synapse.t) sigs :
  Forall (fun s => NeuronGate.threshold g <= Synapse.getStrength s) (s0 :: sigs) ->
  exists r,
    NeuronGate.AndGate_process g uuid (map Some (s0 :: sigs)) = Some r
    /\ Synapse.getStrength r
       = clamp01 (NeuronGate.totalStrength (map Some (s0 :: sigs))
                  / inject_Z (Z.of_nat (length (map Some (s0 :: sigs))))).
Proof.
  intros Hall. apply allAboveThreshold_spec in Hall.
  unfold NeuronGate.AndGate_process.
  change (map Some (s0 :: sigs)) with (Some s0 :: map Some sigs) in *.
  rewrite Hall. eexists. split; [reflexivity|].
  unfold Synapse.getStrength. by rewrite strength_stamp.
Qed.

Lemma AndGate_process_None g uuid (sigs : list Synapse.t) :
  ~ Forall (fun s => NeuronGate.threshold g <= Synapse.getStrength s) sigs ->
  NeuronGate.AndGate_process g uuid (map Some sigs) = None.
Proof.
  intros Hall. unfold NeuronGate.AndGate_process.
  destruct sigs as [|s0 sigs]; [done|].
  change (map Some (s0 :: sigs)) with (Some s0 :: map Some sigs) in *.
  destruct (NeuronGate.allAboveThreshold g (Some s0 :: map Some sigs)) eqn:E;
    [|done].
  exfalso. apply Hall. by apply allAboveThreshold_spec.
Qed.

Lemma AndGate_process_null g uuid (ins : NeuronGate.inputs) :
  None ∈ ins -> NeuronGate.AndGate_process g uuid ins = None.
Proof.
  intros Hin. unfold NeuronGate.AndGate_process.
  destruct ins as [|i0 ins]; [done|].
  destruct (NeuronGate.allAboveThreshold g (i0 :: ins)) eqn:E; [|done].
  exfalso. unfold NeuronGate.allAboveThreshold in E.
  rewrite forallb_forall in E.
  apply list_elem_of_In in Hin. specialize (E None Hin). discriminate.
Qed.



Lemma Qabs_diff_bounds a b :
  0 <= a <= 1 -> 0 <= b <= 1 -> 0 <= Qabs (a - b) /\ Qabs (a - b) <= 1.
Proof.
  intros [Ha0 Ha1] [Hb0 Hb1]. split; [apply Qabs_nonneg|].
  apply Qabs_Qle_condition. split; lra.
Qed.



(** ** Stores *)

Lemma get_Ret l w n : Neuron.get l w = Ret n <-> Neuron.heap w !! l = Some n.
Proof.
  unfold Neuron.get. destruct (Neuron.heap w !! l); split; congruence.
Qed.

Lemma get_put_eq l n w : Neuron.get l (Neuron.put l n w) = Ret n.
Proof. apply get_Ret. simpl. apply lookup_insert_eq. Qed.

Lemma get_emit l evs w : Neuron.get l (Neuron.emit evs w) = Neuron.get l w.
Proof. done. Qed.

Lemma get_put_ne l l' n w :
  l <> l' -> Neuron.get l' (Neuron.put l n w) = Neuron.get l' w.
Proof.
  intros Hne. unfold Neuron.get. simpl. by rewrite lookup_insert_ne.
Qed.

Lemma filter_none {A} (P : A -> Prop) `{!forall x, Decision (P x)}
    (xs : list A) :
  (forall x, x ∈ xs -> ~ P x) -> filter P xs = [].
Proof.
  induction xs as [|y ys IH]; intros Hall; [done|].
  rewrite filter_cons_False by (apply Hall; left).
  apply IH. intros x Hx. apply Hall. by right.
Qed.

Lemma occurrences_NoDup x (xs : list loc) :
  NoDup xs -> x ∈ xs -> Neuron.occurrences x xs = 1%nat.
Proof.
  unfold Neuron.occurrences. induction 1 as [|y ys Hy Hnd IH]; intros Hin.
  - by apply elem_of_nil in Hin.
  - rewrite filter_cons. destruct (decide (y = x)) as [-> |Hne].
    + assert (filter (fun z => z = x) ys = []) as ->; [|done].
      apply filter_none. by intros z Hz ->.
    + apply elem_of_cons in Hin as [-> |Hin]; [done|]. by apply IH.
Qed.

(** ** Connecting and disconnecting *)

Lemma connectTo_result a b weight w na nb :
  a <> b ->
  Neuron.heap w !! a = Some na ->
  Neuron.heap w !! b = Some nb ->
  Neuron.connectTo a (Some b) weight w
  = Ret (true,
         Neuron.mkStore
           (<[b := Neuron.with_inputs
                     match Neuron.connections na !! b with
                     | Some _ => Neuron.inputs nb
                     | None => Neuron.inputs nb ++ [a]
                     end nb]>
              (<[a := Neuron.with_connections
                        (<[b := weight]> (Neuron.connections na)) na]>
                 (Neuron.heap w)))
           (Neuron.trace w) (Neuron.minted w)).
Proof.
  intros Hne Ha Hb. unfold Neuron.connectTo.
  rewrite bool_decide_eq_false_2 by congruence.
  rewrite (proj2 (get_Ret a w na) Ha). simpl.
  destruct (Neuron.connections na !! b) eqn:E.
  - unfold Neuron.put. simpl.
    assert (Neuron.with_inputs (Neuron.inputs nb) nb = nb) as ->
      by (by destruct nb).
    rewrite (insert_id _ b nb) by (by rewrite lookup_insert_ne). done.
  - rewrite get_put_ne by done.
    rewrite (proj2 (get_Ret b w nb) Hb). reflexivity.
Qed.

Lemma disconnectFrom_absent a b w na :
  Neuron.heap w !! a = Some na ->
  Neuron.connections na !! b = None ->
  Neuron.disconnectFrom a (Some b) w = Ret (false, w).
Proof.
  intros Ha Hc. unfold Neuron.disconnectFrom.
  rewrite (proj2 (get_Ret a w na) Ha). simpl. by rewrite Hc.
Qed.

Lemma disconnectFrom_result a b w na nb :
  a <> b ->
  Neuron.heap w !! a = Some na ->
  Neuron.heap w !! b = Some nb ->
  is_Some (Neuron.connections na !! b) ->
  Neuron.disconnectFrom a (Some b) w
  = Ret (true,
         Neuron.mkStore
           (<[b := Neuron.with_inputs
                     (filter (fun x => is_Some (Neuron.heap w !! x) /\ x <> a)
                             (Neuron.inputs nb)) nb]>
              (<[a := Neuron.with_connections
                        (delete b (Neuron.connections na)) na]>
                 (Neuron.heap w)))
           (Neuron.trace w) (Neuron.minted w)).
Proof.
  intros Hne Ha Hb [weight Hc]. unfold Neuron.disconnectFrom.
  rewrite (proj2 (get_Ret a w na) Ha). simpl. rewrite Hc.
  rewrite get_put_ne by done.
  rewrite (proj2 (get_Ret b w nb) Hb). simpl.
  unfold Neuron.put. simpl. do 4 f_equal. f_equal.
  apply list_filter_iff. intros x. split; intros [Hx ?]; split; try done.
  - destruct (decide (a = x)) as [<-|Hax].
    + by rewrite lookup_insert_eq in Hx.
    + by rewrite lookup_insert_ne in Hx.
  - destruct (decide (a = x)) as [<-|Hax].
    + by rewrite lookup_insert_eq.
    + by rewrite lookup_insert_ne.
Qed.

Lemma filter_all {A} (P : A -> Prop) `{!forall x, Decision (P x)}
    (xs : list A) :
  (forall x, x ∈ xs -> P x) -> filter P xs = xs.
Proof.
  induction xs as [|y ys IH]; intros Hall; [done|].
  rewrite filter_cons_True by (apply Hall; left).
  f_equal. apply IH. intros x Hx. apply Hall. by right.
Qed.

Lemma linked_inv w a b :
  Neuron.linked w a b ->
  exists na, Neuron.heap w !! a = Some na
             /\ is_Some (Neuron.connections na !! b).
Proof.
  unfold Neuron.linked, Neuron.links_of.
  destruct (Neuron.heap w !! a) as [na|]; [by eauto|].
  rewrite lookup_empty. by intros [? ?].
Qed.

Lemma linked_intro w a b na :
  Neuron.heap w !! a = Some na ->
  is_Some (Neuron.connections na !! b) ->
  Neuron.linked w a b.
Proof. intros Ha Hc. unfold Neuron.linked, Neuron.links_of. by rewrite Ha. Qed.

Lemma backref_inv w a b :
  Neuron.backref w a b ->
  exists nb, Neuron.heap w !! b = Some nb /\ a ∈ Neuron.inputs nb.
Proof.
  unfold Neuron.backref, Neuron.inputs_of.
  destruct (Neuron.heap w !! b) as [nb|]; [by eauto|].
  by intros ?%elem_of_nil.
Qed.

Lemma backref_intro w a b nb :
  Neuron.heap w !! b = Some nb -> a ∈ Neuron.inputs nb -> Neuron.backref w a b.
Proof. intros Hb Hin. unfold Neuron.backref, Neuron.inputs_of. by rewrite Hb. Qed.

Lemma getOutputs_elem n b :
  b ∈ Neuron.getOutputs n <-> is_Some (Neuron.connections n !! b).
Proof.
  unfold Neuron.getOutputs. rewrite list_elem_of_fmap. split.
  - intros ([k v] & -> & Hin). apply elem_of_map_to_list in Hin. by eauto.
  - intros [v Hv]. exists (b, v). split; [done|].
    by apply elem_of_map_to_list.
Qed.

Lemma getOutputs_NoDup n : NoDup (Neuron.getOutputs n).
Proof. apply NoDup_fst_map_to_list. Qed.

Lemma wf_inputs_alive w b nb x :
  Neuron.wf_links w ->
  Neuron.heap w !! b = Some nb -> x ∈ Neuron.inputs nb ->
  is_Some (Neuron.heap w !! x).
Proof.
  intros Hwf Hb Hx.
  assert (Neuron.linked w x b) as Hl.
  { apply (Neuron.wf_mirror w Hwf). by eapply backref_intro. }
  apply linked_inv in Hl as (nx & Hx' & _). by eauto.
Qed.

(** C6. From a well-formed store and distinct live neurons [a] and [b],
    [connectTo(a, b, 0.7)] followed by [connectTo(a, b, 0.4)] both succeed
    and leave exactly one edge from [a] to [b]: [b] occurs once among the
    outputs of [a], [a] occurs once among the back-references of [b], and
    the weight of the edge, as [getConnectionWeight] reports it, is 0.4. *)
Theorem connectTo_twice_keeps_one_edge :
  forall (w : Neuron.Store) (a b : loc),
    Neuron.wf_links w -> a <> b ->
    is_Some (Neuron.heap w !! a) -> is_Some (Neuron.heap w !! b) ->
    exists w1 w2 na nb,
      Neuron.connectTo a (Some b) 0.7 w = Ret (true, w1)
      /\ Neuron.connectTo a (Some b) 0.4 w1 = Ret (true, w2)
      /\ Neuron.heap w2 !! a = Some na
      /\ Neuron.heap w2 !! b = Some nb
      /\ Neuron.connections na !! b = Some 0.4
      /\ Neuron.occurrences b (Neuron.getOutputs na) = 1%nat
      /\ Neuron.occurrences a (Neuron.inputs nb) = 1%nat
      /\ Neuron.occurrences a (Neuron.getInputs w2 nb) = 1%nat
      /\ Neuron.getConnectionWeight b na = 0.4.
Proof.
  intros w a b Hwf Hne [na0 Ha] [nb0 Hb].
  rewrite (connectTo_result a b 0.7 w na0 nb0 Hne Ha Hb).
  set (na1 := Neuron.with_connections (<[b := 0.7]> (Neuron.connections na0)) na0).
  set (nb1 := Neuron.with_inputs
                match Neuron.connections na0 !! b with
                | Some _ => Neuron.inputs nb0
                | None => Neuron.inputs nb0 ++ [a]
                end nb0).
  set (w1 := Neuron.mkStore _ _ _).
  assert (Ha1 : Neuron.heap w1 !! a = Some na1).
  { simpl. rewrite lookup_insert_ne by done. apply lookup_insert_eq. }
  assert (Hb1 : Neuron.heap w1 !! b = Some nb1) by apply lookup_insert_eq.
  pose proof (connectTo_result a b 0.4 w1 na1 nb1 Hne Ha1 Hb1) as H2.
  assert (Hc1 : Neuron.connections na1 !! b = Some 0.7) by apply lookup_insert_eq.
  rewrite Hc1 in H2.
  assert (Neuron.with_inputs (Neuron.inputs nb1) nb1 = nb1) as Hid
    by (by destruct nb1).
  rewrite Hid in H2. clear Hid.
  set (na2 := Neuron.with_connections (<[b := 0.4]> (Neuron.connections na1)) na1) in *.
  set (w2 := Neuron.mkStore _ _ _) in H2.
  assert (Hocc : Neuron.occurrences a (Neuron.inputs nb1) = 1%nat).
  { pose proof (Neuron.wf_nodup w Hwf b) as Hnd.
    pose proof (Neuron.wf_mirror w Hwf a b) as Hmir.
    unfold Neuron.inputs_of in Hnd. rewrite Hb in Hnd.
    subst nb1. simpl. destruct (Neuron.connections na0 !! b) as [q|] eqn:E.
    - apply occurrences_NoDup; [done|].
      assert (Neuron.backref w a b) as Hbr.
      { apply Hmir. eapply linked_intro; eauto. }
      apply backref_inv in Hbr as (nb' & Hb' & Hin). congruence.
    - assert (a ∉ Neuron.inputs nb0) as Hnin.
      { intros Hin. assert (Neuron.linked w a b) as Hl.
        { apply Hmir. by eapply backref_intro. }
        apply linked_inv in Hl as (na' & Ha' & [q Hq]). congruence. }
      simpl. apply occurrences_NoDup.
      + apply NoDup_app. split; [done|]. split; [|apply NoDup_singleton].
        intros x Hx Hx'. apply list_elem_of_singleton in Hx' as ->. done.
      + apply elem_of_app. right. by apply list_elem_of_singleton. }
  exists w1, w2, na2, nb1. split; [done|]. split; [exact H2|].
  split; [|split; [apply lookup_insert_eq|]].
  { simpl. rewrite lookup_insert_ne by done. apply lookup_insert_eq. }
  assert (Hc2 : Neuron.connections na2 !! b = Some 0.4) by apply lookup_insert_eq.
  split; [exact Hc2|]. split.
  { apply occurrences_NoDup; [apply getOutputs_NoDup|].
    apply getOutputs_elem. by eauto. }
  split; [exact Hocc|]. split.
  - unfold Neuron.getInputs. rewrite filter_all; [exact Hocc|].
    intros x Hx.
    assert (is_Some (Neuron.heap w !! x)) as [nx Hnx].
    { subst nb1. simpl in Hx. destruct (Neuron.connections na0 !! b).
      - by eapply wf_inputs_alive.
      - apply elem_of_app in Hx as [Hx|Hx].
        + by eapply wf_inputs_alive.
        + apply list_elem_of_singleton in Hx as ->. by eauto. }
    simpl. destruct (decide (x = b)) as [-> |Hxb].
    { rewrite lookup_insert_eq. by eauto. }
    rewrite lookup_insert_ne by done.
    destruct (decide (x = a)) as [-> |Hxa].
    { rewrite lookup_insert_eq. by eauto. }
    rewrite lookup_insert_ne by done.
    rewrite lookup_insert_ne by done.
    destruct (decide (x = a)); [done|].
    rewrite lookup_insert_ne by done. by eauto.
  - unfold Neuron.getConnectionWeight. by rewrite Hc2.
Qed.

(** The store after an edge update: new connections [C] for [a], new
    back-references [I] for [b]. *)
Section Rewired.
Variables (w : Neuron.Store) (a b : loc) (na nb : Neuron.t).
Variables (C : gmap loc Q) (I : list loc) (tr : list Neuron.Event) (m : nat).
Hypothesis Hne : a <> b.
Hypothesis Ha : Neuron.heap w !! a = Some na.
Hypothesis Hb : Neuron.heap w !! b = Some nb.

Let w' : Neuron.Store :=
  Neuron.mkStore
    (<[b := Neuron.with_inputs I nb]>
       (<[a := Neuron.with_connections C na]> (Neuron.heap w))) tr m.

Lemma rewired_links x :
  Neuron.links_of w' x = if decide (x = a) then C else Neuron.links_of w x.
Proof using Hne Ha Hb.
  unfold Neuron.links_of, w'. simpl.
  destruct (decide (x = b)) as [-> |Hxb].
  - rewrite lookup_insert_eq, decide_False by done. by rewrite Hb.
  - rewrite lookup_insert_ne by done.
    destruct (decide (x = a)) as [-> |Hxa].
    + by rewrite lookup_insert_eq.
    + by rewrite lookup_insert_ne.
Qed.

Lemma rewired_inputs x :
  Neuron.inputs_of w' x = if decide (x = b) then I else Neuron.inputs_of w x.
Proof using Hne Ha Hb.
  unfold Neuron.inputs_of, w'. simpl.
  destruct (decide (x = b)) as [-> |Hxb].
  - by rewrite lookup_insert_eq.
  - rewrite lookup_insert_ne by done.
    destruct (decide (x = a)) as [-> |Hxa].
    + rewrite lookup_insert_eq. by rewrite Ha.
    + by rewrite lookup_insert_ne.
Qed.

Lemma rewired_alive x :
  is_Some (Neuron.heap w' !! x) <-> is_Some (Neuron.heap w !! x).
Proof using Hne Ha Hb.
  unfold w'. simpl.
  destruct (decide (x = b)) as [-> |Hxb].
  - rewrite lookup_insert_eq, Hb. split; intros _; by eexists.
  - rewrite lookup_insert_ne by done.
    destruct (decide (x = a)) as [-> |Hxa].
    + rewrite lookup_insert_eq, Ha. split; intros _; by eexists.
    + by rewrite lookup_insert_ne.
Qed.

End Rewired.

Lemma wf_linked_alive w a b :
  Neuron.wf_links w -> Neuron.linked w a b ->
  a <> b
  /\ exists na nb,
      Neuron.heap w !! a = Some na /\ Neuron.heap w !! b = Some nb
      /\ is_Some (Neuron.connections na !! b) /\ a ∈ Neuron.inputs nb.
Proof.
  intros Hwf Hl. split.
  - intros ->. by apply (Neuron.wf_noself w Hwf b).
  - pose proof Hl as Hbr. apply (Neuron.wf_mirror w Hwf) in Hbr.
    apply linked_inv in Hl as (na & Ha & Hc).
    apply backref_inv in Hbr as (nb & Hb & Hin). by eauto 8.
Qed.

(** [disconnectFrom] on an existing edge removes exactly that edge and keeps
    the store well formed. *)
Lemma disconnectFrom_wf w a b :
  Neuron.wf_links w -> Neuron.linked w a b ->
  exists w',
    Neuron.disconnectFrom a (Some b) w = Ret (true, w')
    /\ Neuron.wf_links w'
    /\ (forall x y, Neuron.linked w' x y
                    <-> Neuron.linked w x y /\ ~ (x = a /\ y = b))
    /\ (forall x, Neuron.inputs_of w' x
                  = if decide (x = b)
                    then filter (fun y => y <> a) (Neuron.inputs_of w x)
                    else Neuron.inputs_of w x)
    /\ (forall x, is_Some (Neuron.heap w' !! x)
                  <-> is_Some (Neuron.heap w !! x)).
Proof.
  intros Hwf Hl.
  destruct (wf_linked_alive w a b Hwf Hl) as (Hne & na & nb & Ha & Hb & Hc & Hin).
  rewrite (disconnectFrom_result a b w na nb Hne Ha Hb Hc).
  assert (Hfil : filter (fun x => is_Some (Neuron.heap w !! x) /\ x <> a)
                        (Neuron.inputs nb)
                 = filter (fun y => y <> a) (Neuron.inputs nb)).
  { rewrite <- (list_filter_filter (fun x => is_Some (Neuron.heap w !! x))).
    rewrite filter_all; [done|].
    intros x Hx. apply list_elem_of_filter in Hx as [_ Hx].
    by eapply wf_inputs_alive. }
  rewrite Hfil. clear Hfil.
  eexists. split; [reflexivity|].
  assert (Hlinks : forall x y,
    Neuron.linked
      (Neuron.mkStore
         (<[b := Neuron.with_inputs
                   (filter (fun y => y <> a) (Neuron.inputs nb)) nb]>
            (<[a := Neuron.with_connections
                      (delete b (Neuron.connections na)) na]>
               (Neuron.heap w)))
         (Neuron.trace w) (Neuron.minted w)) x y
    <-> Neuron.linked w x y /\ ~ (x = a /\ y = b)).
  { intros x y. unfold Neuron.linked.
    rewrite (rewired_links w a b na nb _ _ _ _ Hne Ha Hb).
    destruct (decide (x = a)) as [-> |Hxa].
    - unfold Neuron.links_of. rewrite Ha.
      destruct (decide (y = b)) as [-> |Hyb].
      + rewrite lookup_delete_eq. split; [by intros [? ?] | by intros [_ []]].
      + rewrite lookup_delete_ne by done. split; [|by intros [? _]].
        intros ?. split; [done|]. by intros [_ ?].
    - split; [|by intros [? _]]. intros ?. split; [done|]. by intros [? _]. }
  assert (Hins : forall x,
    Neuron.inputs_of
      (Neuron.mkStore
         (<[b := Neuron.with_inputs
                   (filter (fun y => y <> a) (Neuron.inputs nb)) nb]>
            (<[a := Neuron.with_connections
                      (delete b (Neuron.connections na)) na]>
               (Neuron.heap w)))
         (Neuron.trace w) (Neuron.minted w)) x
    = if decide (x = b)
      then filter (fun y => y <> a) (Neuron.inputs_of w x)
      else Neuron.inputs_of w x).
  { intros x. rewrite (rewired_inputs w a b na nb _ _ _ _ Hne Ha Hb).
    destruct (decide (x = b)) as [-> |]; [|done].
    unfold Neuron.inputs_of. by rewrite Hb. }
  split; [|split; [exact Hlinks|split; [exact Hins|]]].
  - split.
    + intros x y. rewrite Hlinks. unfold Neuron.backref. rewrite Hins.
      pose proof (Neuron.wf_mirror w Hwf x y) as Hm. unfold Neuron.backref in Hm.
      destruct (decide (y = b)) as [-> |Hyb].
      * rewrite list_elem_of_filter. rewrite Hm. split.
        -- intros [? Hn]. split; [|done]. intros ->. by apply Hn.
        -- intros [Hn ?]. split; [done|]. by intros [? _].
      * rewrite Hm. split; [by intros [? _]|].
        intros ?. split; [done|]. by intros [_ ?].
    + intros x. rewrite Hins. pose proof (Neuron.wf_nodup w Hwf x).
      destruct (decide (x = b)); [by apply NoDup_filter | done].
    + intros x Hx. apply Hlinks in Hx as [Hx _].
      by apply (Neuron.wf_noself w Hwf x).
  - intros x. apply (rewired_alive w a b na nb _ _ _ _ Hne Ha Hb).
Qed.

(** [connectTo] between distinct live neurons adds exactly that edge and
    keeps the store well formed. *)
Lemma connectTo_wf w a b weight :
  Neuron.wf_links w -> a <> b ->
  is_Some (Neuron.heap w !! a) -> is_Some (Neuron.heap w !! b) ->
  exists w',
    Neuron.connectTo a (Some b) weight w = Ret (true, w')
    /\ Neuron.wf_links w'
    /\ (forall x y, Neuron.linked w' x y
                    <-> Neuron.linked w x y \/ (x = a /\ y = b))
    /\ (forall x, is_Some (Neuron.heap w' !! x)
                  <-> is_Some (Neuron.heap w !! x)).
Proof.
  intros Hwf Hne [na Ha] [nb Hb].
  rewrite (connectTo_result a b weight w na nb Hne Ha Hb).
  eexists. split; [reflexivity|].
  set (I := match Neuron.connections na !! b with
            | Some _ => Neuron.inputs nb
            | None => Neuron.inputs nb ++ [a]
            end).
  set (w' := Neuron.mkStore _ _ _).
  assert (Hlinks : forall x y,
    Neuron.linked w' x y <-> Neuron.linked w x y \/ (x = a /\ y = b)).
  { intros x y. unfold Neuron.linked, w'.
    rewrite (rewired_links w a b na nb _ _ _ _ Hne Ha Hb).
    destruct (decide (x = a)) as [-> |Hxa].
    - unfold Neuron.links_of. rewrite Ha.
      destruct (decide (y = b)) as [-> |Hyb].
      + rewrite lookup_insert_eq. split; [by right | by eauto].
      + rewrite lookup_insert_ne by done. split; [by left|].
        by intros [?|[_ ?]].
    - split; [by left|]. by intros [?|[? _]]. }
  assert (Hins : forall x,
    Neuron.inputs_of w' x = if decide (x = b) then I else Neuron.inputs_of w x).
  { intros x. apply (rewired_inputs w a b na nb _ _ _ _ Hne Ha Hb). }
  assert (HI : forall x, x ∈ I <-> x ∈ Neuron.inputs nb \/ x = a).
  { intros x. subst I.
    destruct (Neuron.connections na !! b) as [q|] eqn:E.
    - split; [by left|]. intros [? | ->]; [done|].
      assert (Neuron.backref w a b) as Hbr.
      { apply (Neuron.wf_mirror w Hwf). eapply linked_intro; eauto. }
      apply backref_inv in Hbr as (nb' & Hb' & Hin). congruence.
    - rewrite elem_of_app, list_elem_of_singleton. done. }
  split; [|split; [exact Hlinks|]].
  - split.
    + intros x y. rewrite Hlinks. unfold Neuron.backref. rewrite Hins.
      pose proof (Neuron.wf_mirror w Hwf x y) as Hm. unfold Neuron.backref in Hm.
      destruct (decide (y = b)) as [-> |Hyb].
      * rewrite HI, Hm. unfold Neuron.inputs_of. rewrite Hb.
        split; (intros [?|?]; [by left|right]); [by destruct H | done].
      * rewrite Hm. split; [|by left]. by intros [?|[_ ?]].
    + intros x. rewrite Hins. pose proof (Neuron.wf_nodup w Hwf x) as Hnd.
      destruct (decide (x = b)) as [-> |]; [|done].
      unfold Neuron.inputs_of in Hnd. rewrite Hb in Hnd. subst I.
      destruct (Neuron.connections na !! b) as [q|] eqn:E; [done|].
      apply NoDup_app. split; [done|]. split; [|apply NoDup_singleton].
      intros x Hx Hx'. apply list_elem_of_singleton in Hx' as ->.
      assert (Neuron.linked w a b) as Hl.
      { apply (Neuron.wf_mirror w Hwf). by eapply backref_intro. }
      apply linked_inv in Hl as (na' & Ha' & [q Hq]). congruence.
    + intros x Hx. apply Hlinks in Hx as [Hx|[-> ?]]; [|done].
      by apply (Neuron.wf_noself w Hwf x).
  - intros x. apply (rewired_alive w a b na nb _ _ _ _ Hne Ha Hb).
Qed.

(** A store without edges or back-references is well formed. *)
Lemma wf_links_unlinked w :
  (forall l n, Neuron.heap w !! l = Some n ->
               Neuron.connections n = ∅ /\ Neuron.inputs n = []) ->
  Neuron.wf_links w.
Proof.
  intros Hall.
  assert (Hl : forall a b, ~ Neuron.linked w a b).
  { intros a b (na & Ha & [q Hq])%linked_inv.
    destruct (Hall a na Ha) as [Hc _]. rewrite Hc in Hq. done. }
  assert (Hi : forall b, Neuron.inputs_of w b = []).
  { intros b. unfold Neuron.inputs_of.
    destruct (Neuron.heap w !! b) as [nb|] eqn:E; [|done].
    by destruct (Hall b nb E). }
  split.
  - intros a b. unfold Neuron.backref. rewrite Hi. split.
    + intros ?. by destruct (Hl a b).
    + by intros ?%elem_of_nil.
  - intros b. rewrite Hi. constructor.
  - intros a. apply Hl.
Qed.

(** C7. From a well-formed store in which [a] has an edge to [b],
    [disconnectFrom(a, b)] succeeds and, in that one call, takes [b] out of
    the outputs of [a] and [a] out of the back-references of [b]; calling
    it again returns [false] and leaves the store as it is. *)
Theorem disconnectFrom_removes_both_sides :
  forall (w : Neuron.Store) (a b : loc),
    Neuron.wf_links w -> Neuron.linked w a b ->
    exists w1 na nb,
      Neuron.disconnectFrom a (Some b) w = Ret (true, w1)
      /\ Neuron.heap w1 !! a = Some na
      /\ Neuron.heap w1 !! b = Some nb
      /\ (b ∉ Neuron.getOutputs na)
      /\ (a ∉ Neuron.inputs nb)
      /\ (a ∉ Neuron.getInputs w1 nb)
      /\ Neuron.disconnectFrom a (Some b) w1 = Ret (false, w1).
Proof.
  intros w a b Hwf Hl.
  destruct (wf_linked_alive w a b Hwf Hl) as (Hne & na0 & nb0 & Ha & Hb & _).
  destruct (disconnectFrom_wf w a b Hwf Hl)
    as (w1 & Hd & Hwf1 & Hlinks & Hins & Halive).
  destruct (proj2 (Halive a)) as [na Hna]; [by eauto|].
  destruct (proj2 (Halive b)) as [nb Hnb]; [by eauto|].
  assert (Hnl : ~ Neuron.linked w1 a b).
  { intros [_ Hn]%Hlinks. by apply Hn. }
  assert (Hnin : a ∉ Neuron.inputs nb).
  { intros Hin. specialize (Hins b). rewrite decide_True in Hins by done.
    unfold Neuron.inputs_of in Hins at 1. rewrite Hnb in Hins.
    rewrite Hins in Hin. apply list_elem_of_filter in Hin as [? _]. done. }
  assert (Hnc : Neuron.connections na !! b = None).
  { destruct (Neuron.connections na !! b) as [q|] eqn:E; [|done].
    exfalso. apply Hnl. eapply linked_intro; eauto. }
  exists w1, na, nb. repeat split; try done.
  - rewrite getOutputs_elem, Hnc. by intros [? ?].
  - unfold Neuron.getInputs. rewrite list_elem_of_filter. by intros [_ ?].
  - by apply (disconnectFrom_absent a b w1 na).
Qed.

(** ** The worked scenarios are well formed *)

Lemma scenario_handles :
  Scenario.A = 0%nat /\ Scenario.B = 1%nat
  /\ Network.getNeuron "A" Scenario.net = Some Scenario.A
  /\ Network.getNeuron "B" Scenario.net = Some Scenario.B.
Proof. by vm_compute. Qed.

Lemma scenario_alive :
  is_Some (Neuron.heap Scenario.unconnected !! Scenario.A)
  /\ is_Some (Neuron.heap Scenario.unconnected !! Scenario.B).
Proof. split; vm_compute; by eexists. Qed.

Lemma wf_unconnected : Neuron.wf_links Scenario.unconnected.
Proof.
  apply wf_links_unlinked.
  assert (H : map_Forall
                (fun (_ : loc) n =>
                   Neuron.connections n = ∅ /\ Neuron.inputs n = [])
                (Neuron.heap Scenario.unconnected)).
  { apply (bool_decide_unpack _). vm_compute. exact I. }
  exact H.
Qed.

Lemma wf_connected weight :
  Neuron.wf_links (Scenario.connected weight)
  /\ Neuron.linked (Scenario.connected weight) Scenario.A Scenario.B.
Proof.
  destruct scenario_handles as (HA & HB & HgA & HgB).
  destruct scenario_alive as [HaA HaB].
  assert (Hne : Scenario.A <> Scenario.B) by (by rewrite HA, HB).
  destruct (connectTo_wf Scenario.unconnected Scenario.A Scenario.B weight
              wf_unconnected Hne HaA HaB) as (w' & Hc & Hwf & Hl & _).
  unfold Scenario.connected, Network.connectNeurons. rewrite HgA, HgB, Hc.
  split; [exact Hwf|]. apply Hl. by right.
Qed.

Lemma connectTo_twice_keeps_one_edge_witness :
  exists w1 w2 na nb,
    Neuron.connectTo Scenario.A (Some Scenario.B) 0.7 Scenario.unconnected
    = Ret (true, w1)
    /\ Neuron.connectTo Scenario.A (Some Scenario.B) 0.4 w1 = Ret (true, w2)
    /\ Neuron.heap w2 !! Scenario.A = Some na
    /\ Neuron.heap w2 !! Scenario.B = Some nb
    /\ Neuron.connections na !! Scenario.B = Some 0.4
    /\ Neuron.occurrences Scenario.B (Neuron.getOutputs na) = 1%nat
    /\ Neuron.occurrences Scenario.A (Neuron.inputs nb) = 1%nat
    /\ Neuron.occurrences Scenario.A (Neuron.getInputs w2 nb) = 1%nat
    /\ Neuron.getConnectionWeight Scenario.B na = 0.4.
Proof.
  apply connectTo_twice_keeps_one_edge.
  - exact wf_unconnected.
  - vm_compute. discriminate.
  - vm_compute. by eexists.
  - vm_compute. by eexists.
Defined.

Lemma disconnectFrom_removes_both_sides_witness :
  exists w1 na nb,
    Neuron.disconnectFrom Scenario.A (Some Scenario.B) (Scenario.connected 0.9)
    = Ret (true, w1)
    /\ Neuron.heap w1 !! Scenario.A = Some na
    /\ Neuron.heap w1 !! Scenario.B = Some nb
    /\ (Scenario.B ∉ Neuron.getOutputs na)
    /\ (Scenario.A ∉ Neuron.inputs nb)
    /\ (Scenario.A ∉ Neuron.getInputs w1 nb)
    /\ Neuron.disconnectFrom Scenario.A (Some Scenario.B) w1 = Ret (false, w1).
Proof.
  apply disconnectFrom_removes_both_sides.
  - exact (proj1 (wf_connected 0.9)).
  - exact (proj2 (wf_connected 0.9)).
Defined.

(** ** Removing a neuron *)

Lemma forM_map {A B S} (g : A -> B) (f : B -> S -> res S) xs s :
  forM f (map g xs) s = forM (fun x => f (g x)) xs s.
Proof.
  revert s. induction xs as [|x xs IH]; intros s; simpl; [done|].
  destruct (f (g x) s); simpl; [apply IH | done | done].
Qed.

Lemma unlink_linked w a b :
  Neuron.wf_links w -> Neuron.linked w a b ->
  exists w',
    Network.unlink a b w = Ret w'
    /\ Neuron.wf_links w'
    /\ (forall x y, Neuron.linked w' x y
                    <-> Neuron.linked w x y /\ ~ (x = a /\ y = b))
    /\ (forall x, is_Some (Neuron.heap w' !! x)
                  <-> is_Some (Neuron.heap w !! x)).
Proof.
  intros Hwf Hl.
  destruct (disconnectFrom_wf w a b Hwf Hl) as (w' & Hd & Hwf' & Hl' & _ & Hal).
  exists w'. unfold Network.unlink. rewrite Hd. by simpl.
Qed.

(** Unlinking a duplicate-free list of existing edges removes exactly
    those edges. *)
Lemma unlink_all (pairs : list (loc * loc)) w :
  Neuron.wf_links w -> NoDup pairs ->
  (forall p, p ∈ pairs -> Neuron.linked w p.1 p.2) ->
  exists w',
    forM (fun p w => Network.unlink p.1 p.2 w) pairs w = Ret w'
    /\ Neuron.wf_links w'
    /\ (forall x y, Neuron.linked w' x y
                    <-> Neuron.linked w x y /\ (x, y) ∉ pairs)
    /\ (forall x, is_Some (Neuron.heap w' !! x)
                  <-> is_Some (Neuron.heap w !! x)).
Proof.
  revert w. induction pairs as [|[a b] pairs IH]; intros w Hwf Hnd Hall.
  - exists w. simpl. split; [done|]. split; [done|]. split; [|done].
    intros x y. split; [|by intros [? _]].
    intros ?. split; [done|]. by intros ?%elem_of_nil.
  - apply NoDup_cons in Hnd as [Hnin Hnd].
    destruct (unlink_linked w a b Hwf) as (w1 & Hu & Hwf1 & Hl1 & Hal1).
    { apply (Hall (a, b)). by left. }
    destruct (IH w1 Hwf1 Hnd) as (w' & Hf & Hwf' & Hl' & Hal').
    { intros [x y] Hp. simpl. apply Hl1. split.
      - apply (Hall (x, y)). by right.
      - intros [-> ->]. done. }
    exists w'. simpl. rewrite Hu. simpl. split; [exact Hf|].
    split; [exact Hwf'|]. split.
    + intros x y. rewrite Hl', Hl1, not_elem_of_cons. split.
      * intros [[? Hn] ?]. repeat split; try done.
        intros [= -> ->]. by apply Hn.
      * intros [? [Hn ?]]. repeat split; try done.
        intros [-> ->]. by apply Hn.
    + intros x. by rewrite Hal', Hal1.
Qed.

(** The two unlinking loops of [removeNeuron]: afterwards no edge starts
    or ends at [l], and nothing else changed in the link structure. *)
Lemma removeNeuron_loops w l n :
  Neuron.wf_links w -> Neuron.heap w !! l = Some n ->
  exists w1 n1 w2,
    forM (fun output w => Network.unlink l output w) (Neuron.getOutputs n) w
    = Ret w1
    /\ Neuron.heap w1 !! l = Some n1
    /\ forM (fun input w => Network.unlink input l w)
            (Neuron.getInputs w1 n1) w1 = Ret w2
    /\ Neuron.wf_links w2
    /\ (forall x y, Neuron.linked w2 x y
                    <-> Neuron.linked w x y /\ x <> l /\ y <> l)
    /\ (forall x, is_Some (Neuron.heap w2 !! x)
                  <-> is_Some (Neuron.heap w !! x)).
Proof.
  intros Hwf Hn.
  assert (Houts : forall y, y ∈ Neuron.getOutputs n <-> Neuron.linked w l y).
  { intros y. rewrite getOutputs_elem. unfold Neuron.linked, Neuron.links_of.
    by rewrite Hn. }
  destruct (unlink_all (map (pair l) (Neuron.getOutputs n)) w Hwf)
    as (w1 & Hf1 & Hwf1 & Hl1 & Hal1).
  { apply (NoDup_fmap_2 _). apply getOutputs_NoDup. }
  { intros p Hp. apply list_elem_of_fmap in Hp as (y & -> & Hy).
    by apply Houts. }
  rewrite forM_map in Hf1. simpl in Hf1.
  assert (Hl1' : forall x y,
            Neuron.linked w1 x y <-> Neuron.linked w x y /\ x <> l).
  { intros x y. rewrite Hl1. split.
    - intros [Hxy Hnp]. split; [done|]. intros ->. apply Hnp.
      apply list_elem_of_fmap. exists y. split; [done|]. by apply Houts.
    - intros [Hxy Hx]. split; [done|].
      intros Hp. apply list_elem_of_fmap in Hp as (y' & [= -> ->] & _). done. }
  destruct (proj2 (Hal1 l)) as [n1 Hn1]; [by eauto|].
  assert (Hins : Neuron.getInputs w1 n1 = Neuron.inputs n1).
  { unfold Neuron.getInputs. apply filter_all. intros x Hx.
    by eapply wf_inputs_alive. }
  assert (Hin1 : forall x, x ∈ Neuron.inputs n1 <-> Neuron.linked w1 x l).
  { intros x. rewrite (Neuron.wf_mirror w1 Hwf1).
    unfold Neuron.backref, Neuron.inputs_of. by rewrite Hn1. }
  destruct (unlink_all (map (fun x => (x, l)) (Neuron.inputs n1)) w1 Hwf1)
    as (w2 & Hf2 & Hwf2 & Hl2 & Hal2).
  { apply (NoDup_fmap_2 _).
    pose proof (Neuron.wf_nodup w1 Hwf1 l) as Hnd.
    unfold Neuron.inputs_of in Hnd. by rewrite Hn1 in Hnd. }
  { intros p Hp. apply list_elem_of_fmap in Hp as (x & -> & Hx).
    by apply Hin1. }
  rewrite forM_map in Hf2. simpl in Hf2.
  exists w1, n1, w2. rewrite Hins.
  split; [exact Hf1|]. split; [exact Hn1|]. split; [exact Hf2|].
  split; [exact Hwf2|]. split.
  - intros x y. rewrite Hl2, Hl1'. split.
    + intros [[Hxy Hx] Hnp]. repeat split; try done.
      intros ->. apply Hnp. apply list_elem_of_fmap. exists x.
      split; [done|]. apply Hin1. by apply Hl1'.
    + intros (Hxy & Hx & Hy). repeat split; try done.
      intros Hp. apply list_elem_of_fmap in Hp as (x' & [= -> ->] & _). done.
  - intros x. by rewrite Hal2, Hal1.
Qed.

(** C8. In a well-formed store, with a registry that files live neurons
    under their own identifiers: [removeNeuron] of an unregistered
    identifier returns [false] and changes nothing; [removeNeuron] of a
    registered one returns [true], after which the identifier and the
    neuron are gone from the registry, the neuron is in neither layer list,
    and no neuron still registered has it among its outputs or among its
    inputs. *)
Theorem removeNeuron_leaves_no_reference :
  forall (net : Network.t) (w : Neuron.Store) (i : string),
    Neuron.wf_links w -> Network.registry_ok net w ->
    (Network.neurons net !! i = None ->
     Network.removeNeuron i net w = Ret (false, net, w))
    /\ (forall l,
          Network.neurons net !! i = Some l ->
          exists net' w',
            Network.removeNeuron i net w = Ret (true, net', w')
            /\ Network.neurons net' !! i = None
            /\ (forall i', Network.neurons net' !! i' <> Some l)
            /\ (l ∉ Network.inputNeurons net')
            /\ (l ∉ Network.outputNeurons net')
            /\ (forall i' l',
                  Network.neurons net' !! i' = Some l' ->
                  exists n',
                    Neuron.heap w' !! l' = Some n'
                    /\ (l ∉ Neuron.getOutputs n')
                    /\ (l ∉ Neuron.getInputs w' n'))).
Proof.
  intros net w i Hwf Hreg. split.
  { intros Hnone. unfold Network.removeNeuron. by rewrite Hnone. }
  intros l Hl.
  destruct (Hreg i l Hl) as (n & Hn & Hid).
  destruct (removeNeuron_loops w l n Hwf Hn)
    as (w1 & n1 & w2 & Hf1 & Hn1 & Hf2 & Hwf2 & Hl2 & Hal2).
  unfold Network.removeNeuron. rewrite Hl.
  rewrite (proj2 (get_Ret l w n) Hn). simpl. rewrite Hf1. simpl.
  rewrite (proj2 (get_Ret l w1 n1) Hn1). simpl. rewrite Hf2. simpl.
  eexists _, w2. split; [reflexivity|]. simpl.
  split; [apply lookup_delete_eq|]. split; [|split; [|split]].
  - intros i' Hi'. destruct (decide (i' = i)) as [->|Hne].
    + by rewrite lookup_delete_eq in Hi'.
    + rewrite lookup_delete_ne in Hi' by done.
      destruct (Hreg i' l Hi') as (n' & Hn' & Hid'). congruence.
  - rewrite list_elem_of_filter. by intros [? _].
  - rewrite list_elem_of_filter. by intros [? _].
  - intros i' l' Hi'.
    assert (Network.neurons net !! i' = Some l') as Hreg'.
    { destruct (decide (i' = i)) as [->|Hne].
      - by rewrite lookup_delete_eq in Hi'.
      - by rewrite lookup_delete_ne in Hi'. }
    destruct (Hreg i' l' Hreg') as (n0 & Hn0 & _).
    destruct (proj2 (Hal2 l')) as [n' Hn']; [by eauto|].
    exists n'. split; [exact Hn'|]. split.
    + rewrite getOutputs_elem. intros Hc.
      assert (Neuron.linked w2 l' l) as Hlk by (by eapply linked_intro).
      apply Hl2 in Hlk as (_ & _ & ?). done.
    + unfold Neuron.getInputs. rewrite list_elem_of_filter. intros [_ Hin].
      assert (Neuron.linked w2 l l') as Hlk.
      { apply (Neuron.wf_mirror w2 Hwf2). by eapply backref_intro. }
      apply Hl2 in Hlk as (_ & ? & _). done.
Qed.

Lemma registry_ok_scenario weight :
  Network.registry_ok Scenario.net (Scenario.connected weight).
Proof.
  destruct scenario_handles as (HA & HB & HgA & HgB).
  destruct scenario_alive as [[nA HnA] [nB HnB]].
  destruct (connectTo_wf Scenario.unconnected Scenario.A Scenario.B weight
              wf_unconnected) as (w' & Hc & _ & _ & Hal);
    [by rewrite HA, HB | by eauto | by eauto |].
  assert (Hw : Scenario.connected weight = w').
  { unfold Scenario.connected, Network.connectNeurons. by rewrite HgA, HgB, Hc. }
  assert (Hids : forall l n n',
            Neuron.heap Scenario.unconnected !! l = Some n ->
            Neuron.heap w' !! l = Some n' -> Neuron.getId n' = Neuron.getId n).
  { intros l n n' Hn Hn'.
    rewrite (connectTo_result _ _ weight _ nA nB) in Hc;
      [| by rewrite HA, HB | done | done].
    injection Hc as <-. simpl in Hn'.
    destruct (decide (l = Scenario.B)) as [->|HlB].
    { rewrite lookup_insert_eq in Hn'. injection Hn' as <-.
      unfold Neuron.getId. simpl. congruence. }
    rewrite lookup_insert_ne in Hn' by done.
    destruct (decide (l = Scenario.A)) as [->|HlA].
    { rewrite lookup_insert_eq in Hn'. injection Hn' as <-.
      unfold Neuron.getId. simpl. congruence. }
    rewrite lookup_insert_ne in Hn' by done. congruence. }
  rewrite Hw. intros i l Hi.
  assert (Hreg0 : forall i l, Network.neurons Scenario.net !! i = Some l ->
            exists n, Neuron.heap Scenario.unconnected !! l = Some n
                      /\ Neuron.getId n = i).
  { clear. intros i l Hi.
    assert (Hall : map_Forall
              (fun i l =>
                 (Neuron.getId <$> Neuron.heap Scenario.unconnected !! l)
                 = Some i)
              (Network.neurons Scenario.net)).
    { apply (bool_decide_unpack _). vm_compute. exact I. }
    specialize (Hall i l Hi). simpl in Hall.
    destruct (Neuron.heap Scenario.unconnected !! l) as [n|]; [|done].
    exists n. split; [done|]. by injection Hall. }
  destruct (Hreg0 i l Hi) as (n & Hn & Hid).
  destruct (proj2 (Hal l)) as [n' Hn']; [by eauto|].
  exists n'. split; [done|]. rewrite <- Hid. by eapply Hids.
Qed.

Lemma removeNeuron_leaves_no_reference_witness :
  Network.neurons Scenario.net !! "B" = Some Scenario.B
  /\ exists net' w',
      Network.removeNeuron "B" Scenario.net (Scenario.connected 0.9)
      = Ret (true, net', w')
      /\ Network.neurons net' !! "B" = None
      /\ (forall i', Network.neurons net' !! i' <> Some Scenario.B)
      /\ (Scenario.B ∉ Network.inputNeurons net')
      /\ (Scenario.B ∉ Network.outputNeurons net')
      /\ (forall i' l',
            Network.neurons net' !! i' = Some l' ->
            exists n',
              Neuron.heap w' !! l' = Some n'
              /\ (Scenario.B ∉ Neuron.getOutputs n')
              /\ (Scenario.B ∉ Neuron.getInputs w' n')).
Proof.
  assert (H : Network.neurons Scenario.net !! "B" = Some Scenario.B)
    by (by vm_compute).
  split; [exact H|].
  exact (proj2 (removeNeuron_leaves_no_reference Scenario.net
                  (Scenario.connected 0.9) "B"
                  (proj1 (wf_connected 0.9)) (registry_ok_scenario 0.9))
               Scenario.B H).
Defined.

(** ** The processing pass of a network *)

Lemma processSignals_in_flight `{Platform} fuel net w :
  Network.processing net = true ->
  Network.processSignals (S fuel) (net, w) = Ret (net, w).
Proof. intros Hp. simpl. by rewrite Hp. Qed.

(** The listener loop of a pass in flight: observers append to the trace,
    re-entrant calls return at once. *)
Lemma callbacks_in_flight `{Platform} fuel cbs net w :
  Network.processing net = true ->
  forM (fun cb '(net, w) =>
          match cb with
          | Network.Observer k =>
              Ret (net, Neuron.emit [Neuron.Processed (Network.id net) k] w)
          | Network.Reenter => Network.processSignals (S fuel) (net, w)
          end) cbs (net, w)
  = Ret (net,
         foldl (fun w cb =>
                  match cb with
                  | Network.Observer k =>
                      Neuron.emit [Neuron.Processed (Network.id net) k] w
                  | Network.Reenter => w
                  end) w cbs).
Proof.
  intros Hp. revert w. induction cbs as [|cb cbs IH]; intros w; [done|].
  cbn [forM foldl]. destruct cb as [k|].
  - cbn. apply IH.
  - rewrite (processSignals_in_flight fuel net w Hp). cbn. apply IH.
Qed.

Lemma foldl_observers (f : Neuron.Store -> nat -> Neuron.Store) cbs w :
  foldl (fun w cb =>
           match cb with
           | Network.Observer k => f w k
           | Network.Reenter => w
           end) w (List.filter Network.is_observer cbs)
  = foldl (fun w cb =>
             match cb with
             | Network.Observer k => f w k
             | Network.Reenter => w
             end) w cbs.
Proof.
  revert w. induction cbs as [|[k|] cbs IH]; intros w; simpl; [done| |];
    apply IH.
Qed.

(** C9. A call of [processSignals] on a network whose pass is in flight
    returns at once: no neuron is processed, no listener runs, network and
    store are as before.  And the pass in flight is not disturbed: a pass
    whose listeners call [processSignals] again ends exactly as the pass
    with only the observing listeners does. *)
Theorem processSignals_reentrant_call_is_noop `{Platform} :
  forall (fuel : nat) (net : Network.t) (w : Neuron.Store),
    (Network.processing net = true ->
     Network.processSignals (S fuel) (net, w) = Ret (net, w))
    /\ (Network.processing net = false ->
        Network.processSignals (S (S fuel)) (net, w)
        = (fun st : Network.t * Neuron.Store =>
             (Network.with_processCallbacks (Network.processCallbacks net) st.1,
              st.2))
          <$> Network.processSignals (S (S fuel))
                (Network.observers_only net, w)).
Proof.
  intros fuel net w. split; [apply processSignals_in_flight|].
  intros Hp.
  change (Network.processSignals (S (S fuel)) (net, w)) with
    (if Network.processing net then Ret (net, w)
     else
       w ← Network.sweep (S fuel) (Network.with_processing true net) w;
       st ← forM (fun cb '(net, w) =>
                    match cb with
                    | Network.Observer k =>
                        Ret (net, Neuron.emit
                                    [Neuron.Processed (Network.id net) k] w)
                    | Network.Reenter =>
                        Network.processSignals (S fuel) (net, w)
                    end)
                 (Network.processCallbacks (Network.with_processing true net))
                 (Network.with_processing true net, w);
       Ret (Network.with_processing false st.1, st.2)).
  change (Network.processSignals (S (S fuel)) (Network.observers_only net, w))
    with
    (if Network.processing (Network.observers_only net)
     then Ret (Network.observers_only net, w)
     else
       w ← Network.sweep (S fuel)
             (Network.with_processing true (Network.observers_only net)) w;
       st ← forM (fun cb '(net, w) =>
                    match cb with
                    | Network.Observer k =>
                        Ret (net, Neuron.emit
                                    [Neuron.Processed (Network.id net) k] w)
                    | Network.Reenter =>
                        Network.processSignals (S fuel) (net, w)
                    end)
                 (Network.processCallbacks
                    (Network.with_processing true (Network.observers_only net)))
                 (Network.with_processing true (Network.observers_only net), w);
       Ret (Network.with_processing false st.1, st.2)).
  change (Network.processing (Network.observers_only net))
    with (Network.processing net).
  rewrite Hp.
  change (Network.sweep (S fuel)
            (Network.with_processing true (Network.observers_only net)) w)
    with (Network.sweep (S fuel) (Network.with_processing true net) w).
  destruct (Network.sweep (S fuel) (Network.with_processing true net) w)
    as [w1| |]; [|done|done].
  cbn [mbind res_bind].
  rewrite !callbacks_in_flight by done.
  cbn [mbind res_bind fmap res_fmap fst snd].
  change (Network.processCallbacks
            (Network.with_processing true (Network.observers_only net)))
    with (List.filter Network.is_observer (Network.processCallbacks net)).
  change (Network.id (Network.with_processing true (Network.observers_only net)))
    with (Network.id (Network.with_processing true net)).
  rewrite (foldl_observers
             (fun w k =>
                Neuron.emit
                  [Neuron.Processed
                     (Network.id (Network.with_processing true net)) k] w)).
  by destruct net.
Qed.

Lemma processSignals_reentrant_call_is_noop_witness :
  Network.processing (Network.with_processing true Scenario.net) = true
  /\ Network.processSignals (H := Decimal.platform) 1
       (Network.with_processing true Scenario.net, Scenario.unconnected)
     = Ret (Network.with_processing true Scenario.net, Scenario.unconnected).
Proof.
  split; [reflexivity|].
  exact (proj1 (processSignals_reentrant_call_is_noop (H := Decimal.platform)
                  0 (Network.with_processing true Scenario.net)
                  Scenario.unconnected) eq_refl).
Defined.

(** A pass over the two-neuron network with an observer, a re-entrant
    listener and a second observer: both observers run once, in order, and
    the network is left idle. *)
Lemma reentrant_listener_example :
  let net :=
    Network.onProcess (Network.Observer 1)
      (Network.onProcess Network.Reenter
         (Network.onProcess (Network.Observer 0) Scenario.net)) in
  Network.processSignals (H := Decimal.platform) 2 (net, Scenario.unconnected)
  = Ret (net,
         Neuron.emit [Neuron.Processed "net" 0; Neuron.Processed "net" 1]
           Scenario.unconnected).
Proof. by vm_compute. Qed.

(** ** Resetting *)

Lemma setState_result l st w n :
  Neuron.heap w !! l = Some n ->
  Neuron.setState l st w
  = Ret (Neuron.emit
           (map (fun cb => Neuron.StateChanged l cb (Neuron.state n) st)
                (Neuron.stateChangeCallbacks n))
           (Neuron.put l (Neuron.with_state st n) w)).
Proof.
  intros Hn. unfold Neuron.setState.
  by rewrite (proj2 (get_Ret l w n) Hn).
Qed.

(** A loop of [setState(RESTING)] over live neurons rewrites the state
    field of the neurons it visits and nothing else in the heap. *)
Lemma reset_loop (ls : list loc) w :
  (forall l, l ∈ ls -> is_Some (Neuron.heap w !! l)) ->
  exists w',
    forM (fun l w => Neuron.setState l Neuron.RESTING w) ls w = Ret w'
    /\ Neuron.minted w' = Neuron.minted w
    /\ forall x,
        Neuron.heap w' !! x
        = (fun n => if decide (x ∈ ls)
                    then Neuron.with_state Neuron.RESTING n else n)
          <$> Neuron.heap w !! x.
Proof.
  revert w. induction ls as [|l ls IH]; intros w Hal.
  - exists w. split; [done|]. split; [done|]. intros x.
    destruct (Neuron.heap w !! x) as [n|]; [|done].
    cbn [fmap option_fmap option_map].
    by destruct (decide (x ∈ [])) as [?%elem_of_nil|].
  - destruct (Hal l) as [n Hn]; [by left|].
    cbn [forM]. rewrite (setState_result l _ w n Hn). cbn [mbind res_bind].
    set (w1 := Neuron.emit _ _).
    assert (Hw1 : forall x,
              Neuron.heap w1 !! x
              = if decide (x = l)
                then Some (Neuron.with_state Neuron.RESTING n)
                else Neuron.heap w !! x).
    { intros x. subst w1. simpl. destruct (decide (x = l)) as [->|Hx].
      - apply lookup_insert_eq.
      - by apply lookup_insert_ne. }
    destruct (IH w1) as (w' & Hf & Hm & Hh).
    { intros x Hx. rewrite Hw1. destruct (decide (x = l)); [by eexists|].
      apply Hal. by right. }
    exists w'. split; [exact Hf|]. split; [by rewrite Hm|].
    intros x. rewrite Hh, Hw1. destruct (decide (x = l)) as [->|Hx].
    + rewrite Hn. simpl. rewrite (decide_True (P := l ∈ l :: ls)) by (by left).
      by destruct (decide (l ∈ ls)).
    + destruct (Neuron.heap w !! x) as [nx|]; simpl; [|done].
      destruct (decide (x ∈ ls)) as [Hin|Hnin].
      * rewrite decide_True; [done|]. by right.
      * rewrite decide_False; [done|].
        intros [?|?]%elem_of_cons; done.
Qed.

(** C10. [Network::reset] returns, and afterwards every neuron of the
    store is the record it was, except that the state of a registered
    neuron is [RESTING]: potential, buffered input signals, stored output
    signals, gates, connections and back-references are as before.  The
    private [Neuron::reset], by contrast, also zeroes the potential and
    empties both signal buffers. *)
Theorem network_reset_only_sets_state :
  forall (net : Network.t) (w : Neuron.Store),
    Network.registry_ok net w ->
    (exists w',
        Network.reset net w = Ret w'
        /\ forall l n,
            Neuron.heap w !! l = Some n ->
            exists n',
              Neuron.heap w' !! l = Some n'
              /\ n' = (if decide (l ∈ Network.getAllNeurons net)
                       then Neuron.with_state Neuron.RESTING n else n)
              /\ (l ∈ Network.getAllNeurons net ->
                  Neuron.getState n' = Neuron.RESTING)
              /\ Neuron.potential n' = Neuron.potential n
              /\ Neuron.inputSignals n' = Neuron.inputSignals n
              /\ Neuron.outputSignals n' = Neuron.outputSignals n
              /\ Neuron.gates n' = Neuron.gates n
              /\ Neuron.connections n' = Neuron.connections n
              /\ Neuron.inputs n' = Neuron.inputs n
              /\ Neuron.threshold n' = Neuron.threshold n)
    /\ (forall l n,
          Neuron.heap w !! l = Some n ->
          exists w' n',
            Neuron.reset l w = Ret w'
            /\ Neuron.heap w' !! l = Some n'
            /\ Neuron.getState n' = Neuron.RESTING
            /\ Neuron.potential n' = 0
            /\ Neuron.inputSignals n' = []
            /\ Neuron.outputSignals n' = []).
Proof.
  intros net w Hreg. split.
  - destruct (reset_loop (Network.getAllNeurons net) w) as (w' & Hr & _ & Hh).
    { intros l Hl. unfold Network.getAllNeurons in Hl.
      apply list_elem_of_fmap in Hl as ([i l'] & -> & Hin).
      apply elem_of_map_to_list in Hin.
      destruct (Hreg i l' Hin) as (n & Hn & _). by eexists. }
    exists w'. split; [exact Hr|]. intros l n Hn.
    eexists. split; [rewrite Hh, Hn; reflexivity|].
    split; [reflexivity|].
    destruct (decide (l ∈ Network.getAllNeurons net)); by repeat split.
  - intros l n Hn. unfold Neuron.reset.
    rewrite (proj2 (get_Ret l w n) Hn). cbn [mbind res_bind].
    erewrite setState_result by apply lookup_insert_eq.
    cbn [mbind res_bind]. rewrite get_emit, get_put_eq.
    cbn [mbind res_bind]. rewrite get_put_eq. cbn [mbind res_bind].
    eexists _, _. split; [reflexivity|].
    split; [apply lookup_insert_eq|]. by repeat split.
Qed.

Lemma network_reset_only_sets_state_witness :
  Network.registry_ok Scenario.net (Scenario.connected 0.9)
  /\ exists w', Network.reset Scenario.net (Scenario.connected 0.9) = Ret w'.
Proof.
  split; [exact (registry_ok_scenario 0.9)|].
  destruct (proj1 (network_reset_only_sets_state Scenario.net
                     (Scenario.connected 0.9) (registry_ok_scenario 0.9)))
    as (w' & Hr & _).
  by exists w'.
Defined.

(** ** A neuron without outgoing edges *)

Section Isolated.
Context `{Platform}.
Variable recv : loc -> option Synapse.t -> Neuron.Store -> res Neuron.Store.

Lemma fire_isolated l w n :
  Neuron.heap w !! l = Some n ->
  Neuron.connections n = ∅ ->
  Neuron.fire_with recv l w
  = Ret (Neuron.emit (map (Neuron.Fired l) (Neuron.fireCallbacks n))
           match Neuron.outputSignals n with
           | [] => Neuron.put l (Neuron.with_outputSignals
                                   [Neuron.defaultOutput n] n) w
           | _ => w
           end).
Proof.
  intros Hn Hc. unfold Neuron.fire_with.
  rewrite (proj2 (get_Ret l w n) Hn). cbn [mbind res_bind].
  rewrite Hc, map_to_list_empty. cbn [forM mbind res_bind].
  destruct (Neuron.outputSignals n).
  - by rewrite get_put_eq.
  - by rewrite (proj2 (get_Ret l w n) Hn).
Qed.

(** The pass of [processSignals] over a non-empty buffer, below the
    threshold: the potential is stored, the processed signals are kept,
    no listener runs. *)
Lemma processSignals_below l w n :
  Neuron.heap w !! l = Some n ->
  Neuron.blocked (Neuron.state n) = false ->
  Neuron.inputSignals n <> [] ->
  let processed := (Neuron.runPipeline (Neuron.gates n)
                      (Neuron.inputSignals n) (Neuron.minted w)).1 in
  let p := Neuron.updatedPotential (Neuron.potential n) processed in
  Qltb p (Neuron.threshold n) = true ->
  exists w',
    Neuron.processSignals_with recv l w = Ret w'
    /\ Neuron.trace w' = Neuron.trace w
    /\ Neuron.heap w' !! l
       = Some (Neuron.with_outputSignals
                 (Neuron.outputSignals n ++ processed)
                 (Neuron.with_potential p (Neuron.with_inputSignals [] n))).
Proof.
  intros Hn Hb Hne processed p Hlt. unfold Neuron.processSignals_with.
  rewrite (proj2 (get_Ret l w n) Hn). cbn [mbind res_bind]. rewrite Hb.
  destruct (Neuron.inputSignals n) as [|s0 buf] eqn:Ebuf; [done|].
  subst processed p.
  destruct (Neuron.runPipeline (Neuron.gates n) (s0 :: buf) (Neuron.minted w))
    as [processed k] eqn:Epipe.
  cbn [fst] in Hlt. rewrite Hlt. cbn [negb mbind res_bind].
  rewrite get_put_eq. cbn [mbind res_bind].
  eexists. split; [reflexivity|]. split; [done|].
  cbn. by rewrite lookup_insert_eq.
Qed.

(** The same pass at or above the threshold, for a neuron without outgoing
    edges: every fire listener runs once, the state goes to [REFRACTORY]
    and back to [RESTING], the potential is reset. *)
Lemma processSignals_fires l w n :
  Neuron.heap w !! l = Some n ->
  Neuron.connections n = ∅ ->
  Neuron.blocked (Neuron.state n) = false ->
  Neuron.inputSignals n <> [] ->
  let processed := (Neuron.runPipeline (Neuron.gates n)
                      (Neuron.inputSignals n) (Neuron.minted w)).1 in
  let p := Neuron.updatedPotential (Neuron.potential n) processed in
  Qltb p (Neuron.threshold n) = false ->
  exists w' n',
    Neuron.processSignals_with recv l w = Ret w'
    /\ Neuron.trace w'
       = Neuron.trace w
         ++ map (Neuron.Fired l) (Neuron.fireCallbacks n)
         ++ map (fun cb => Neuron.StateChanged l cb (Neuron.state n)
                             Neuron.REFRACTORY)
                (Neuron.stateChangeCallbacks n)
         ++ map (fun cb => Neuron.StateChanged l cb Neuron.REFRACTORY
                             Neuron.RESTING)
                (Neuron.stateChangeCallbacks n)
    /\ Neuron.heap w' !! l = Some n'
    /\ Neuron.state n' = Neuron.RESTING
    /\ Neuron.potential n' = 0
    /\ Neuron.inputSignals n' = [].
Proof.
  intros Hn Hc Hb Hne processed p Hge. unfold Neuron.processSignals_with.
  rewrite (proj2 (get_Ret l w n) Hn). cbn [mbind res_bind]. rewrite Hb.
  destruct (Neuron.inputSignals n) as [|s0 buf] eqn:Ebuf; [done|].
  subst processed p.
  destruct (Neuron.runPipeline (Neuron.gates n) (s0 :: buf) (Neuron.minted w))
    as [processed k] eqn:Epipe.
  cbn [fst] in Hge. rewrite Hge. cbn [negb].
  erewrite fire_isolated; [|apply lookup_insert_eq | exact Hc].
  cbn [mbind res_bind].
  set (n1 := Neuron.with_potential _ (Neuron.with_inputSignals [] n)).
  set (w1 := Neuron.put l n1 (Neuron.with_minted k w)).
  set (w2 := match Neuron.outputSignals n1 with
             | [] => Neuron.put l _ w1
             | _ => w1
             end).
  assert (exists n2, Neuron.heap w2 !! l = Some n2
                     /\ Neuron.state n2 = Neuron.state n
                     /\ Neuron.stateChangeCallbacks n2
                        = Neuron.stateChangeCallbacks n
                     /\ Neuron.inputSignals n2 = []
                     /\ Neuron.trace w2 = Neuron.trace w)
    as (n2 & Hn2 & Hst2 & Hcb2 & Hin2 & Htr2).
  { subst w2. destruct (Neuron.outputSignals n1).
    - eexists. split; [apply lookup_insert_eq|]. done.
    - eexists. split; [apply lookup_insert_eq|]. done. }
  erewrite setState_result by exact Hn2.
  cbn [mbind res_bind]. rewrite get_emit, get_put_eq. cbn [mbind res_bind].
  erewrite setState_result by apply lookup_insert_eq.
  cbn [mbind res_bind]. rewrite get_emit, get_put_eq. cbn [mbind res_bind].
  eexists _, _. split; [reflexivity|].
  split.
  { cbn. rewrite Htr2, Hst2, Hcb2. by rewrite <- !app_assoc. }
  split; [cbn; apply lookup_insert_eq|]. cbn. by rewrite Hin2.
Qed.

End Isolated.

Lemma filter_fired_own l cbs :
  List.filter (Neuron.is_fired l) (map (Neuron.Fired l) cbs)
  = map (Neuron.Fired l) cbs.
Proof.
  induction cbs as [|cb cbs IH]; [done|]. simpl.
  rewrite bool_decide_eq_true_2 by done. by rewrite IH.
Qed.

Lemma filter_fired_stateChanged l l' old new cbs :
  List.filter (Neuron.is_fired l)
    (map (fun cb => Neuron.StateChanged l' cb old new) cbs) = [].
Proof. by induction cbs. Qed.

Lemma updatedPotential_single `{Platform} (p0 : Q) (s : Synapse.t) :
  0 <= p0 + Synapse.payloadStrength s ->
  p0 + Synapse.payloadStrength s <= 1 ->
  Neuron.updatedPotential p0 [s] == p0 + Synapse.payloadStrength s.
Proof.
  intros H0 H1. unfold Neuron.updatedPotential, Neuron.potentialDelta.
  cbn [length foldl]. rewrite bool_decide_eq_true_2 by lia.
  assert (E : p0 + (0 + Synapse.payloadStrength s) / inject_Z (Z.of_nat 1)
              == p0 + Synapse.payloadStrength s).
  { change (inject_Z (Z.of_nat 1)) with 1. field. }
  assert (Qltb (p0 + (0 + Synapse.payloadStrength s) / inject_Z (Z.of_nat 1)) 0
          = false) as ->.
  { rewrite E. by apply Qltb_ge. }
  assert (Qltb 1 (p0 + (0 + Synapse.payloadStrength s) / inject_Z (Z.of_nat 1))
          = false) as ->.
  { rewrite E. by apply Qltb_ge. }
  exact E.
Qed.


(** ** Cascades stay within reach *)

Lemma bind_Ret_inv {A B} (m : res A) (k : A -> res B) b :
  (m ≫= k) = Ret b -> exists a, m = Ret a /\ k a = Ret b.
Proof. destruct m as [a| |]; simpl; [by eauto | done | done]. Qed.

Lemma forM_invariant {A S} (I : S -> Prop) (f : A -> S -> res S) xs :
  (forall x s s', x ∈ xs -> I s -> f x s = Ret s' -> I s') ->
  forall s s', I s -> forM f xs s = Ret s' -> I s'.
Proof.
  induction xs as [|x xs IH]; intros Hstep s s' Hs Hrun.
  - injection Hrun as <-. exact Hs.
  - cbn [forM] in Hrun. apply bind_Ret_inv in Hrun as (s1 & H1 & Hrun).
    apply (IH (fun y t t' Hy => Hstep y t t' (list_elem_of_further _ _ _ Hy))
              s1 s'); [|exact Hrun].
    apply (Hstep x s s1); [by left | exact Hs | exact H1].
Qed.

Lemma reach_links w w' a b :
  (forall m, Neuron.links_of w' m = Neuron.links_of w m) ->
  Neuron.reach w a b -> Neuron.reach w' a b.
Proof.
  intros Hl. induction 1 as [a|a b c Hab _ IH]; [constructor|].
  apply Neuron.reach_step with b; [|exact IH].
  unfold Neuron.linked. by rewrite Hl.
Qed.

Lemma frame_refl t w : Neuron.frame_ok t w w.
Proof. by repeat split. Qed.

Lemma frame_trans t w w1 w2 :
  Neuron.frame_ok t w w1 -> Neuron.frame_ok t w1 w2 -> Neuron.frame_ok t w w2.
Proof.
  intros (Hh1 & Hl1 & Hi1 & Hd1) (Hh2 & Hl2 & Hi2 & Hd2).
  split; [|split; [|split]].
  - intros m Hm. rewrite Hh2, Hh1; [done | done |].
    intros Hr. apply Hm. by apply (reach_links w1 w).
  - intros m. by rewrite Hl2, Hl1.
  - intros m. by rewrite Hi2, Hi1.
  - intros m. by rewrite Hd2, Hd1.
Qed.

Lemma frame_weaken t u w w' :
  Neuron.linked w t u -> Neuron.frame_ok u w w' -> Neuron.frame_ok t w w'.
Proof.
  intros Htu (Hh & Hl & Hi & Hd). split; [|by repeat split].
  intros m Hm. apply Hh. intros Hr. apply Hm.
  by apply Neuron.reach_step with u.
Qed.

Lemma frame_put t w n n' :
  Neuron.heap w !! t = Some n ->
  Neuron.connections n' = Neuron.connections n ->
  Neuron.inputs n' = Neuron.inputs n ->
  Neuron.id n' = Neuron.id n ->
  Neuron.frame_ok t w (Neuron.put t n' w).
Proof.
  intros Hn Hc Hi Hd. split; [|split; [|split]].
  - intros m Hm. simpl. apply lookup_insert_ne. intros ->.
    apply Hm. constructor.
  - intros m. unfold Neuron.links_of. simpl.
    destruct (decide (m = t)) as [->|Hne].
    + by rewrite lookup_insert_eq, Hn.
    + by rewrite lookup_insert_ne.
  - intros m. unfold Neuron.inputs_of. simpl.
    destruct (decide (m = t)) as [->|Hne].
    + by rewrite lookup_insert_eq, Hn.
    + by rewrite lookup_insert_ne.
  - intros m. simpl. destruct (decide (m = t)) as [->|Hne].
    + rewrite lookup_insert_eq, Hn. simpl. by rewrite Hd.
    + by rewrite lookup_insert_ne.
Qed.

Lemma frame_emit t evs w : Neuron.frame_ok t w (Neuron.emit evs w).
Proof. by repeat split. Qed.

Lemma frame_minted t k w : Neuron.frame_ok t w (Neuron.with_minted k w).
Proof. by repeat split. Qed.

Lemma frame_setState t st w w' :
  Neuron.setState t st w = Ret w' -> Neuron.frame_ok t w w'.
Proof.
  unfold Neuron.setState. intros (n & Hn & Hr)%bind_Ret_inv.
  injection Hr as <-. apply get_Ret in Hn.
  apply frame_trans with (Neuron.put t (Neuron.with_state st n) w);
    [by apply (frame_put t w n) | apply frame_emit].
Qed.

Section Frame.
Context `{Platform}.
Variable recv : loc -> option Synapse.t -> Neuron.Store -> res Neuron.Store.
Hypothesis recv_frame :
  forall t s w w', recv t s w = Ret w' -> Neuron.frame_ok t w w'.

Lemma deliver_frame from t weight signal w w' :
  Neuron.deliver recv from t weight signal w = Ret w' ->
  Neuron.frame_ok t w w'.
Proof using recv_frame.
  unfold Neuron.deliver. intros (tn & _ & Hr)%bind_Ret_inv.
  apply recv_frame in Hr.
  eapply frame_trans; [apply frame_minted | exact Hr].
Qed.

(** All deliveries along one edge from [t]. *)
Lemma edge_frame from t u weight outs w0 w w' :
  Neuron.frame_ok t w0 w -> Neuron.linked w0 t u ->
  forM (Neuron.deliver recv from u weight) outs w = Ret w' ->
  Neuron.frame_ok t w0 w'.
Proof using recv_frame.
  intros Hw Htu.
  apply (forM_invariant (fun w => Neuron.frame_ok t w0 w)); [|exact Hw].
  intros sig s s' _ Hs Hd. apply deliver_frame in Hd.
  eapply frame_trans; [exact Hs|].
  apply frame_weaken with u; [|exact Hd].
  unfold Neuron.linked. destruct Hs as (_ & Hl & _ & _). by rewrite Hl.
Qed.

Lemma fire_frame t w w' :
  Neuron.fire_with recv t w = Ret w' -> Neuron.frame_ok t w w'.
Proof using recv_frame.
  unfold Neuron.fire_with. intros (n & Hn & Hr)%bind_Ret_inv.
  apply get_Ret in Hn.
  apply bind_Ret_inv in Hr as (w2 & Hloop & Hr).
  apply bind_Ret_inv in Hr as (n2 & _ & Hr). injection Hr as <-.
  eapply frame_trans; [|apply frame_emit].
  revert Hloop.
  apply (forM_invariant (fun s => Neuron.frame_ok t w s)).
  - intros [u weight] s s' Hin Hs (n' & _ & Hedge)%bind_Ret_inv.
    eapply (edge_frame _ t u); [exact Hs | | exact Hedge].
    unfold Neuron.linked, Neuron.links_of. rewrite Hn.
    apply elem_of_map_to_list in Hin. by eauto.
  - destruct (Neuron.outputSignals n); [|apply frame_refl].
    by apply (frame_put t w n).
Qed.

Lemma processSignals_frame t w w' :
  Neuron.processSignals_with recv t w = Ret w' -> Neuron.frame_ok t w w'.
Proof using recv_frame.
  unfold Neuron.processSignals_with. intros (n & Hn & Hr)%bind_Ret_inv.
  apply get_Ret in Hn.
  destruct (Neuron.blocked (Neuron.state n)).
  { injection Hr as <-. apply frame_refl. }
  destruct (Neuron.inputSignals n) as [|s0 buf].
  { injection Hr as <-. apply frame_refl. }
  destruct (Neuron.runPipeline (Neuron.gates n) (s0 :: buf) (Neuron.minted w))
    as [processed k].
  apply bind_Ret_inv in Hr as (w3 & Hmid & Hr).
  apply bind_Ret_inv in Hr as (n3 & Hn3 & Hr). injection Hr as <-.
  apply get_Ret in Hn3.
  set (n1 := Neuron.with_potential _ (Neuron.with_inputSignals [] n)) in *.
  assert (Hw1 : Neuron.frame_ok t w
                  (Neuron.put t n1 (Neuron.with_minted k w))).
  { eapply frame_trans; [apply frame_minted|]. by apply (frame_put t _ n). }
  assert (Hw3 : Neuron.frame_ok t w w3).
  { destruct (negb (Qltb _ (Neuron.threshold n))).
    - apply bind_Ret_inv in Hmid as (wa & Ha & Hmid).
      apply bind_Ret_inv in Hmid as (wb & Hb & Hmid).
      apply bind_Ret_inv in Hmid as (nb & Hnb & Hmid).
      apply get_Ret in Hnb.
      apply fire_frame in Ha. apply frame_setState in Hb.
      apply frame_setState in Hmid.
      eapply frame_trans; [exact Hw1|].
      eapply frame_trans; [exact Ha|].
      eapply frame_trans; [exact Hb|].
      eapply frame_trans; [|exact Hmid].
      by apply (frame_put t wb nb).
    - by injection Hmid as <-. }
  eapply frame_trans; [exact Hw3|]. by apply (frame_put t w3 n3).
Qed.

End Frame.

(** A cascade started by [receiveSignal] at [t] changes only neurons
    reachable from [t], and no edge. *)
Lemma receiveSignal_frame `{Platform} fuel :
  forall t s w w',
    Neuron.receiveSignal fuel t s w = Ret w' -> Neuron.frame_ok t w w'.
Proof.
  induction fuel as [|fuel IH]; intros t s w w' Hr; [done|].
  cbn [Neuron.receiveSignal] in Hr. destruct s as [s|].
  - apply bind_Ret_inv in Hr as (n & Hn & Hr). apply get_Ret in Hn.
    apply (processSignals_frame _ IH) in Hr.
    eapply frame_trans; [|exact Hr]. by apply (frame_put t w n).
  - injection Hr as <-. apply frame_refl.
Qed.

(** ** What a call to [fire] delivers *)

Lemma forM_app {A S} (f : A -> S -> res S) xs ys s :
  forM f (xs ++ ys) s = (forM f xs s ≫= forM f ys).
Proof.
  revert s. induction xs as [|x xs IH]; intros s; [done|].
  cbn [app forM]. destruct (f x s) as [s1| |]; [|done|done].
  cbn [mbind res_bind]. apply IH.
Qed.

Lemma effectiveOutputs_put `{Platform} l n w :
  Neuron.heap w !! l = Some n ->
  match Neuron.outputSignals n with
  | [] => Neuron.put l (Neuron.with_outputSignals [Neuron.defaultOutput n] n) w
  | _ => w
  end
  = Neuron.put l (Neuron.with_outputSignals (Neuron.effectiveOutputs n) n) w.
Proof.
  intros Hn. unfold Neuron.effectiveOutputs.
  destruct (Neuron.outputSignals n) as [|s outs] eqn:E; [done|].
  assert (Neuron.with_outputSignals (s :: outs) n = n) as ->.
  { destruct n. simpl in E. by rewrite E. }
  unfold Neuron.put. rewrite insert_id by done. by destruct w.
Qed.

Lemma weightedCopy_payload `{Platform} uuid from to weight signal :
  let c := Neuron.weightedCopy uuid from to weight signal in
  Synapse.getStrength c = clamp01 (Synapse.getStrength signal)
  /\ Synapse.stringPayload c !! "strength"
     = Some (to_string (Synapse.payloadStrength signal * weight))
  /\ Synapse.stringPayload c !! "from" = Some from
  /\ Synapse.stringPayload c !! "to" = Some to
  /\ Synapse.stringPayload c !! "derived_from" = Some (Synapse.getId signal).
Proof.
  unfold Neuron.weightedCopy, Synapse.derive, Synapse.getStrength.
  cbn [Synapse.setData Synapse.strength Synapse.stringPayload].
  split; [by rewrite strength_derive_with|].
  unfold Synapse.derive_with.
  cbn [Synapse.setData Synapse.strength Synapse.stringPayload].
  repeat split.
  - rewrite lookup_insert_ne by done. rewrite lookup_insert_ne by done.
    apply lookup_insert_eq.
  - rewrite lookup_insert_ne by done. apply lookup_insert_eq.
  - apply lookup_insert_eq.
  - rewrite lookup_insert_ne by done. rewrite lookup_insert_ne by done.
    rewrite lookup_insert_ne by done. apply lookup_insert_eq.
Qed.

Section FireSpec.
Context `{Platform}.
Variable recv : loc -> option Synapse.t -> Neuron.Store -> res Neuron.Store.
Hypothesis recv_frame :
  forall t s w w', recv t s w = Ret w' -> Neuron.frame_ok t w w'.

Lemma edge_frame_target from u weight outs w w' :
  forM (Neuron.deliver recv from u weight) outs w = Ret w' ->
  Neuron.frame_ok u w w'.
Proof using recv_frame.
  apply (forM_invariant (fun s => Neuron.frame_ok u w s));
    [|apply frame_refl].
  intros sig s s' _ Hs Hd. apply (deliver_frame recv recv_frame) in Hd.
  eapply frame_trans; [exact Hs | exact Hd].
Qed.

(** The loops of [fire] against the flat list of deliveries, as long as the
    record of the firing neuron stays what it was. *)
Lemma fire_loops_agree l w n1 (conns : list (loc * Q)) :
  (forall u weight, (u, weight) ∈ conns -> ~ Neuron.reach w u l) ->
  forall s,
    Neuron.heap s !! l = Some n1 ->
    (forall m, Neuron.links_of s m = Neuron.links_of w m) ->
    forM (fun '(target, weight) s =>
            n ← Neuron.get l s;
            forM (Neuron.deliver recv (Neuron.id n) target weight)
                 (Neuron.outputSignals n) s) conns s
    = forM (fun '(target, weight, signal) s =>
              Neuron.deliver recv (Neuron.id n1) target weight signal s)
           ('(target, weight) ← conns;
            signal ← Neuron.outputSignals n1;
            [(target, weight, signal)]) s.
Proof using recv_frame.
  induction conns as [|[u weight] conns IH]; intros Hacyc s Hs Hl; [done|].
  cbn [forM mbind list_bind]. rewrite forM_app.
  rewrite (proj2 (get_Ret l s n1) Hs). cbn [mbind res_bind].
  assert (Hflat :
    forM (fun '(target, weight, signal) s =>
            Neuron.deliver recv (Neuron.id n1) target weight signal s)
         (Neuron.outputSignals n1 ≫= fun signal => [(u, weight, signal)]) s
    = forM (Neuron.deliver recv (Neuron.id n1) u weight)
           (Neuron.outputSignals n1) s).
  { generalize (Neuron.outputSignals n1). clear. intros outs. revert s.
    induction outs as [|sig outs IH]; intros s; [done|].
    cbn [forM mbind list_bind app].
    destruct (Neuron.deliver recv (Neuron.id n1) u weight sig s)
      as [s1| |]; [|done|done].
    cbn [mbind res_bind]. apply IH. }
  rewrite Hflat.
  destruct (forM (Neuron.deliver recv (Neuron.id n1) u weight)
              (Neuron.outputSignals n1) s) as [s1| |] eqn:E; [|done|done].
  cbn [mbind res_bind].
  pose proof (edge_frame_target _ _ _ _ _ _ E) as (Hh1 & Hl1 & _ & _).
  apply IH.
  - intros u' weight' Hin. apply (Hacyc u' weight'). by right.
  - rewrite Hh1; [exact Hs|].
    intros Hr. apply (Hacyc u weight); [by left|].
    by apply (reach_links s w).
  - intros m. by rewrite Hl1, Hl.
Qed.

Lemma fire_refines_spec l w n :
  Neuron.heap w !! l = Some n ->
  (forall u, u ∈ Neuron.getOutputs n -> ~ Neuron.reach w u l) ->
  Neuron.fire_with recv l w = Neuron.fire_spec recv l w.
Proof using recv_frame.
  intros Hn Hacyc. unfold Neuron.fire_with, Neuron.fire_spec.
  rewrite (proj2 (get_Ret l w n) Hn). cbn [mbind res_bind].
  rewrite (effectiveOutputs_put l n w Hn).
  set (n1 := Neuron.with_outputSignals (Neuron.effectiveOutputs n) n).
  rewrite (fire_loops_agree l w n1).
  - done.
  - intros u weight Hin. apply Hacyc.
    apply getOutputs_elem. apply elem_of_map_to_list in Hin. by eauto.
  - apply lookup_insert_eq.
  - intros m. by apply (frame_put l w n).
Qed.

End FireSpec.

Lemma length_bind_const {A B} (f : A -> list B) (k : nat) (xs : list A) :
  (forall x, length (f x) = k) -> length (xs ≫= f) = (length xs * k)%nat.
Proof.
  intros Hf. induction xs as [|x xs IH]; [done|].
  cbn [mbind list_bind length Nat.mul]. rewrite length_app, Hf.
  f_equal. exact IH.
Qed.

Lemma deliveries_length `{Platform} n :
  length (Neuron.deliveries n)
  = (size (Neuron.connections n) * length (Neuron.effectiveOutputs n))%nat.
Proof.
  unfold Neuron.deliveries. rewrite <- length_map_to_list.
  apply length_bind_const. intros [u weight].
  rewrite (length_bind_const _ 1%nat); [lia | done].
Qed.

Lemma deliveries_elem `{Platform} n u weight signal :
  (u, weight, signal) ∈ Neuron.deliveries n
  <-> Neuron.connections n !! u = Some weight
      /\ signal ∈ Neuron.effectiveOutputs n.
Proof.
  unfold Neuron.deliveries. rewrite list_elem_of_bind. split.
  - intros ([u' weight'] & Hin & Hconn).
    apply list_elem_of_bind in Hin as (s & Hin & Hs).
    apply list_elem_of_singleton in Hin. injection Hin as -> -> ->.
    split; [by apply elem_of_map_to_list | done].
  - intros [Hc Hs]. exists (u, weight). split.
    + apply list_elem_of_bind. exists signal. split; [|done].
      by apply list_elem_of_singleton.
    + by apply elem_of_map_to_list.
Qed.

(** C2, as stated, fails.  On an edge of weight 2, [fire] delivers for the
    output signal of strength 0.4 that states 0.9 under ["strength"] a copy
    whose strength is still 0.4 and whose ["strength"] entry reads 1.8:
    neither is the clamped product of a strength of the signal and the
    weight. *)
Lemma fire_copy_is_not_the_clamped_product :
  (Scenario.last_stored Scenario.B <$> Scenario.refire)
  = Ret (Some (Neuron.weightedCopy (H := Decimal.platform)
                 (Decimal.generateUUID 2) "A" "B" 2 Scenario.loud))
  /\ Synapse.getStrength
       (Neuron.weightedCopy (H := Decimal.platform)
          (Decimal.generateUUID 2) "A" "B" 2 Scenario.loud) == 0.4
  /\ Synapse.payloadStrength (H := Decimal.platform)
       (Neuron.weightedCopy (H := Decimal.platform)
          (Decimal.generateUUID 2) "A" "B" 2 Scenario.loud) == 1.8
  /\ Synapse.getStrength Scenario.loud == 0.4
  /\ Synapse.payloadStrength (H := Decimal.platform) Scenario.loud == 0.9
  /\ ~ (0.4 == clamp (0.4 * 2) 0 1)
  /\ ~ (0.4 == clamp (0.9 * 2) 0 1)
  /\ ~ (1.8 == clamp (0.4 * 2) 0 1)
  /\ ~ (1.8 == clamp (0.9 * 2) 0 1).
Proof.
  split; [by vm_compute|].
  repeat split; try (by vm_compute); intros Heq; vm_compute in Heq;
    discriminate.
Qed.

(** With a signal of strength 0.9 that states no ["strength"] entry, [A]
    fires at potential 0.5, [B] receives 0.45 and does not fire. *)
Lemma end_to_end_without_payload_entry :
  (Scenario.stored Scenario.A <$> Scenario.end_to_end_no_payload)
  = Ret [(1, Some "0.500000", None, None); (0.9, None, None, None)]
  /\ (Scenario.stored Scenario.B <$> Scenario.end_to_end_no_payload)
     = Ret [(1, Some "0.450000", Some "A", Some "B")]
  /\ (Neuron.trace <$> Scenario.end_to_end_no_payload)
     = Ret [Neuron.Fired Scenario.A 0].
Proof. by vm_compute. Qed.

(** C2, amended.  A call to [fire] on a neuron that cannot be reached from
    its own targets hands exactly one weighted copy per outgoing edge and
    output signal to the target's [receiveSignal], then runs the fire
    listeners.  The copy keeps the strength of the signal; its ["strength"]
    entry is the text of the signal's ["strength"] entry (0.5 when absent or
    unreadable) times the weight, not clamped; its ["from"] and ["to"]
    entries name the two neurons.  With an edge from [A] to [B] of weight
    0.9 and thresholds 0.5, [A] receiving a signal that states 0.9 fires at
    potential 0.9 and delivers a copy reading 0.81 to [B], which fires
    exactly once. *)
Theorem fire_delivers_weighted_copies `{Platform} :
  forall (fuel : nat) (w : Neuron.Store) (l : loc) (n : Neuron.t),
    Neuron.heap w !! l = Some n ->
    (forall u, u ∈ Neuron.getOutputs n -> ~ Neuron.reach w u l) ->
    Neuron.fire fuel l w = Neuron.fire_spec (Neuron.receiveSignal fuel) l w
    /\ length (Neuron.deliveries n)
       = (size (Neuron.connections n)
          * length (Neuron.effectiveOutputs n))%nat
    /\ (forall u weight signal,
          (u, weight, signal) ∈ Neuron.deliveries n
          <-> Neuron.connections n !! u = Some weight
              /\ signal ∈ Neuron.effectiveOutputs n)
    /\ (forall uuid to weight signal,
          let c := Neuron.weightedCopy uuid (Neuron.id n) to weight signal in
          Synapse.getStrength c = clamp01 (Synapse.getStrength signal)
          /\ Synapse.stringPayload c !! "strength"
             = Some (to_string (Synapse.payloadStrength signal * weight))
          /\ Synapse.stringPayload c !! "from" = Some (Neuron.id n)
          /\ Synapse.stringPayload c !! "to" = Some to
          /\ Synapse.stringPayload c !! "derived_from"
             = Some (Synapse.getId signal))
    /\ (Scenario.stored Scenario.A <$> Scenario.end_to_end)
       = Ret [(1, Some "0.900000", None, None); (0.9, Some "0.9", None, None)]
    /\ (Scenario.stored Scenario.B <$> Scenario.end_to_end)
       = Ret [(1, Some "0.810000", None, None);
              (1, Some "0.810000", Some "A", Some "B")]
    /\ (Neuron.firings Scenario.A <$> Scenario.end_to_end)
       = Ret [Neuron.Fired Scenario.A 0]
    /\ (Neuron.firings Scenario.B <$> Scenario.end_to_end)
       = Ret [Neuron.Fired Scenario.B 0].
Proof.
  intros fuel w l n Hn Hacyc.
  split; [|split; [|split; [|split]]].
  - apply (fire_refines_spec _ (receiveSignal_frame fuel) l w n Hn Hacyc).
  - apply deliveries_length.
  - apply deliveries_elem.
  - intros uuid to weight signal. apply weightedCopy_payload.
  - by vm_compute.
Qed.

(** ** The scenarios, run *)

Lemma connected_links weight x y :
  Neuron.linked (Scenario.connected weight) x y
  <-> x = Scenario.A /\ y = Scenario.B.
Proof.
  destruct scenario_handles as (HA & HB & HgA & HgB).
  destruct scenario_alive as [HaA HaB].
  assert (Hne : Scenario.A <> Scenario.B) by (by rewrite HA, HB).
  destruct (connectTo_wf Scenario.unconnected Scenario.A Scenario.B weight
              wf_unconnected Hne HaA HaB) as (w' & Hc & _ & Hl & _).
  assert (Hw : Scenario.connected weight = w').
  { unfold Scenario.connected, Network.connectNeurons. by rewrite HgA, HgB, Hc. }
  rewrite Hw, Hl. split; [|by right]. intros [Hu|?]; [|done].
  exfalso. apply linked_inv in Hu as (n & Hn & [q Hq]).
  assert (Hall : map_Forall
                   (fun (_ : loc) n =>
                      Neuron.connections n = ∅ /\ Neuron.inputs n = [])
                   (Neuron.heap Scenario.unconnected)).
  { apply (bool_decide_unpack _). vm_compute. exact I. }
  destruct (Hall x n Hn) as [Hc0 _]. rewrite Hc0 in Hq. done.
Qed.

Lemma connected_acyclic weight u :
  Neuron.linked (Scenario.connected weight) Scenario.A u ->
  ~ Neuron.reach (Scenario.connected weight) u Scenario.A.
Proof.
  destruct scenario_handles as (HA & HB & _).
  intros [_ ->]%connected_links Hr.
  assert (Hinv : Scenario.B = Scenario.A
                 \/ exists b, Neuron.linked (Scenario.connected weight)
                                Scenario.B b).
  { destruct Hr as [a|a b c Hab _]; [by left | right; by exists b]. }
  destruct Hinv as [Heq|[b Hab]].
  - rewrite HA, HB in Heq. discriminate.
  - apply connected_links in Hab as [Hab _].
    rewrite HA, HB in Hab. discriminate.
Qed.


(** The strength of a signal is not what a neuron reads: a signal of
    strength 0.2 without a ["strength"] entry counts as 0.5 and makes a
    neuron of threshold 0.5 fire; the same signal stating 0.2 does not; and
    two signals stating 0.2 and 0.3 make it fire exactly once. *)
Lemma strength_is_read_from_the_payload :
  (Neuron.firings Scenario.A
     <$> Neuron.receiveSignal (H := Decimal.platform) 1 Scenario.A
           (Some (Scenario.stimulus 0.2)) Scenario.unconnected)
  = Ret [Neuron.Fired Scenario.A 0]
  /\ (Neuron.firings Scenario.A
        <$> Neuron.receiveSignal (H := Decimal.platform) 1 Scenario.A
              (Some (Scenario.stimulus_with_payload 0.2 "0.2"))
              Scenario.unconnected)
     = Ret []
  /\ (Neuron.firings Scenario.A
        <$> (w ← Neuron.receiveSignal (H := Decimal.platform) 1 Scenario.A
                   (Some (Scenario.stimulus_with_payload 0.2 "0.2"))
                   Scenario.unconnected;
             Neuron.receiveSignal (H := Decimal.platform) 1 Scenario.A
               (Some (Scenario.stimulus_with_payload 0.3 "0.3")) w))
     = Ret [Neuron.Fired Scenario.A 0].
Proof. by vm_compute. Qed.

Lemma fire_delivers_weighted_copies_witness :
  exists n,
    Neuron.heap (Scenario.connected 0.9) !! Scenario.A = Some n
    /\ (forall u, u ∈ Neuron.getOutputs n ->
                  ~ Neuron.reach (Scenario.connected 0.9) u Scenario.A)
    /\ Neuron.fire (H := Decimal.platform) 1 Scenario.A (Scenario.connected 0.9)
       = Neuron.fire_spec (H := Decimal.platform)
           (Neuron.receiveSignal (H := Decimal.platform) 1)
           Scenario.A (Scenario.connected 0.9).
Proof.
  destruct (linked_inv _ _ _ (proj2 (wf_connected 0.9))) as (n & Hn & _).
  assert (Hacyc : forall u, u ∈ Neuron.getOutputs n ->
            ~ Neuron.reach (Scenario.connected 0.9) u Scenario.A).
  { intros u Hu. apply connected_acyclic.
    eapply linked_intro; [exact Hn|]. by apply getOutputs_elem. }
  exists n. split; [exact Hn|]. split; [exact Hacyc|].
  exact (proj1 (fire_delivers_weighted_copies (H := Decimal.platform) 1
                  (Scenario.connected 0.9) Scenario.A n Hn Hacyc)).
Defined.

(** ** The invariants are kept *)

Lemma wf_links_same_shape w w' :
  (forall m, Neuron.links_of w' m = Neuron.links_of w m) ->
  (forall m, Neuron.inputs_of w' m = Neuron.inputs_of w m) ->
  Neuron.wf_links w -> Neuron.wf_links w'.
Proof.
  intros Hl Hi [Hm Hn Hs]. split.
  - intros a b. unfold Neuron.linked, Neuron.backref. rewrite Hl, Hi.
    apply Hm.
  - intros b. rewrite Hi. apply Hn.
  - intros a. unfold Neuron.linked. rewrite Hl. apply Hs.
Qed.

Lemma frame_wf_links t w w' :
  Neuron.frame_ok t w w' -> Neuron.wf_links w -> Neuron.wf_links w'.
Proof. intros (_ & Hl & Hi & _). by apply wf_links_same_shape. Qed.

Lemma frame_registry_ok t net w w' :
  Neuron.frame_ok t w w' ->
  Network.registry_ok net w -> Network.registry_ok net w'.
Proof.
  intros (_ & _ & _ & Hd) Hreg i l Hi.
  destruct (Hreg i l Hi) as (n & Hn & Hid).
  specialize (Hd l). rewrite Hn in Hd. simpl in Hd.
  destruct (Neuron.heap w' !! l) as [n'|]; [|done].
  exists n'. split; [done|]. unfold Neuron.getId in *.
  injection Hd as Hd. congruence.
Qed.

(** A cascade keeps a store well formed and a registry in order. *)
Lemma receiveSignal_keeps_invariants `{Platform} fuel t s net w w' :
  Neuron.receiveSignal fuel t s w = Ret w' ->
  Neuron.wf_links w -> Network.registry_ok net w ->
  Neuron.wf_links w' /\ Network.registry_ok net w'.
Proof.
  intros Hr%receiveSignal_frame Hwf Hreg. split.
  - by eapply frame_wf_links.
  - by eapply frame_registry_ok.
Qed.

(** So does the creation of a neuron, which files it under its
    identifier. *)
Lemma createNeuron_keeps_invariants i ty net w :
  Neuron.wf_links w -> Network.registry_ok net w ->
  Neuron.wf_links (Network.createNeuron i ty net w).2
  /\ Network.registry_ok (Network.createNeuron i ty net w).1.2
       (Network.createNeuron i ty net w).2
  /\ Network.neurons (Network.createNeuron i ty net w).1.2 !! i
     = Some (Network.createNeuron i ty net w).1.1.
Proof.
  intros Hwf Hreg. unfold Network.createNeuron.
  destruct (Network.neurons net !! i) as [l|] eqn:E; [done|].
  unfold Neuron.make_shared. cbn [fst snd].
  set (l := fresh (dom (Neuron.heap w))).
  assert (Hfresh : Neuron.heap w !! l = None).
  { apply not_elem_of_dom. apply is_fresh. }
  split; [|split].
  - apply (wf_links_same_shape w); [| |exact Hwf].
    + intros m. unfold Neuron.links_of. simpl.
      destruct (decide (m = l)) as [->|Hne].
      * by rewrite lookup_insert_eq, Hfresh.
      * by rewrite lookup_insert_ne.
    + intros m. unfold Neuron.inputs_of. simpl.
      destruct (decide (m = l)) as [->|Hne].
      * by rewrite lookup_insert_eq, Hfresh.
      * by rewrite lookup_insert_ne.
  - intros i' l' Hi'. simpl in Hi'.
    destruct (decide (i' = i)) as [->|Hne].
    + rewrite lookup_insert_eq in Hi'. injection Hi' as <-.
      eexists. split; [apply lookup_insert_eq | done].
    + rewrite lookup_insert_ne in Hi' by done.
      destruct (Hreg i' l' Hi') as (n & Hn & Hid).
      exists n. split; [|done]. simpl.
      rewrite lookup_insert_ne; [done|]. intros <-. congruence.
  - simpl. apply lookup_insert_eq.
Qed.

(** ** Where a cascade leaves the states *)

Lemma settles_refl w : Neuron.settles w w.
Proof. intros m n Hn. by eauto. Qed.

Lemma settles_trans w w1 w2 :
  Neuron.settles w w1 -> Neuron.settles w1 w2 -> Neuron.settles w w2.
Proof.
  intros H1 H2 m n Hn.
  destruct (H1 m n Hn) as (n1 & Hn1 & Hs1).
  destruct (H2 m n1 Hn1) as (n2 & Hn2 & Hs2).
  exists n2. split; [done|].
  destruct Hs2 as [Hs2|Hs2]; [rewrite Hs2; exact Hs1 | by right].
Qed.

Lemma settles_put t w n n' :
  Neuron.heap w !! t = Some n ->
  Neuron.state n' = Neuron.state n \/ Neuron.state n' = Neuron.RESTING ->
  Neuron.settles w (Neuron.put t n' w).
Proof.
  intros Hn Hs m nm Hm. simpl.
  destruct (decide (m = t)) as [->|Hne].
  - rewrite lookup_insert_eq. exists n'. split; [done|]. congruence.
  - rewrite lookup_insert_ne by done. by eauto.
Qed.

Lemma settles_emit evs w : Neuron.settles w (Neuron.emit evs w).
Proof. intros m n Hn. by eauto. Qed.

Section Settles.
Context `{Platform}.
Variable recv : loc -> option Synapse.t -> Neuron.Store -> res Neuron.Store.
Hypothesis recv_settles :
  forall t s w w', recv t s w = Ret w' -> Neuron.settles w w'.

Lemma fire_settles t w w' :
  Neuron.fire_with recv t w = Ret w' -> Neuron.settles w w'.
Proof using recv_settles.
  unfold Neuron.fire_with. intros (n & Hn & Hr)%bind_Ret_inv.
  apply get_Ret in Hn.
  apply bind_Ret_inv in Hr as (w2 & Hloop & Hr).
  apply bind_Ret_inv in Hr as (n2 & _ & Hr). injection Hr as <-.
  eapply settles_trans; [|apply settles_emit].
  revert Hloop. apply (forM_invariant (fun s => Neuron.settles w s)).
  - intros [u weight] s s' _ Hs (n' & _ & Hedge)%bind_Ret_inv.
    revert Hedge. apply (forM_invariant (fun s => Neuron.settles w s));
      [|exact Hs].
    intros sig s1 s2 _ Hs1 Hd. unfold Neuron.deliver in Hd.
    apply bind_Ret_inv in Hd as (tn & _ & Hd). apply recv_settles in Hd.
    eapply settles_trans; [exact Hs1 | exact Hd].
  - destruct (Neuron.outputSignals n); [|apply settles_refl].
    apply (settles_put t w n); [done | by left].
Qed.

Lemma processSignals_settles t w w' :
  Neuron.processSignals_with recv t w = Ret w' -> Neuron.settles w w'.
Proof using recv_settles.
  unfold Neuron.processSignals_with. intros (n & Hn & Hr)%bind_Ret_inv.
  apply get_Ret in Hn.
  destruct (Neuron.blocked (Neuron.state n)).
  { injection Hr as <-. apply settles_refl. }
  destruct (Neuron.inputSignals n) as [|s0 buf].
  { injection Hr as <-. apply settles_refl. }
  destruct (Neuron.runPipeline (Neuron.gates n) (s0 :: buf) (Neuron.minted w))
    as [processed k].
  apply bind_Ret_inv in Hr as (w3 & Hmid & Hr).
  apply bind_Ret_inv in Hr as (n3 & Hn3 & Hr). injection Hr as <-.
  apply get_Ret in Hn3.
  set (n1 := Neuron.with_potential _ (Neuron.with_inputSignals [] n)) in *.
  assert (Hw1 : Neuron.settles w (Neuron.put t n1 (Neuron.with_minted k w))).
  { apply (settles_put t (Neuron.with_minted k w) n); [done | by left]. }
  eapply settles_trans; [|apply (settles_put t w3 n3); [done | by left]].
  destruct (negb (Qltb _ (Neuron.threshold n))); [|by injection Hmid as <-].
  apply bind_Ret_inv in Hmid as (wa & Ha & Hmid).
  apply bind_Ret_inv in Hmid as (wb & Hb & Hmid).
  apply bind_Ret_inv in Hmid as (nb & Hnb & Hmid).
  apply fire_settles in Ha.
  eapply settles_trans; [exact Hw1|].
  eapply settles_trans; [exact Ha|].
  unfold Neuron.setState in Hb.
  apply bind_Ret_inv in Hb as (na & Hna & Hb). injection Hb as <-.
  apply get_Ret in Hna.
  rewrite get_emit, get_put_eq in Hnb. injection Hnb as <-.
  unfold Neuron.setState in Hmid. rewrite get_put_eq in Hmid.
  cbn [mbind res_bind] in Hmid. injection Hmid as <-.
  intros m nm Hm. simpl.
  destruct (decide (m = t)) as [->|Hne].
  - rewrite lookup_insert_eq. eexists. split; [done|]. by right.
  - do 3 (rewrite lookup_insert_ne by done). by eauto.
Qed.

End Settles.

(** Whatever a cascade does, it leaves every neuron in the state it had or
    in [RESTING]: a neuron that was [RESTING] before [receiveSignal]
    returns is [RESTING] after. *)
Lemma receiveSignal_settles `{Platform} fuel :
  forall t s w w',
    Neuron.receiveSignal fuel t s w = Ret w' -> Neuron.settles w w'.
Proof.
  induction fuel as [|fuel IH]; intros t s w w' Hr; [done|].
  cbn [Neuron.receiveSignal] in Hr. destruct s as [s|].
  - apply bind_Ret_inv in Hr as (n & Hn & Hr). apply get_Ret in Hn.
    apply (processSignals_settles _ IH) in Hr.
    eapply settles_trans; [|exact Hr].
    apply (settles_put t w n); [done | by left].
  - injection Hr as <-. apply settles_refl.
Qed.

(** * Further properties *)

(** ** Text *)

Lemma length_append (a b : string) :
  String.length (a +:+ b) = (String.length a + String.length b)%nat.
Proof. induction a as [|c a IH]; simpl; [done | by rewrite IH]. Qed.

(** Two texts with suffixes of the same length are equal only if both the
    texts and the suffixes are. *)
Lemma append_suffix_inj (a b s1 s2 : string) :
  String.length s1 = String.length s2 ->
  a +:+ s1 = b +:+ s2 -> a = b /\ s1 = s2.
Proof.
  intros Hlen. revert b. induction a as [|c a IH]; intros [|d b] Heq.
  - done.
  - exfalso. apply (f_equal String.length) in Heq.
    rewrite !length_append in Heq. simpl in Heq. lia.
  - exfalso. apply (f_equal String.length) in Heq.
    rewrite !length_append in Heq. simpl in Heq. lia.
  - injection Heq as -> Heq. destruct (IH _ Heq) as [-> ->]. done.
Qed.

(** ** Payload and tags of signals *)

Lemma tags_setData key value s :
  Synapse.tags (Synapse.setData key value s) = Synapse.tags s.
Proof. reflexivity. Qed.

Lemma NoDup_addTag tag s :
  NoDup (Synapse.tags s) -> NoDup (Synapse.tags (Synapse.addTag tag s)).
Proof.
  intros Hnd. unfold Synapse.addTag. case_bool_decide as Hin; [done|].
  simpl. apply NoDup_app. split; [done|]. split.
  - intros x Hx ->%list_elem_of_singleton. done.
  - apply NoDup_singleton.
Qed.

Lemma NoDup_foldl_addTag tgs s :
  NoDup (Synapse.tags s) ->
  NoDup (Synapse.tags (foldl (fun d tag => Synapse.addTag tag d) s tgs)).
Proof.
  revert s. induction tgs as [|tag tgs IH]; intros s Hnd; simpl; [done|].
  by apply IH, NoDup_addTag.
Qed.

Lemma tags_foldl_copy (f g : string -> string) keys s :
  Synapse.tags
    (foldl (fun d key =>
              if Synapse.reserved key then d
              else Synapse.setData (f key) (g key) d) s keys)
  = Synapse.tags s.
Proof.
  revert s. induction keys as [|key keys IH]; intros s; simpl; [done|].
  rewrite IH. by destruct (Synapse.reserved key).
Qed.

(** The tags a run of [addTag] leaves: the old ones, then the new ones in
    the order they came. *)
Lemma list_difference_snoc (l k : list string) x :
  x ∉ l -> list_difference l (k ++ [x]) = list_difference l k.
Proof.
  induction l as [|y l IH]; intros Hx; [done|].
  apply not_elem_of_cons in Hx as [Hne Hx].
  cbn [list_difference]. unfold decide_rel. rewrite (IH Hx).
  destruct (list_elem_of_dec y k) as [Hy|Hy],
           (list_elem_of_dec y (k ++ [x])) as [Hy'|Hy']; try done.
  - exfalso. apply Hy', elem_of_app. by left.
  - exfalso.
    apply elem_of_app in Hy' as [?|?%list_elem_of_singleton]; congruence.
Qed.

Lemma tags_foldl_addTag tgs s :
  NoDup tgs ->
  Synapse.tags (foldl (fun d tag => Synapse.addTag tag d) s tgs)
  = Synapse.tags s ++ list_difference tgs (Synapse.tags s).
Proof.
  revert s. induction tgs as [|tag tgs IH]; intros s Hnd.
  - simpl. by rewrite app_nil_r.
  - apply NoDup_cons in Hnd as [Hnotin Hnd].
    cbn [foldl list_difference]. unfold decide_rel. rewrite (IH _ Hnd).
    unfold Synapse.addTag. case_bool_decide as Hin.
    + by destruct (list_elem_of_dec tag (Synapse.tags s)).
    + destruct (list_elem_of_dec tag (Synapse.tags s)); [done|].
      simpl. rewrite <- app_assoc. simpl.
      by rewrite list_difference_snoc.
Qed.

Lemma list_difference_nil_r (l : list string) : list_difference l [] = l.
Proof.
  induction l as [|x l IH]; [done|].
  cbn [list_difference]. unfold decide_rel. rewrite IH.
  destruct (list_elem_of_dec x []) as [Hx|Hx]; [|done].
  by apply elem_of_nil in Hx.
Qed.

Lemma tags_derive_with uuid d s :
  NoDup (Synapse.tags s) ->
  Synapse.tags (Synapse.derive_with uuid d s) = Synapse.tags s.
Proof.
  intros Hnd. unfold Synapse.derive_with. cbv zeta. rewrite tags_setData.
  rewrite tags_foldl_addTag by done. simpl.
  apply list_difference_nil_r.
Qed.

Lemma tags_combine uuid o s :
  Synapse.tags (Synapse.combine uuid (Some o) s)
  = Synapse.tags
      (foldl (fun d tag => Synapse.addTag tag d)
         (foldl (fun d tag => Synapse.addTag tag d)
            (Synapse.new uuid (Synapse.type s)
               ((Synapse.strength s + Synapse.strength o) / 2))
            (Synapse.tags s))
         (Synapse.tags o)).
Proof.
  unfold Synapse.combine. cbv zeta. rewrite !tags_foldl_copy.
  rewrite !tags_setData.
  set (base := Synapse.new _ _ _).
  set (c0 := Synapse.setTargetId _ (Synapse.setSourceId _ base)).
  assert (E : forall tgs d d',
             Synapse.tags d = Synapse.tags d' ->
             Synapse.tags (foldl (fun d tag => Synapse.addTag tag d) d tgs)
             = Synapse.tags (foldl (fun d tag => Synapse.addTag tag d) d' tgs)).
  { induction tgs as [|tag tgs IH]; intros d d' Hd; cbn [foldl]; [done|].
    apply IH. unfold Synapse.addTag. rewrite Hd.
    by case_bool_decide. }
  apply E, E. reflexivity.
Qed.

Lemma NoDup_combine uuid o s :
  NoDup (Synapse.tags (Synapse.combine uuid o s)).
Proof.
  destruct o as [o|].
  - rewrite tags_combine.
    apply NoDup_foldl_addTag, NoDup_foldl_addTag. simpl. apply NoDup_nil_2.
  - unfold Synapse.combine, Synapse.derive, Synapse.derive_with. cbv zeta.
    rewrite tags_setData. apply NoDup_foldl_addTag. simpl. apply NoDup_nil_2.
Qed.

(** A run of [addTag] writes to the tags only. *)
Lemma fields_foldl_addTag tgs s :
  let r := foldl (fun d tag => Synapse.addTag tag d) s tgs in
  Synapse.id r = Synapse.id s /\ Synapse.sourceId r = Synapse.sourceId s
  /\ Synapse.targetId r = Synapse.targetId s
  /\ Synapse.type r = Synapse.type s
  /\ Synapse.stringPayload r = Synapse.stringPayload s.
Proof.
  revert s. induction tgs as [|tag tgs IH]; intros s; cbn [foldl]; [done|].
  destruct (IH (Synapse.addTag tag s)) as (-> & -> & -> & -> & ->).
  unfold Synapse.addTag. by case_bool_decide.
Qed.

(** A copying loop of [combine] writes to the payload only. *)
Lemma fields_foldl_copy (f g : string -> string) keys s :
  let r := foldl (fun d key =>
                    if Synapse.reserved key then d
                    else Synapse.setData (f key) (g key) d) s keys in
  Synapse.id r = Synapse.id s /\ Synapse.sourceId r = Synapse.sourceId s
  /\ Synapse.targetId r = Synapse.targetId s
  /\ Synapse.type r = Synapse.type s.
Proof.
  revert s. induction keys as [|key keys IH]; intros s; cbn [foldl]; [done|].
  destruct (IH (if Synapse.reserved key then s
                else Synapse.setData (f key) (g key) s))
    as (-> & -> & -> & ->).
  by destruct (Synapse.reserved key).
Qed.

(** What a copying loop leaves under a name it writes, and under a name it
    does not write. *)
Lemma payload_foldl_copy_hit sfx (g : string -> string) keys key s :
  Synapse.reserved key = false ->
  key ∈ keys
  \/ Synapse.stringPayload s !! (key +:+ sfx) = Some (g key) ->
  Synapse.stringPayload
    (foldl (fun d k =>
              if Synapse.reserved k then d
              else Synapse.setData (k +:+ sfx) (g k) d) s keys)
  !! (key +:+ sfx) = Some (g key).
Proof.
  intros Hfree. revert s.
  induction keys as [|k keys IH]; intros s Hin; cbn [foldl].
  - destruct Hin as [Hin|Hin]; [by apply elem_of_nil in Hin | done].
  - apply IH.
    destruct (decide (k = key)) as [->|Hne].
    + right. rewrite Hfree. cbn. apply lookup_insert_eq.
    + destruct Hin as [Hin|Hin].
      * left. apply elem_of_cons in Hin as [?|?]; [congruence | done].
      * right. destruct (Synapse.reserved k); [done|]. cbn.
        rewrite lookup_insert_ne; [done|].
        intros Heq. by apply append_suffix_inj in Heq as [? _].
Qed.

Lemma payload_foldl_copy_miss (f g : string -> string) keys x s :
  (forall k, k ∈ keys -> Synapse.reserved k = false -> f k <> x) ->
  Synapse.stringPayload
    (foldl (fun d k =>
              if Synapse.reserved k then d
              else Synapse.setData (f k) (g k) d) s keys)
  !! x = Synapse.stringPayload s !! x.
Proof.
  revert s. induction keys as [|k keys IH]; intros s Hmiss; cbn [foldl];
    [done|].
  rewrite IH by (intros k' Hk'; apply Hmiss; by right).
  destruct (Synapse.reserved k) eqn:Hr; [done|]. cbn.
  apply lookup_insert_ne, Hmiss; [by left | done].
Qed.

Lemma elem_of_getKeys key s :
  key ∈ Synapse.getKeys s <-> is_Some (Synapse.stringPayload s !! key).
Proof.
  unfold Synapse.getKeys. rewrite list_elem_of_fmap. split.
  - intros ([k v] & -> & Hin). apply elem_of_map_to_list in Hin. by eexists.
  - intros [v Hv]. exists (key, v). split; [done|].
    by apply elem_of_map_to_list.
Qed.

(** The payload of a combined signal, before the two copying loops. *)
Lemma payload_combine uuid o s x :
  Synapse.stringPayload (Synapse.combine uuid (Some o) s) !! x
  = Synapse.stringPayload
      (foldl (fun d k =>
                if Synapse.reserved k then d
                else Synapse.setData (k +:+ "_2") (Synapse.getData k o) d)
         (foldl (fun d k =>
                   if Synapse.reserved k then d
                   else Synapse.setData (k +:+ "_1") (Synapse.getData k s) d)
            (Synapse.setData "combined_from_2" (Synapse.id o)
               (Synapse.setData "combined_from_1" (Synapse.id s)
                  (Synapse.new uuid (Synapse.type s) 0)))
            (Synapse.getKeys s))
         (Synapse.getKeys o)) !! x.
Proof.
  unfold Synapse.combine. cbv zeta.
  set (F1 := fun d k => if Synapse.reserved k then d
                        else Synapse.setData (k +:+ "_1") (Synapse.getData k s) d).
  set (F2 := fun d k => if Synapse.reserved k then d
                        else Synapse.setData (k +:+ "_2") (Synapse.getData k o) d).
  assert (E : forall (F : Synapse.t -> string -> Synapse.t) keys d d',
             (forall a b k, Synapse.stringPayload a = Synapse.stringPayload b ->
                            Synapse.stringPayload (F a k)
                            = Synapse.stringPayload (F b k)) ->
             Synapse.stringPayload d = Synapse.stringPayload d' ->
             Synapse.stringPayload (foldl F d keys)
             = Synapse.stringPayload (foldl F d' keys)).
  { intros F keys. induction keys as [|k keys IH]; intros d d' HF Hd;
      cbn [foldl]; [done|]. apply IH; [done|]. by apply HF. }
  f_equal. apply E.
  { intros a b k Hab. subst F2. cbv beta.
    destruct (Synapse.reserved k); [done|]. cbn. by rewrite Hab. }
  apply E.
  { intros a b k Hab. subst F1. cbv beta.
    destruct (Synapse.reserved k); [done|]. cbn. by rewrite Hab. }
  cbn [Synapse.setData Synapse.stringPayload]. do 2 f_equal.
  pose proof (fields_foldl_addTag (Synapse.getTags o)
                (foldl (fun d tag => Synapse.addTag tag d)
                   (Synapse.setTargetId (Synapse.getTargetId o)
                      (Synapse.setSourceId (Synapse.sourceId s)
                         (Synapse.new uuid (Synapse.type s)
                            ((Synapse.strength s + Synapse.getStrength o) / 2))))
                   (Synapse.tags s))) as (_ & _ & _ & _ & ->).
  by destruct (fields_foldl_addTag (Synapse.tags s)
                 (Synapse.setTargetId (Synapse.getTargetId o)
                    (Synapse.setSourceId (Synapse.sourceId s)
                       (Synapse.new uuid (Synapse.type s)
                          ((Synapse.strength s + Synapse.getStrength o) / 2)))))
    as (_ & _ & _ & _ & ->).
Qed.

(** X1. No signal the interface can produce carries a tag twice:
    [addTag] skips a tag that is present, and deriving and combining copy
    tags through [addTag]. *)
Theorem signal_tags_never_repeat (s : Synapse.t) :
  Synapse.reachable s -> NoDup (Synapse.getTags s).
Proof.
  unfold Synapse.getTags.
  induction 1 as [i ty q | o s _ IH | uuid d s _ _ | uuid o s _ _ _ _].
  - apply NoDup_nil_2.
  - destruct o; simpl; try exact IH. by apply NoDup_addTag.
  - unfold Synapse.derive_with. cbv zeta. rewrite tags_setData.
    apply NoDup_foldl_addTag. apply NoDup_nil_2.
  - apply NoDup_combine.
Qed.

Lemma signal_tags_never_repeat_witness :
  let s := Synapse.addTag "b" (Synapse.addTag "a" (Synapse.addTag "b"
             (Synapse.new "s" Synapse.EXCITATORY 1))) in
  Synapse.reachable s /\ NoDup (Synapse.getTags s)
  /\ Synapse.getTags s = ["b"; "a"].
Proof.
  assert (Hr : Synapse.reachable
                 (Synapse.addTag "b" (Synapse.addTag "a" (Synapse.addTag "b"
                    (Synapse.new "s" Synapse.EXCITATORY 1))))).
  { apply (Synapse.r_apply (Synapse.OpAddTag "b")).
    apply (Synapse.r_apply (Synapse.OpAddTag "a")).
    apply (Synapse.r_apply (Synapse.OpAddTag "b")).
    apply Synapse.r_new. }
  split; [exact Hr|]. split; [|reflexivity].
  exact (signal_tags_never_repeat _ Hr).
Defined.

(** X2. A derived signal takes the minted identifier and copies type,
    source, target and tags (in order) of the original; of the original's
    payload it copies nothing: its payload is the one entry
    [derived_from], holding the original's identifier. *)
Theorem derive_copies_identity_not_payload uuid derivedStrength s :
  NoDup (Synapse.tags s) ->
  let d := Synapse.derive_with uuid derivedStrength s in
  Synapse.getId d = uuid
  /\ Synapse.getType d = Synapse.getType s
  /\ Synapse.getSourceId d = Synapse.getSourceId s
  /\ Synapse.getTargetId d = Synapse.getTargetId s
  /\ Synapse.getTags d = Synapse.getTags s
  /\ Synapse.stringPayload d = {[ "derived_from" := Synapse.getId s ]}
  /\ Synapse.getKeys d = ["derived_from"].
Proof.
  intros Hnd d.
  assert (Htags : Synapse.tags d = Synapse.tags s)
    by (by apply tags_derive_with).
  assert (Hpay : Synapse.stringPayload d
                 = {[ "derived_from" := Synapse.getId s ]}).
  { subst d. unfold Synapse.derive_with. cbv zeta.
    cbn [Synapse.setData Synapse.stringPayload].
    match goal with
    | |- context [foldl ?f ?a ?l] =>
        destruct (fields_foldl_addTag l a) as (_ & _ & _ & _ & ->)
    end.
    reflexivity. }
  subst d. unfold Synapse.derive_with in *. cbv zeta in *.
  unfold Synapse.getId, Synapse.getType, Synapse.getSourceId,
    Synapse.getTargetId, Synapse.getTags.
  cbn [Synapse.setData Synapse.id Synapse.type Synapse.sourceId
         Synapse.targetId].
  match goal with
  | |- context [foldl ?f ?a ?l] =>
      destruct (fields_foldl_addTag l a) as (-> & -> & -> & -> & _)
  end.
  repeat split; try done.
  unfold Synapse.getKeys. rewrite Hpay. by rewrite map_to_list_singleton.
Qed.

Lemma derive_copies_identity_not_payload_witness :
  let s := Synapse.setData "strength" "0.9"
             (Synapse.addTag "t"
                (Synapse.setTargetId "B" (Synapse.setSourceId "A"
                   (Synapse.new "s" Synapse.INHIBITORY 1)))) in
  NoDup (Synapse.tags s)
  /\ Synapse.hasData "strength" (Synapse.derive "u" s) = false
  /\ Synapse.getTags (Synapse.derive "u" s) = ["t"]
  /\ Synapse.getData "derived_from" (Synapse.derive "u" s) = "s".
Proof.
  cbv zeta.
  set (s := Synapse.setData "strength" "0.9" _).
  assert (Hnd : NoDup (Synapse.tags s)).
  { subst s. cbn. apply NoDup_singleton. }
  split; [exact Hnd|].
  destruct (derive_copies_identity_not_payload "u" (-1) s Hnd)
    as (_ & _ & _ & _ & Ht & Hp & _).
  unfold Synapse.derive, Synapse.hasData, Synapse.getData.
  rewrite Hp, Ht. repeat split.
Defined.



(** X4. Combining copies every payload entry of the first signal under
    its key with [_1] appended and every entry of the second under its key
    with [_2] appended, the three reserved keys [source], [target] and
    [strength] excepted: of those no copy is made. *)
Theorem combine_copies_payload_with_suffix uuid o s :
  let c := Synapse.combine uuid (Some o) s in
  (forall key value,
     Synapse.reserved key = false ->
     Synapse.stringPayload s !! key = Some value ->
     Synapse.hasData (key +:+ "_1") c = true
     /\ Synapse.getData (key +:+ "_1") c = value)
  /\ (forall key value,
        Synapse.reserved key = false ->
        Synapse.stringPayload o !! key = Some value ->
        Synapse.hasData (key +:+ "_2") c = true
        /\ Synapse.getData (key +:+ "_2") c = value)
  /\ (forall key,
        Synapse.reserved key = true ->
        Synapse.hasData (key +:+ "_1") c = false
        /\ Synapse.hasData (key +:+ "_2") c = false).
Proof.
  intros c. subst c. split; [|split].
  - intros key value Hfree Hkey.
    assert (Synapse.stringPayload (Synapse.combine uuid (Some o) s)
            !! (key +:+ "_1") = Some value) as Hc.
    { rewrite payload_combine.
      rewrite payload_foldl_copy_miss.
      2: { intros k _ _ Heq. by apply append_suffix_inj in Heq as [_ ?]. }
      rewrite (payload_foldl_copy_hit "_1"
                 (fun k => Synapse.getData k s)); [| done |].
      - unfold Synapse.getData. by rewrite Hkey.
      - left. apply elem_of_getKeys. by eexists. }
    unfold Synapse.hasData, Synapse.getData. rewrite Hc.
    split; [by apply bool_decide_eq_true_2 | done].
  - intros key value Hfree Hkey.
    assert (Synapse.stringPayload (Synapse.combine uuid (Some o) s)
            !! (key +:+ "_2") = Some value) as Hc.
    { rewrite payload_combine.
      rewrite (payload_foldl_copy_hit "_2"
                 (fun k => Synapse.getData k o)); [| done |].
      - unfold Synapse.getData. by rewrite Hkey.
      - left. apply elem_of_getKeys. by eexists. }
    unfold Synapse.hasData, Synapse.getData. rewrite Hc.
    split; [by apply bool_decide_eq_true_2 | done].
  - intros key Hres.
    assert (Hkey : key = "source" \/ key = "target" \/ key = "strength").
    { unfold Synapse.reserved in Hres.
      repeat case_bool_decide; auto; discriminate. }
    assert (forall sfx, String.length sfx = 2%nat ->
              Synapse.stringPayload (Synapse.combine uuid (Some o) s)
              !! (key +:+ sfx) = None) as Hnone.
    { intros sfx Hlen. rewrite payload_combine.
      rewrite payload_foldl_copy_miss.
      2: { intros k _ Hk Heq.
           apply append_suffix_inj in Heq as [-> _]; [congruence | done]. }
      rewrite payload_foldl_copy_miss.
      2: { intros k _ Hk Heq.
           apply append_suffix_inj in Heq as [-> _]; [congruence | done]. }
      cbn [Synapse.setData Synapse.stringPayload Synapse.new].
      rewrite !lookup_insert_ne; [apply lookup_empty | |].
      - intros Heq. apply (f_equal String.length) in Heq.
        rewrite length_append, Hlen in Heq.
        destruct Hkey as [->| [->| ->]]; discriminate.
      - intros Heq. apply (f_equal String.length) in Heq.
        rewrite length_append, Hlen in Heq.
        destruct Hkey as [->| [->| ->]]; discriminate. }
    unfold Synapse.hasData. rewrite !Hnone by done.
    split; apply bool_decide_eq_false_2; by intros [? ?].
Qed.

(** X5. The provenance of a combined signal: [combined_from_1] and
    [combined_from_2] hold the identifiers of the two signals, provided
    neither carries a payload entry named [combined_from] (whose copy
    would take the place of the provenance entry). *)
Theorem combine_records_provenance uuid o s :
  Synapse.hasData "combined_from" s = false ->
  Synapse.hasData "combined_from" o = false ->
  let c := Synapse.combine uuid (Some o) s in
  Synapse.getData "combined_from_1" c = Synapse.getId s
  /\ Synapse.getData "combined_from_2" c = Synapse.getId o.
Proof.
  intros Hs Ho c. subst c.
  apply bool_decide_eq_false_1 in Hs, Ho.
  unfold Synapse.getData. rewrite !payload_combine.
  split.
  - rewrite payload_foldl_copy_miss.
    2: { intros k _ _ Heq.
         change "combined_from_1" with ("combined_from" +:+ "_1") in Heq.
         by apply append_suffix_inj in Heq as [_ ?]. }
    rewrite payload_foldl_copy_miss.
    2: { intros k Hk _ Heq.
         change "combined_from_1" with ("combined_from" +:+ "_1") in Heq.
         apply append_suffix_inj in Heq as [-> _]; [|done].
         by apply Hs, elem_of_getKeys. }
    cbn [Synapse.setData Synapse.stringPayload].
    rewrite lookup_insert_ne by done. by rewrite lookup_insert_eq.
  - rewrite payload_foldl_copy_miss.
    2: { intros k Hk _ Heq.
         change "combined_from_2" with ("combined_from" +:+ "_2") in Heq.
         apply append_suffix_inj in Heq as [-> _]; [|done].
         by apply Ho, elem_of_getKeys. }
    rewrite payload_foldl_copy_miss.
    2: { intros k _ _ Heq.
         change "combined_from_2" with ("combined_from" +:+ "_2") in Heq.
         by apply append_suffix_inj in Heq as [_ ?]. }
    cbn [Synapse.setData Synapse.stringPayload].
    by rewrite lookup_insert_eq.
Qed.

Lemma combine_records_provenance_witness :
  let s := Synapse.setData "note" "n" (Synapse.new "s" Synapse.EXCITATORY 1) in
  let o := Synapse.new "o" Synapse.EXCITATORY 1 in
  let bad := Synapse.setData "combined_from" "elsewhere" s in
  Synapse.getData "combined_from_1" (Synapse.combine "u" (Some o) s) = "s"
  /\ Synapse.getData "combined_from_2" (Synapse.combine "u" (Some o) s) = "o"
  /\ Synapse.getData "combined_from_1" (Synapse.combine "u" (Some o) bad)
     = "elsewhere".
Proof.
  cbv zeta.
  destruct (combine_records_provenance "u"
              (Synapse.new "o" Synapse.EXCITATORY 1)
              (Synapse.setData "note" "n"
                 (Synapse.new "s" Synapse.EXCITATORY 1))
              eq_refl eq_refl) as [H1 H2].
  split; [exact H1|]. split; [exact H2|].
  vm_compute. reflexivity.
Defined.


(** ** Typed payload accessors *)

Section TypedPayload.
Context `{Platform}.

(** X6. The payload is a map from keys to text: a written entry reads
    back, other entries are untouched, and a boolean written with
    [setData<bool>] reads back with [getData<bool>]. *)
Theorem payload_round_trip (s : Synapse.t) (key value : string) (b : bool) :
  Synapse.getData key (Synapse.setData key value s) = value
  /\ Synapse.hasData key (Synapse.setData key value s) = true
  /\ (forall key', key' <> key ->
        Synapse.getData key' (Synapse.setData key value s)
        = Synapse.getData key' s
        /\ Synapse.hasData key' (Synapse.setData key value s)
           = Synapse.hasData key' s)
  /\ Payload.getData_bool key (Payload.setData_bool key b s) = b
  /\ Payload.getData_bool key (Synapse.setData key "true" s) = true
  /\ Payload.getData_bool key (Synapse.setData key "yes" s) = false.
Proof.
  unfold Synapse.getData, Synapse.hasData, Payload.getData_bool,
    Payload.setData_bool.
  cbn [Synapse.setData Synapse.stringPayload].
  rewrite !lookup_insert_eq.
  split; [done|]. split; [by apply bool_decide_eq_true_2|].
  split; [|split; [by destruct b | done]].
  intros key' Hne. by rewrite lookup_insert_ne.
Qed.


End TypedPayload.


(** ** Gates, one class at a time *)

Lemma clamp01_idem x : clamp01 (clamp01 x) == clamp01 x.
Proof. apply clamp01_id; apply clamp01_range. Qed.

Lemma scanned_step g seen acc input :
  scanned g seen acc ->
  scanned g (seen ++ [input])
    (let '(best, maxStrength) := acc in
     match input with
     | Some s =>
         if negb (Qltb (Synapse.getStrength s) (NeuronGate.threshold g))
            && Qltb maxStrength (Synapse.getStrength s)
         then (Some s, Synapse.getStrength s)
         else (best, maxStrength)
     | None => (best, maxStrength)
     end).
Proof.
  destruct acc as [best m]. unfold scanned. cbn [fst snd].
  intros Hacc. destruct input as [s|].
  - destruct (Qltb (Synapse.getStrength s) (NeuronGate.threshold g)) eqn:Eq;
      cbn [negb andb].
    + (* the input does not qualify *)
      apply Qltb_lt in Eq. cbn [fst snd].
      destruct best as [b|].
      * destruct Hacc as (Hm & Hq & Hpos & pre & post & -> & Hpre & Hpost).
        do 3 (split; [done|]). exists pre, (post ++ [Some s]).
        split; [by rewrite <- app_assoc|]. split; [done|].
        intros s' [Hs'|Hs']%elem_of_app Hq'; [by apply Hpost|].
        apply list_elem_of_singleton in Hs'. injection Hs' as ->.
        exfalso. apply (Qlt_not_le _ _ Eq Hq').
      * destruct Hacc as (Hm & Hall). split; [done|].
        intros s' [Hs'|Hs']%elem_of_app Hq'; [by apply Hall|].
        apply list_elem_of_singleton in Hs'. injection Hs' as ->.
        exfalso. apply (Qlt_not_le _ _ Eq Hq').
    + apply Qltb_ge in Eq.
      destruct (Qltb m (Synapse.getStrength s)) eqn:Em; cbn [fst snd].
      * (* a new strongest input *)
        apply Qltb_lt in Em. split; [done|]. split; [done|].
        assert (Hpos : 0 < Synapse.getStrength s
                       /\ forall s', Some s' ∈ seen ->
                            NeuronGate.threshold g <= Synapse.getStrength s' ->
                            Synapse.getStrength s' < Synapse.getStrength s).
        { destruct best as [b|].
          - destruct Hacc as (Hm & Hq & Hpos & pre & post & -> & Hpre & Hpost).
            rewrite Hm in Em. split; [by apply Qlt_trans with (Synapse.getStrength b)|].
            intros s' Hs' Hq'.
            apply elem_of_app in Hs' as [Hs'|Hs'].
            + apply Qlt_trans with (Synapse.getStrength b); [by apply Hpre | done].
            + apply elem_of_cons in Hs' as [Hs'|Hs'].
              * by injection Hs' as ->.
              * apply Qle_lt_trans with (Synapse.getStrength b);
                  [by apply Hpost | done].
          - destruct Hacc as (Hm & Hall). rewrite Hm in Em. split; [done|].
            intros s' Hs' Hq'.
            apply Qle_lt_trans with 0; [by apply Hall | done]. }
        destruct Hpos as [Hpos Hweaker]. split; [done|].
        exists seen, []. split; [done|]. split; [done|].
        intros s' Hs'. by apply elem_of_nil in Hs'.
      * (* a qualifying input that is not stronger *)
        apply Qltb_ge in Em. destruct best as [b|].
        -- destruct Hacc as (Hm & Hq & Hpos & pre & post & -> & Hpre & Hpost).
           do 3 (split; [done|]). exists pre, (post ++ [Some s]).
           split; [by rewrite <- app_assoc|]. split; [done|].
           intros s' [Hs'|Hs']%elem_of_app Hq'; [by apply Hpost|].
           apply list_elem_of_singleton in Hs'. injection Hs' as ->.
           by rewrite <- Hm.
        -- destruct Hacc as (Hm & Hall). split; [done|].
           intros s' [Hs'|Hs']%elem_of_app Hq'; [by apply Hall|].
           apply list_elem_of_singleton in Hs'. injection Hs' as ->.
           by rewrite <- Hm.
  - cbn [fst snd]. destruct best as [b|].
    + destruct Hacc as (Hm & Hq & Hpos & pre & post & -> & Hpre & Hpost).
      do 3 (split; [done|]). exists pre, (post ++ [None]).
      split; [by rewrite <- app_assoc|]. split; [done|].
      intros s' [Hs'|Hs']%elem_of_app Hq'; [by apply Hpost|].
      by apply list_elem_of_singleton in Hs'.
    + destruct Hacc as (Hm & Hall). split; [done|].
      intros s' [Hs'|Hs']%elem_of_app Hq'; [by apply Hall|].
      by apply list_elem_of_singleton in Hs'.
Qed.

Lemma scanned_strongest g ins :
  scanned g ins (NeuronGate.strongest g ins).
Proof.
  unfold NeuronGate.strongest.
  assert (forall rest seen acc,
            scanned g seen acc ->
            scanned g (seen ++ rest)
              (foldl (fun '(best, maxStrength) input =>
                        match input with
                        | Some s =>
                            if negb (Qltb (Synapse.getStrength s)
                                       (NeuronGate.threshold g))
                               && Qltb maxStrength (Synapse.getStrength s)
                            then (Some s, Synapse.getStrength s)
                            else (best, maxStrength)
                        | None => (best, maxStrength)
                        end) acc rest)) as Hgen.
  { induction rest as [|input rest IH]; intros seen acc Hacc; cbn [foldl].
    - by rewrite app_nil_r.
    - rewrite (assoc_L (++) seen [input] rest : seen ++ input :: rest = _).
      apply IH. pose proof (scanned_step g seen acc input Hacc) as Hstep.
      by destruct acc. }
  apply (Hgen ins [] (None, 0)). split; [done|].
  intros s Hs. by apply elem_of_nil in Hs.
Qed.

(** X8. The OR gate answers with a copy of the first of its strongest
    inputs at or above the threshold; it does not answer when no such
    input has a positive strength (the scan starts from [0.0f] and
    compares strictly). *)
Theorem or_gate_picks_first_strongest g uuid ins :
  match NeuronGate.OrGate_process g uuid ins with
  | Some r =>
      exists pre b post,
        ins = pre ++ Some b :: post
        /\ r = NeuronGate.stamp g "OR" (Synapse.derive uuid b)
        /\ NeuronGate.threshold g <= Synapse.getStrength b
        /\ 0 < Synapse.getStrength b
        /\ (forall s, Some s ∈ pre ->
                      NeuronGate.threshold g <= Synapse.getStrength s ->
                      Synapse.getStrength s < Synapse.getStrength b)
        /\ (forall s, Some s ∈ post ->
                      NeuronGate.threshold g <= Synapse.getStrength s ->
                      Synapse.getStrength s <= Synapse.getStrength b)
  | None =>
      forall s, Some s ∈ ins ->
                NeuronGate.threshold g <= Synapse.getStrength s ->
                Synapse.getStrength s <= 0
  end.
Proof.
  pose proof (scanned_strongest g ins) as Hscan. unfold scanned in Hscan.
  unfold NeuronGate.OrGate_process.
  destruct ins as [|input ins].
  - intros s Hs. by apply elem_of_nil in Hs.
  - destruct (NeuronGate.strongest g (input :: ins)).1 as [b|].
    + destruct Hscan as (_ & Hq & Hpos & pre & post & Hins & Hpre & Hpost).
      exists pre, b, post. by repeat split.
    + by destruct Hscan as [_ Hall].
Qed.

Lemma strength_derive_inBounds uuid s :
  Synapse.inBounds s ->
  Synapse.strength (Synapse.derive uuid s) == Synapse.strength s.
Proof.
  intros [H0 H1]. unfold Synapse.derive. rewrite strength_derive_with.
  change (Qle_bool 0 (-1)) with false. cbv iota. by apply clamp01_id.
Qed.



Section GatesInANeuron.
Context `{Platform}.


End GatesInANeuron.


Lemma fields_derive_with uuid d s :
  let r := Synapse.derive_with uuid d s in
  Synapse.id r = uuid /\ Synapse.type r = Synapse.type s
  /\ Synapse.sourceId r = Synapse.sourceId s
  /\ Synapse.targetId r = Synapse.targetId s
  /\ Synapse.stringPayload r = {[ "derived_from" := Synapse.id s ]}.
Proof.
  unfold Synapse.derive_with. cbv zeta.
  cbn [Synapse.setData Synapse.id Synapse.type Synapse.sourceId
         Synapse.targetId Synapse.stringPayload].
  match goal with
  | |- context [foldl ?f ?a ?l] =>
      destruct (fields_foldl_addTag l a) as (-> & -> & -> & -> & ->)
  end.
  done.
Qed.

Lemma hasTag_addTag tag s : Synapse.hasTag tag (Synapse.addTag tag s) = true.
Proof.
  unfold Synapse.hasTag, Synapse.addTag. apply bool_decide_eq_true_2.
  case_bool_decide as Hin; [done|]. cbn. apply elem_of_app. right.
  by apply list_elem_of_singleton.
Qed.

Lemma payload_addTag tag s :
  Synapse.stringPayload (Synapse.addTag tag s) = Synapse.stringPayload s.
Proof. unfold Synapse.addTag. by case_bool_decide. Qed.

Lemma fields_addTag tag s :
  Synapse.id (Synapse.addTag tag s) = Synapse.id s
  /\ Synapse.type (Synapse.addTag tag s) = Synapse.type s
  /\ Synapse.sourceId (Synapse.addTag tag s) = Synapse.sourceId s
  /\ Synapse.targetId (Synapse.addTag tag s) = Synapse.targetId s.
Proof. unfold Synapse.addTag. by case_bool_decide. Qed.

(** What the engine's own gates hand back: a stamped copy of one of the
    inputs. *)
Lemma stamped_copy g name uuid s q r :
  r = NeuronGate.stamp g name (Synapse.setStrength q (Synapse.derive uuid s))
  \/ r = NeuronGate.stamp g name (Synapse.derive uuid s) ->
  Synapse.hasTag "gate_processed" r = true
  /\ Synapse.getData "gate_id" r = NeuronGate.id g
  /\ Synapse.getId r = uuid
  /\ Synapse.inBounds r
  /\ Synapse.getData "derived_from" r = Synapse.getId s
  /\ Synapse.getType r = Synapse.getType s
  /\ Synapse.getSourceId r = Synapse.getSourceId s
  /\ Synapse.getTargetId r = Synapse.getTargetId s.
Proof.
  destruct (fields_derive_with uuid (-1) s) as (Hid & Hty & Hsrc & Htgt & Hpay).
  cbv zeta in *. fold (Synapse.derive uuid s) in *.
  intros Hr.
  assert (Hb : Synapse.inBounds r).
  { unfold Synapse.inBounds.
    destruct Hr as [-> | ->]; rewrite strength_stamp.
    - apply clamp01_range.
    - unfold Synapse.derive. rewrite strength_derive_with. apply clamp01_range. }
  assert (Hrest :
            Synapse.hasTag "gate_processed" r = true
            /\ Synapse.stringPayload r
               = <["gate_type" := name]>
                   (<["gate_id" := NeuronGate.id g]>
                      {[ "derived_from" := Synapse.id s ]})
            /\ Synapse.id r = uuid /\ Synapse.type r = Synapse.type s
            /\ Synapse.sourceId r = Synapse.sourceId s
            /\ Synapse.targetId r = Synapse.targetId s).
  { destruct Hr as [-> | ->]; unfold NeuronGate.stamp.
    all: split; [apply hasTag_addTag|].
    all: rewrite payload_addTag.
    all: match goal with
         | |- context [Synapse.addTag ?t ?x] =>
             destruct (fields_addTag t x) as (-> & -> & -> & ->)
         end.
    all: cbn [Synapse.setData Synapse.setStrength Synapse.id Synapse.type
                Synapse.sourceId Synapse.targetId Synapse.stringPayload].
    all: by rewrite Hid, Hty, Hsrc, Htgt, Hpay. }
  destruct Hrest as (Htag & Hp & Hid' & Hty' & Hsrc' & Htgt').
  unfold Synapse.getData, Synapse.getId, Synapse.getType,
    Synapse.getSourceId, Synapse.getTargetId.
  rewrite Hp. repeat split; try done; apply Hb.
Qed.


Lemma or_gate_scan g uuid ins :
  match NeuronGate.OrGate_process g uuid ins with
  | Some r =>
      exists b, Some b ∈ ins
                /\ r = NeuronGate.stamp g "OR" (Synapse.derive uuid b)
  | None => True
  end.
Proof.
  pose proof (scanned_strongest g ins) as Hscan. unfold scanned in Hscan.
  unfold NeuronGate.OrGate_process.
  destruct ins as [|input ins]; [done|].
  destruct (NeuronGate.strongest g (input :: ins)).1 as [b|]; [|done].
  destruct Hscan as (_ & _ & _ & pre & post & -> & _).
  exists b. split; [|done]. apply elem_of_app. right. by left.
Qed.

Section Stamping.
Context `{Platform}.

(** X11. Whatever a gate hands back carries the tag [gate_processed] and
    the gate's identifier under [gate_id].  What one of the engine's own
    gate classes hands back is moreover a fresh copy of one of its inputs:
    it has the minted identifier, names that input under [derived_from],
    keeps its type, source and target, and has a strength within
    [[0, 1]]. *)
Theorem gate_output_is_stamped g uuid ins r :
  NeuronGate.process g uuid ins = Some r ->
  Synapse.hasTag "gate_processed" r = true
  /\ Synapse.getData "gate_id" r = NeuronGate.getId g
  /\ (builtin g ->
      Synapse.getId r = uuid
      /\ Synapse.inBounds r
      /\ exists s,
           Some s ∈ ins
           /\ Synapse.getData "derived_from" r = Synapse.getId s
           /\ Synapse.getType r = Synapse.getType s
           /\ Synapse.getSourceId r = Synapse.getSourceId s
           /\ Synapse.getTargetId r = Synapse.getTargetId s).
Proof.
  unfold NeuronGate.process, builtin, NeuronGate.getId.
  assert (Hwrap : forall name q s,
            Some s ∈ ins ->
            r = NeuronGate.stamp g name
                  (Synapse.setStrength q (Synapse.derive uuid s))
            \/ r = NeuronGate.stamp g name (Synapse.derive uuid s) ->
            Synapse.hasTag "gate_processed" r = true
            /\ Synapse.getData "gate_id" r = NeuronGate.id g
            /\ (True ->
                Synapse.getId r = uuid
                /\ Synapse.inBounds r
                /\ exists s,
                     Some s ∈ ins
                     /\ Synapse.getData "derived_from" r = Synapse.getId s
                     /\ Synapse.getType r = Synapse.getType s
                     /\ Synapse.getSourceId r = Synapse.getSourceId s
                     /\ Synapse.getTargetId r = Synapse.getTargetId s)).
  { intros name q s Hin Hr.
    destruct (stamped_copy g name uuid s q r Hr)
      as (Htag & Hgid & Hid & Hb & Hfrom & Hty & Hsrc & Htgt).
    split; [done|]. split; [done|]. intros _. split; [done|].
    split; [done|]. by exists s. }
  destruct (NeuronGate.kind g) as [| | | | |factor|processor].
  - (* AND *)
    unfold NeuronGate.AndGate_process.
    destruct ins as [|[s0|] rest]; [done| |].
    + destruct (NeuronGate.allAboveThreshold g (Some s0 :: rest)); [|done].
      intros [= <-]. eapply Hwrap; [by left | by left].
    + by destruct (NeuronGate.allAboveThreshold g (None :: rest)).
  - (* OR *)
    intros Hr.
    pose proof (or_gate_scan g uuid ins) as Hscan. rewrite Hr in Hscan.
    destruct Hscan as (b & Hin & ->).
    eapply (Hwrap _ 0); [exact Hin | by right].
  - (* NOT *)
    unfold NeuronGate.NotGate_process.
    destruct ins as [|[s0|] rest]; [done| |done].
    intros [= <-]. eapply Hwrap; [by left | by left].
  - (* XOR *)
    unfold NeuronGate.XorGate_process.
    destruct ins as [|[i0|] [|[i1|] [|? ?]]]; try done.
    cbv zeta.
    destruct (negb (Qltb (Synapse.getStrength i0) (NeuronGate.threshold g)));
      destruct (negb (Qltb (Synapse.getStrength i1) (NeuronGate.threshold g)));
      cbn [negb andb orb]; try done.
    + intros [= <-]. eapply Hwrap; [by left | by left].
    + intros [= <-]. eapply Hwrap; [right; by left | by left].
  - (* THRESHOLD *)
    unfold NeuronGate.ThresholdGate_process.
    destruct ins as [|[s0|] rest]; [done| |done].
    destruct (negb (Qltb (Synapse.getStrength s0) (NeuronGate.threshold g)));
      [|done].
    intros [= <-]. eapply Hwrap; [by left | by left].
  - (* MODULATOR *)
    unfold NeuronGate.ModulatorGate_process.
    destruct ins as [|[s0|] rest]; [done| |done].
    cbv zeta. intros [= <-].
    set (q := fmin 1 (fmax 0 (Synapse.getStrength s0 * factor))).
    destruct (stamped_copy g "MODULATOR" uuid s0 q _ (or_introl eq_refl))
      as (Htag & Hgid & Hid & Hb & Hfrom & Hty & Hsrc & Htgt).
    revert Htag Hgid Hid Hb Hfrom Hty Hsrc Htgt.
    unfold NeuronGate.stamp, Synapse.hasTag, Synapse.getData, Synapse.getId,
      Synapse.inBounds, Synapse.getType, Synapse.getSourceId,
      Synapse.getTargetId.
    rewrite !strength_addTag, !payload_addTag.
    repeat match goal with
           | |- context [Synapse.addTag ?t ?x] =>
               destruct (fields_addTag t x) as (-> & -> & -> & ->)
           end.
    cbn [Synapse.setData Synapse.setStrength Synapse.id Synapse.type
           Synapse.sourceId Synapse.targetId Synapse.stringPayload
           Synapse.strength].
    intros Htag Hgid Hid Hb Hfrom Hty Hsrc Htgt.
    split; [apply hasTag_addTag|]. split.
    { rewrite !lookup_insert_ne by done.
      rewrite !lookup_insert_ne in Hgid by done. exact Hgid. }
    intros _. split; [done|]. split; [done|]. exists s0.
    split; [by left|]. split; [|done].
    rewrite !lookup_insert_ne by done.
    rewrite !lookup_insert_ne in Hfrom by done. exact Hfrom.
  - (* CUSTOM *)
    unfold NeuronGate.CustomGate_process.
    destruct (processor uuid ins) as [result|]; [|done].
    intros [= <-]. unfold NeuronGate.stamp.
    split; [apply hasTag_addTag|]. split; [|done].
    unfold Synapse.getData. rewrite payload_addTag.
    cbn [Synapse.setData Synapse.stringPayload].
    rewrite lookup_insert_ne by done. by rewrite lookup_insert_eq.
Qed.

End Stamping.

Lemma gate_output_is_stamped_witness :
  let s := Synapse.setTargetId "B" (Synapse.new "s" Synapse.EXCITATORY 1) in
  let g := NeuronGate.createGate NeuronGate.OR "g" in
  exists r,
    NeuronGate.process (H := Decimal.platform) g "u" [None; Some s] = Some r
    /\ Synapse.getData "gate_id" r = "g"
    /\ Synapse.getId r = "u"
    /\ Synapse.getTargetId r = "B".
Proof.
  cbv zeta. eexists. split; [reflexivity|].
  destruct (gate_output_is_stamped (H := Decimal.platform)
              (NeuronGate.createGate NeuronGate.OR "g") "u"
              [None; Some (Synapse.setTargetId "B"
                             (Synapse.new "s" Synapse.EXCITATORY 1))]
              _ eq_refl) as (_ & Hgid & Hb).
  destruct (Hb I) as (Hid & _ & _).
  split; [exact Hgid|]. split; [exact Hid | reflexivity].
Defined.

(** ** Adaptation of a gate *)

Lemma inject_nat_succ n :
  inject_Z (Z.of_nat (S n)) == inject_Z (Z.of_nat n) + 1.
Proof. rewrite Nat2Z.inj_succ. unfold Z.succ. by rewrite inject_Z_plus. Qed.

Lemma adapt_success_bound g n :
  NeuronGate.threshold g <= 1 ->
  NeuronGate.adaptationRate g = 0.1 ->
  let g' := Nat.iter n (NeuronGate.adapt true) g in
  NeuronGate.adaptationRate g' = 0.1
  /\ ((1 <= n)%nat -> 0.1 <= NeuronGate.threshold g')
  /\ (NeuronGate.threshold g' <= 0.1
      \/ NeuronGate.threshold g' <= 1 - 0.1 * inject_Z (Z.of_nat n)).
Proof.
  intros H1 Hrate. induction n as [|n (IHr & IHlo & IHhi)].
  - cbv zeta. change (Nat.iter 0 _ g) with g.
    change (inject_Z (Z.of_nat 0)) with 0.
    split; [done|]. split; [lia|]. right. lra.
  - cbv zeta. rewrite Nat.iter_succ.
    set (g' := Nat.iter n (NeuronGate.adapt true) g) in *.
    change (NeuronGate.adaptationRate (NeuronGate.adapt true g'))
      with (NeuronGate.adaptationRate g').
    change (NeuronGate.threshold (NeuronGate.adapt true g'))
      with (fmax 0.1 (NeuronGate.threshold g' - NeuronGate.adaptationRate g')).
    rewrite IHr. split; [done|].
    unfold fmax.
    destruct (Qltb 0.1 (NeuronGate.threshold g' - 0.1)) eqn:E.
    + apply Qltb_lt in E. split; [intros _; lra|].
      destruct IHhi as [IHhi|IHhi]; [lra|]. right.
      rewrite inject_nat_succ. lra.
    + split; [intros _; lra|]. left. lra.
Qed.

Lemma adapt_failure_bound g n :
  0 <= NeuronGate.threshold g ->
  NeuronGate.adaptationRate g = 0.1 ->
  let g' := Nat.iter n (NeuronGate.adapt false) g in
  NeuronGate.adaptationRate g' = 0.1
  /\ ((1 <= n)%nat -> NeuronGate.threshold g' <= 0.9)
  /\ (0.9 <= NeuronGate.threshold g'
      \/ 0.1 * inject_Z (Z.of_nat n) <= NeuronGate.threshold g').
Proof.
  intros H0 Hrate. induction n as [|n (IHr & IHhi & IHlo)].
  - cbv zeta. change (Nat.iter 0 _ g) with g.
    change (inject_Z (Z.of_nat 0)) with 0.
    split; [done|]. split; [lia|]. right. lra.
  - cbv zeta. rewrite Nat.iter_succ.
    set (g' := Nat.iter n (NeuronGate.adapt false) g) in *.
    change (NeuronGate.adaptationRate (NeuronGate.adapt false g'))
      with (NeuronGate.adaptationRate g').
    change (NeuronGate.threshold (NeuronGate.adapt false g'))
      with (fmin 0.9 (NeuronGate.threshold g' + NeuronGate.adaptationRate g')).
    rewrite IHr. split; [done|].
    unfold fmin.
    destruct (Qltb (NeuronGate.threshold g' + 0.1) 0.9) eqn:E.
    + apply Qltb_lt in E. split; [intros _; lra|].
      destruct IHlo as [IHlo|IHlo]; [lra|]. right.
      rewrite inject_nat_succ. lra.
    + split; [intros _; lra|]. left. lra.
Qed.

(** X12. Adaptation keeps a gate's threshold in the band [[0.1, 0.9]]
    from the first call on (a success raises a threshold that was
    below [0.1], a failure lowers one that was above [0.9]); nine
    successes in a row bring any threshold to [0.1], nine failures to
    [0.9]. *)
Theorem adapt_reaches_floor_and_ceiling g n :
  0 <= NeuronGate.threshold g <= 1 ->
  NeuronGate.adaptationRate g = 0.1 ->
  let succeeded := Nat.iter n (NeuronGate.adapt true) g in
  let failed := Nat.iter n (NeuronGate.adapt false) g in
  ((1 <= n)%nat ->
   0.1 <= NeuronGate.getThreshold succeeded <= 0.9
   /\ 0.1 <= NeuronGate.getThreshold failed <= 0.9)
  /\ ((9 <= n)%nat ->
      NeuronGate.getThreshold succeeded == 0.1
      /\ NeuronGate.getThreshold failed == 0.9).
Proof.
  intros [H0 H1] Hrate succeeded failed. subst succeeded failed.
  unfold NeuronGate.getThreshold.
  destruct (adapt_success_bound g n H1 Hrate) as (_ & Hslo & Hshi).
  destruct (adapt_failure_bound g n H0 Hrate) as (_ & Hfhi & Hflo).
  cbv zeta in *.
  assert (Hn0 : 0 <= inject_Z (Z.of_nat n)).
  { change 0 with (inject_Z 0). rewrite <- Zle_Qle. lia. }
  split.
  - intros Hn. pose proof (Hslo Hn). pose proof (Hfhi Hn).
    assert (Hn1 : 1 <= inject_Z (Z.of_nat n)).
    { change 1 with (inject_Z 1). rewrite <- Zle_Qle. lia. }
    split; split; try done.
    + destruct Hshi; lra.
    + destruct Hflo; lra.
  - intros Hn.
    assert (Hn9 : 9 <= inject_Z (Z.of_nat n)).
    { change 9 with (inject_Z 9). rewrite <- Zle_Qle. lia. }
    assert (Hn1 : (1 <= n)%nat) by lia.
    pose proof (Hslo Hn1). pose proof (Hfhi Hn1).
    split; apply Qle_antisym; try done.
    + destruct Hshi; lra.
    + destruct Hflo; lra.
Qed.

Lemma adapt_reaches_floor_and_ceiling_witness :
  let g := NeuronGate.setThreshold 1 (NeuronGate.createGate NeuronGate.AND "g") in
  0 <= NeuronGate.threshold g <= 1
  /\ NeuronGate.getThreshold (Nat.iter 9 (NeuronGate.adapt true) g) == 0.1
  /\ NeuronGate.getThreshold (NeuronGate.adapt false g) <= 0.9.
Proof.
  cbv zeta.
  set (g := NeuronGate.setThreshold 1 (NeuronGate.createGate NeuronGate.AND "g")).
  assert (Hb : 0 <= NeuronGate.threshold g <= 1) by (split; discriminate).
  split; [exact Hb|]. split.
  - exact (proj1 (proj2 (adapt_reaches_floor_and_ceiling g 9 Hb eq_refl)
                    (le_n 9))).
  - exact (proj2 (proj2 (proj1 (adapt_reaches_floor_and_ceiling g 1 Hb eq_refl)
                           (le_n 1)))).
Defined.


(** ** What a cascade leaves alone *)

Lemma updatedPotential_range `{Platform} p processed :
  0 <= Neuron.updatedPotential p processed
  /\ Neuron.updatedPotential p processed <= 1.
Proof.
  unfold Neuron.updatedPotential. cbv zeta.
  set (q := p + _ / _).
  destruct (Qltb q 0) eqn:E0.
  - change (Qltb 1 0) with false. cbv iota. split; discriminate.
  - apply Qltb_ge in E0. destruct (Qltb 1 q) eqn:E1.
    + split; discriminate.
    + apply Qltb_ge in E1. by split.
Qed.

Section Evolves.
Context `{Platform}.
Variable R : Neuron.t -> Neuron.t -> Prop.
Hypothesis R_refl : forall n, R n n.
Hypothesis R_trans : forall a b c, R a b -> R b c -> R a c.
Hypothesis R_state : forall n st, R n (Neuron.with_state st n).
Hypothesis R_potential :
  forall n p, 0 <= p -> p <= 1 -> R n (Neuron.with_potential p n).
Hypothesis R_inputSignals : forall n v, R n (Neuron.with_inputSignals v n).
Hypothesis R_outputSignals :
  forall n v,
    R n (Neuron.with_outputSignals (Neuron.outputSignals n ++ v) n).

Lemma evolves_refl w : evolves R w w.
Proof using R_refl. intros m n Hn. by eauto. Qed.

Lemma evolves_trans w1 w2 w3 :
  evolves R w1 w2 -> evolves R w2 w3 -> evolves R w1 w3.
Proof using R_trans.
  intros H12 H23 m n Hn.
  destruct (H12 m n Hn) as (n2 & Hn2 & HR2).
  destruct (H23 m n2 Hn2) as (n3 & Hn3 & HR3). by eauto.
Qed.

Lemma evolves_put l w n n' :
  Neuron.heap w !! l = Some n -> R n n' -> evolves R w (Neuron.put l n' w).
Proof using R_refl.
  intros Hl HR m nm Hm. cbn. destruct (decide (m = l)) as [->|Hne].
  - rewrite lookup_insert_eq. rewrite Hl in Hm. injection Hm as <-. by eauto.
  - rewrite lookup_insert_ne by done. by eauto.
Qed.

Lemma evolves_emit evs w : evolves R w (Neuron.emit evs w).
Proof using R_refl. intros m n Hn. by eauto. Qed.

Lemma evolves_minted k w : evolves R w (Neuron.with_minted k w).
Proof using R_refl. intros m n Hn. by eauto. Qed.

Lemma setState_evolves l st w w' :
  Neuron.setState l st w = Ret w' -> evolves R w w'.
Proof using R_refl R_trans R_state.
  unfold Neuron.setState. intros (n & Hn & Hr)%bind_Ret_inv.
  apply get_Ret in Hn. injection Hr as <-.
  eapply evolves_trans; [|apply evolves_emit].
  by apply (evolves_put l w n).
Qed.

Variable recv : loc -> option Synapse.t -> Neuron.Store -> res Neuron.Store.
Hypothesis recv_evolves :
  forall t s w w', recv t s w = Ret w' -> evolves R w w'.

Lemma fire_evolves t w w' :
  Neuron.fire_with recv t w = Ret w' -> evolves R w w'.
Proof using R_refl R_trans R_outputSignals recv_evolves.
  unfold Neuron.fire_with. intros (n & Hn & Hr)%bind_Ret_inv.
  apply get_Ret in Hn.
  apply bind_Ret_inv in Hr as (w2 & Hloop & Hr).
  apply bind_Ret_inv in Hr as (n2 & _ & Hr). injection Hr as <-.
  eapply evolves_trans; [|apply evolves_emit].
  revert Hloop. apply (forM_invariant (fun s => evolves R w s)).
  - intros [u weight] s s' _ Hs (n' & _ & Hedge)%bind_Ret_inv.
    revert Hedge. apply (forM_invariant (fun s => evolves R w s));
      [|exact Hs].
    intros sig s1 s2 _ Hs1 Hd. unfold Neuron.deliver in Hd.
    apply bind_Ret_inv in Hd as (tn & _ & Hd). apply recv_evolves in Hd.
    eapply evolves_trans; [exact Hs1|].
    eapply evolves_trans; [apply evolves_minted | exact Hd].
  - destruct (Neuron.outputSignals n) eqn:Eout; [|apply evolves_refl].
    apply (evolves_put t w n); [done|].
    pose proof (R_outputSignals n [Neuron.defaultOutput n]) as HR.
    by rewrite Eout in HR.
Qed.

Lemma processSignals_evolves t w w' :
  Neuron.processSignals_with recv t w = Ret w' -> evolves R w w'.
Proof using R_refl R_trans R_state R_potential R_inputSignals
  R_outputSignals recv_evolves.
  unfold Neuron.processSignals_with. intros (n & Hn & Hr)%bind_Ret_inv.
  apply get_Ret in Hn.
  destruct (Neuron.blocked (Neuron.state n)).
  { injection Hr as <-. apply evolves_refl. }
  destruct (Neuron.inputSignals n) as [|s0 buf] eqn:Ebuf.
  { injection Hr as <-. apply evolves_refl. }
  destruct (Neuron.runPipeline (Neuron.gates n) (s0 :: buf) (Neuron.minted w))
    as [processed k].
  apply bind_Ret_inv in Hr as (w3 & Hmid & Hr).
  apply bind_Ret_inv in Hr as (n3 & Hn3 & Hr). injection Hr as <-.
  apply get_Ret in Hn3.
  set (p := Neuron.updatedPotential (Neuron.potential n) processed) in *.
  set (n1 := Neuron.with_potential p (Neuron.with_inputSignals [] n)) in *.
  assert (Hw1 : evolves R w (Neuron.put t n1 (Neuron.with_minted k w))).
  { apply (evolves_put t (Neuron.with_minted k w) n); [done|].
    eapply R_trans; [apply (R_inputSignals n [])|].
    apply R_potential; apply updatedPotential_range. }
  eapply evolves_trans;
    [|apply (evolves_put t w3 n3); [done | apply R_outputSignals]].
  eapply evolves_trans; [exact Hw1|].
  destruct (negb (Qltb p (Neuron.threshold n))).
  2: { injection Hmid as <-. apply evolves_refl. }
  apply bind_Ret_inv in Hmid as (wa & Ha & Hmid).
  apply bind_Ret_inv in Hmid as (wb & Hb & Hmid).
  apply bind_Ret_inv in Hmid as (nb & Hnb & Hmid).
  apply get_Ret in Hnb.
  apply fire_evolves in Ha. apply setState_evolves in Hb.
  apply setState_evolves in Hmid.
  eapply evolves_trans; [exact Ha|].
  eapply evolves_trans; [exact Hb|].
  eapply evolves_trans; [|exact Hmid].
  apply (evolves_put t wb nb); [done|].
  apply R_potential; [apply Qle_refl | discriminate].
Qed.

End Evolves.

Section EvolvesCascade.
Context `{Platform}.
Variable R : Neuron.t -> Neuron.t -> Prop.
Hypothesis R_refl : forall n, R n n.
Hypothesis R_trans : forall a b c, R a b -> R b c -> R a c.
Hypothesis R_state : forall n st, R n (Neuron.with_state st n).
Hypothesis R_potential :
  forall n p, 0 <= p -> p <= 1 -> R n (Neuron.with_potential p n).
Hypothesis R_inputSignals : forall n v, R n (Neuron.with_inputSignals v n).
Hypothesis R_outputSignals :
  forall n v,
    R n (Neuron.with_outputSignals (Neuron.outputSignals n ++ v) n).

Lemma receiveSignal_evolves fuel :
  forall t s w w',
    Neuron.receiveSignal fuel t s w = Ret w' -> evolves R w w'.
Proof using All.
  induction fuel as [|fuel IH]; intros t s w w' Hr; [done|].
  cbn [Neuron.receiveSignal] in Hr. destruct s as [s|].
  - apply bind_Ret_inv in Hr as (n & Hn & Hr). apply get_Ret in Hn.
    apply (processSignals_evolves R R_refl R_trans R_state R_potential
             R_inputSignals R_outputSignals _ IH) in Hr.
    eapply evolves_trans; [exact R_trans | | exact Hr].
    apply (evolves_put R R_refl t w n); [done | apply R_inputSignals].
  - injection Hr as <-. by apply evolves_refl.
Qed.

Lemma neuron_processSignals_evolves fuel t w w' :
  Neuron.processSignals fuel t w = Ret w' -> evolves R w w'.
Proof using All.
  apply (processSignals_evolves R R_refl R_trans R_state R_potential
           R_inputSignals R_outputSignals).
  apply receiveSignal_evolves.
Qed.

Lemma neuron_fire_evolves fuel t w w' :
  Neuron.fire fuel t w = Ret w' -> evolves R w w'.
Proof using All.
  apply (fire_evolves R R_refl R_trans R_outputSignals).
  apply receiveSignal_evolves.
Qed.

End EvolvesCascade.

Lemma same_wiring_refl n : same_wiring n n.
Proof. by repeat split. Qed.

Lemma same_wiring_trans a b c :
  same_wiring a b -> same_wiring b c -> same_wiring a c.
Proof.
  unfold same_wiring.
  intros (? & ? & ? & ? & ? & ? & ? & ? & ? & ?)
         (? & ? & ? & ? & ? & ? & ? & ? & ? & ?).
  repeat split; congruence.
Qed.

Lemma outputs_grow_trans a b c :
  outputs_grow a b -> outputs_grow b c -> outputs_grow a c.
Proof. unfold outputs_grow. intros Hab Hbc. by etrans. Qed.

Section CascadeInvariants.
Context `{Platform}.

(** X13. Signal processing writes to a neuron's state, potential and
    signal buffers only, and never takes a stored output signal away: a
    cascade, however far it spreads, leaves every neuron with the
    identifier, type, threshold, edges, back-references, tags, metadata,
    gates and listeners it had, and with the output signals it had, in
    order, new ones behind them (so a neuron that fires again sends its
    earlier output signals again). *)
Theorem cascade_keeps_wiring_and_outputs fuel t s w w' :
  Neuron.receiveSignal fuel t s w = Ret w' ->
  evolves (fun n n' => same_wiring n n' /\ outputs_grow n n') w w'.
Proof.
  apply (receiveSignal_evolves
           (fun n n' => same_wiring n n' /\ outputs_grow n n')).
  - intros n. split; [apply same_wiring_refl | by unfold outputs_grow].
  - intros a b c [Hab Hab'] [Hbc Hbc']. split.
    + by apply same_wiring_trans with b.
    + by apply outputs_grow_trans with b.
  - intros n st. split; [by repeat split | by unfold outputs_grow].
  - intros n p _ _. split; [by repeat split | by unfold outputs_grow].
  - intros n v. split; [by repeat split | by unfold outputs_grow].
  - intros n v. split; [by repeat split|].
    unfold outputs_grow. cbn. by apply prefix_app_r.
Qed.


End CascadeInvariants.

Lemma cascade_keeps_wiring_and_outputs_witness :
  exists w',
    Scenario.end_to_end = Ret w'
    /\ evolves (fun n n' => same_wiring n n' /\ outputs_grow n n')
         (Scenario.connected 0.9) w'.
Proof.
  destruct Scenario.end_to_end as [w'| |] eqn:E.
  - exists w'. split; [reflexivity|].
    exact (cascade_keeps_wiring_and_outputs (H := Decimal.platform) 2
             Scenario.A _ (Scenario.connected 0.9) w' E).
  - exfalso. vm_compute in E. discriminate E.
  - exfalso. vm_compute in E. discriminate E.
Defined.



(** ** A neuron that cannot process, and the gate pipeline *)

Lemma put_same l n w :
  Neuron.heap w !! l = Some n -> Neuron.put l n w = w.
Proof.
  intros Hn. destruct w as [heap trace minted]. unfold Neuron.put. cbn in *.
  by rewrite insert_id.
Qed.

Lemma put_put l n n' w :
  Neuron.put l n' (Neuron.put l n w) = Neuron.put l n' w.
Proof. unfold Neuron.put. cbn. by rewrite insert_insert_eq. Qed.

Section Buffering.
Context `{Platform}.

(** X15. A neuron in the REFRACTORY or INHIBITED state only buffers what
    it receives: each signal joins the input buffer, in order; the
    potential, the stored outputs and every other neuron stay as they are,
    and no listener runs. *)
Theorem blocked_neuron_only_buffers fuel l w n signals :
  Neuron.heap w !! l = Some n ->
  Neuron.blocked (Neuron.getState n) = true ->
  forM (fun s w => Neuron.receiveSignal (S fuel) l (Some s) w) signals w
  = Ret (Neuron.put l
           (Neuron.with_inputSignals (Neuron.inputSignals n ++ signals) n) w).
Proof.
  unfold Neuron.getState. revert w n.
  induction signals as [|s signals IH]; intros w n Hn Hb.
  - cbn [forM]. rewrite app_nil_r. f_equal. symmetry.
    apply put_same. rewrite Hn. by destruct n.
  - cbn [forM Neuron.receiveSignal].
    rewrite (proj2 (get_Ret l w n) Hn). cbn [mbind res_bind].
    unfold Neuron.processSignals_with. rewrite get_put_eq.
    cbn [mbind res_bind]. cbn [Neuron.with_inputSignals Neuron.state].
    rewrite Hb. cbn [mbind res_bind].
    rewrite (IH _ (Neuron.with_inputSignals (Neuron.inputSignals n ++ [s]) n)).
    + rewrite put_put. cbn [Neuron.with_inputSignals Neuron.inputSignals].
      by rewrite <- app_assoc.
    + apply lookup_insert_eq.
    + exact Hb.
Qed.

Lemma runGates_minted gs signal k :
  (k <= (Neuron.runGates gs signal k).2
   /\ (Neuron.runGates gs signal k).2 <= S k)%nat.
Proof.
  induction gs as [|g gs' IH]; cbn [Neuron.runGates].
  - cbn. lia.
  - destruct (NeuronGate.isActive g); [|exact IH].
    destruct (NeuronGate.process g (generateUUID k) [Some signal]);
      [cbn; lia | exact IH].
Qed.

Lemma runPipeline_length gs signals k :
  length (Neuron.runPipeline gs signals k).1 = length signals
  /\ (k <= (Neuron.runPipeline gs signals k).2
      /\ (Neuron.runPipeline gs signals k).2 <= k + length signals)%nat.
Proof.
  revert k. induction signals as [|signal rest IH]; intros k.
  - cbn. lia.
  - cbn [Neuron.runPipeline].
    pose proof (runGates_minted gs signal k) as Hk.
    destruct (Neuron.runGates gs signal k) as [out k1].
    destruct (IH k1) as (Hlen & Hlo & Hhi).
    destruct (Neuron.runPipeline gs rest k1) as [outs k2].
    cbn [fst snd length] in *. lia.
Qed.

(** X16. The gate loop of [processSignals]: a buffered signal is claimed
    by the first active gate that answers it, and the gates behind that
    one are not consulted; a signal no active gate answers passes through
    as it is.  So a buffer becomes exactly one processed signal per
    buffered signal, with at most one identifier minted for each. *)
Theorem first_answering_gate_claims_signal gs signal signals k :
  (let '(out, k') := Neuron.runGates gs signal k in
   (k' = k /\ out = signal
    /\ forall g, g ∈ gs -> NeuronGate.isActive g = true ->
                 NeuronGate.process g (generateUUID k) [Some signal] = None)
   \/ (k' = S k
       /\ exists pre g post,
            gs = pre ++ g :: post
            /\ NeuronGate.isActive g = true
            /\ NeuronGate.process g (generateUUID k) [Some signal] = Some out
            /\ forall g', g' ∈ pre -> NeuronGate.isActive g' = true ->
                 NeuronGate.process g' (generateUUID k) [Some signal] = None))
  /\ length (Neuron.runPipeline gs signals k).1 = length signals
  /\ (k <= (Neuron.runPipeline gs signals k).2
      /\ (Neuron.runPipeline gs signals k).2 <= k + length signals)%nat.
Proof.
  split; [|apply runPipeline_length].
  induction gs as [|g gs' IH]; cbn [Neuron.runGates].
  - left. repeat split. intros g Hg. by apply elem_of_nil in Hg.
  - destruct (Neuron.runGates gs' signal k) as [out k'].
    assert (Hskip :
              NeuronGate.isActive g = false
              \/ NeuronGate.process g (generateUUID k) [Some signal] = None ->
              (k' = k /\ out = signal
               /\ forall g0, g0 ∈ g :: gs' -> NeuronGate.isActive g0 = true ->
                    NeuronGate.process g0 (generateUUID k) [Some signal] = None)
              \/ (k' = S k
                  /\ exists pre g0 post,
                       g :: gs' = pre ++ g0 :: post
                       /\ NeuronGate.isActive g0 = true
                       /\ NeuronGate.process g0 (generateUUID k) [Some signal]
                          = Some out
                       /\ forall g', g' ∈ pre -> NeuronGate.isActive g' = true ->
                            NeuronGate.process g' (generateUUID k) [Some signal]
                            = None)).
    { intros Hg.
      destruct IH as [(-> & -> & Hnone)
                     | (-> & pre & g0 & post & -> & Hact & Hout & Hpre)].
      - left. repeat split. intros g0 [->|Hg0]%elem_of_cons Hact.
        + destruct Hg as [Hg|Hg]; [congruence | done].
        + by apply Hnone.
      - right. split; [done|]. exists (g :: pre), g0, post.
        repeat split; try done.
        intros g' [->|Hg']%elem_of_cons Hact'.
        + destruct Hg as [Hg|Hg]; [congruence | done].
        + by apply Hpre. }
    destruct (NeuronGate.isActive g) eqn:Eact; [|apply Hskip; by left].
    destruct (NeuronGate.process g (generateUUID k) [Some signal])
      as [result|] eqn:Eres; [|apply Hskip; by right].
    right. split; [done|]. exists [], g, gs'. repeat split; try done.
    intros g' Hg'. by apply elem_of_nil in Hg'.
Qed.

End Buffering.

Lemma blocked_neuron_only_buffers_witness :
  exists w n,
    Neuron.setState Scenario.A Neuron.INHIBITED Scenario.unconnected = Ret w
    /\ Neuron.heap w !! Scenario.A = Some n
    /\ Neuron.receiveSignal (H := Decimal.platform) 1 Scenario.A
         (Some (Scenario.stimulus 1)) w
       = Ret (Neuron.put Scenario.A
                (Neuron.with_inputSignals [Scenario.stimulus 1] n) w).
Proof.
  destruct (Neuron.setState Scenario.A Neuron.INHIBITED Scenario.unconnected)
    as [w| |] eqn:Ew.
  2, 3: exfalso; vm_compute in Ew; discriminate Ew.
  destruct (Neuron.heap w !! Scenario.A) as [n|] eqn:En.
  2: { exfalso. vm_compute in Ew. injection Ew as <-.
       vm_compute in En. discriminate En. }
  assert (Hb : Neuron.blocked (Neuron.getState n) = true).
  { vm_compute in Ew. injection Ew as <-.
    vm_compute in En. injection En as <-. reflexivity. }
  assert (Hin : Neuron.inputSignals n = []).
  { vm_compute in Ew. injection Ew as <-.
    vm_compute in En. injection En as <-. reflexivity. }
  exists w, n. split; [reflexivity|]. split; [exact En|].
  pose proof (blocked_neuron_only_buffers (H := Decimal.platform) 0
                Scenario.A w n [Scenario.stimulus 1] En Hb) as Hrun.
  cbn [forM] in Hrun. rewrite Hin in Hrun.
  destruct (Neuron.receiveSignal 1 Scenario.A
              (Some (Scenario.stimulus 1)) w) as [w1| |];
    [|discriminate Hrun|discriminate Hrun].
  exact Hrun.
Defined.

(** ** Edges and their weights *)

(** X17. Connecting and disconnecting again gives the store back: on a
    store whose edges and back-references mirror each other, a new edge
    followed by its removal leaves every neuron as it was. *)
Theorem connect_then_disconnect_restores w l t nl nt weight :
  Neuron.wf_links w ->
  Neuron.heap w !! l = Some nl ->
  Neuron.heap w !! t = Some nt ->
  t <> l ->
  ~ Neuron.linked w l t ->
  exists w1,
    Neuron.connectTo l (Some t) weight w = Ret (true, w1)
    /\ Neuron.linked w1 l t
    /\ Neuron.backref w1 l t
    /\ Neuron.disconnectFrom l (Some t) w1 = Ret (true, w).
Proof.
  intros Hwf Hl Ht Hne Hnot.
  assert (Hc : Neuron.connections nl !! t = None).
  { destruct (Neuron.connections nl !! t) eqn:E; [|done].
    exfalso. apply Hnot. apply (linked_intro w l t nl); [done | by eexists]. }
  assert (Hnotin : l ∉ Neuron.inputs nt).
  { intros Hin. apply Hnot. apply (Neuron.wf_mirror w Hwf).
    by apply (backref_intro w l t nt). }
  rewrite (connectTo_result l t weight w nl nt) by done.
  rewrite Hc.
  set (nl1 := Neuron.with_connections (<[t := weight]> (Neuron.connections nl)) nl).
  set (nt1 := Neuron.with_inputs (Neuron.inputs nt ++ [l]) nt).
  set (w1 := Neuron.mkStore _ _ _).
  assert (Hl1 : Neuron.heap w1 !! l = Some nl1).
  { subst w1. cbn. rewrite lookup_insert_ne by done. apply lookup_insert_eq. }
  assert (Ht1 : Neuron.heap w1 !! t = Some nt1).
  { subst w1. cbn. apply lookup_insert_eq. }
  exists w1. split; [done|].
  split.
  { apply (linked_intro w1 l t nl1); [done|].
    subst nl1. cbn. rewrite lookup_insert_eq. by eexists. }
  split.
  { apply (backref_intro w1 l t nt1); [done|].
    subst nt1. cbn. apply elem_of_app. right. by apply list_elem_of_singleton. }
  rewrite (disconnectFrom_result l t w1 nl1 nt1); try done.
  2: { subst nl1. cbn. rewrite lookup_insert_eq. by eexists. }
  f_equal. f_equal. destruct w as [heap trace minted].
  cbn [Neuron.heap Neuron.trace Neuron.minted] in *.
  subst w1. cbn [Neuron.heap Neuron.trace Neuron.minted]. f_equal.
  assert (Hkept :
            filter (fun x => is_Some (<[t := nt1]> (<[l := nl1]> heap) !! x)
                             /\ x <> l)
                   (Neuron.inputs nt1)
            = Neuron.inputs nt).
  { subst nt1. cbn [Neuron.with_inputs Neuron.inputs].
    rewrite filter_app. rewrite filter_all.
    - rewrite filter_none; [by rewrite app_nil_r|].
      intros x ->%list_elem_of_singleton [_ Hx]. done.
    - intros x Hx. split; [|intros ->; done].
      destruct (wf_inputs_alive _ t nt x Hwf Ht Hx) as [nx Hnx].
      cbn in Hnx.
      destruct (decide (x = t)) as [->|Hxt];
        [rewrite lookup_insert_eq; by eexists|].
      rewrite lookup_insert_ne by done.
      destruct (decide (x = l)) as [->|Hxl];
        [rewrite lookup_insert_eq; by eexists|].
      rewrite lookup_insert_ne by done. by eexists. }
  rewrite Hkept.
  assert (Neuron.with_inputs (Neuron.inputs nt) nt1 = nt) as ->
    by (subst nt1; by destruct nt).
  assert (Neuron.with_connections (delete t (Neuron.connections nl1)) nl1 = nl)
    as ->.
  { subst nl1. cbn [Neuron.with_connections Neuron.connections].
    rewrite delete_insert_id by done. by destruct nl. }
  rewrite insert_insert_ne by done.
  rewrite insert_insert_eq.
  rewrite (insert_insert_ne _ l t) by done.
  rewrite insert_insert_eq.
  rewrite (insert_id _ l nl) by done. by rewrite insert_id.
Qed.

Lemma connect_then_disconnect_restores_witness :
  exists w1,
    Neuron.connectTo Scenario.A (Some Scenario.B) 0.9 Scenario.unconnected
    = Ret (true, w1)
    /\ Neuron.disconnectFrom Scenario.A (Some Scenario.B) w1
       = Ret (true, Scenario.unconnected).
Proof.
  destruct (connect_then_disconnect_restores Scenario.unconnected
              Scenario.A Scenario.B _ _ 0.9 wf_unconnected
              (eq_refl : _ = Some (Neuron.with_fireCallbacks [0%nat]
                                     (Neuron.new "A" Neuron.PROCESSING)))
              (eq_refl : _ = Some (Neuron.with_fireCallbacks [0%nat]
                                     (Neuron.new "B" Neuron.PROCESSING))))
    as (w1 & Hc & _ & _ & Hd).
  - discriminate.
  - intros [x Hx]. vm_compute in Hx. discriminate Hx.
  - exists w1. by split.
Defined.

(** X18. [setConnectionWeight] writes to an existing edge only: it
    answers [true] exactly when the edge exists, it never adds or removes
    an edge or a back-reference, and on a missing edge it leaves the store
    as it is (where [getConnectionWeight] reads [0]). *)
Theorem setConnectionWeight_touches_existing_edges_only w l t n weight :
  Neuron.heap w !! l = Some n ->
  exists b w',
    Neuron.setConnectionWeight l t weight w = Ret (b, w')
    /\ (b = true <-> Neuron.linked w l t)
    /\ (forall a c, Neuron.linked w' a c <-> Neuron.linked w a c)
    /\ (forall m, Neuron.inputs_of w' m = Neuron.inputs_of w m)
    /\ (b = true -> Neuron.links_of w' l !! t = Some weight)
    /\ (b = false -> w' = w /\ Neuron.getConnectionWeight t n = 0).
Proof.
  intros Hn. unfold Neuron.setConnectionWeight.
  rewrite (proj2 (get_Ret l w n) Hn). cbn [mbind res_bind].
  assert (Hlinks : Neuron.links_of w l = Neuron.connections n)
    by (unfold Neuron.links_of; by rewrite Hn).
  destruct (Neuron.connections n !! t) as [old|] eqn:Eold.
  - eexists _, _. split; [reflexivity|].
    split.
    { split; [intros _ | done]. unfold Neuron.linked. rewrite Hlinks.
      by eexists. }
    split.
    { intros a c. unfold Neuron.linked, Neuron.links_of. cbn.
      destruct (decide (a = l)) as [->|Hne].
      - rewrite lookup_insert_eq, Hn. cbn.
        destruct (decide (c = t)) as [->|Hct].
        + rewrite lookup_insert_eq, Eold. split; intros _; by eexists.
        + by rewrite lookup_insert_ne.
      - by rewrite lookup_insert_ne. }
    split.
    { intros m. unfold Neuron.inputs_of. cbn.
      destruct (decide (m = l)) as [->|Hne].
      - by rewrite lookup_insert_eq, Hn.
      - by rewrite lookup_insert_ne. }
    split; [|done].
    intros _. unfold Neuron.links_of. cbn. rewrite lookup_insert_eq. cbn.
    apply lookup_insert_eq.
  - exists false, w. split; [reflexivity|].
    split.
    { split; [done|]. unfold Neuron.linked. rewrite Hlinks, Eold.
      by intros [? ?]. }
    split; [done|]. split; [done|]. split; [done|].
    intros _. split; [done|]. unfold Neuron.getConnectionWeight.
    by rewrite Eold.
Qed.

Lemma setConnectionWeight_touches_existing_edges_only_witness :
  exists w',
    Neuron.setConnectionWeight Scenario.A Scenario.B 2 (Scenario.connected 0.9)
    = Ret (true, w')
    /\ Neuron.links_of w' Scenario.A !! Scenario.B = Some 2
    /\ Neuron.setConnectionWeight Scenario.B Scenario.A 2
         (Scenario.connected 0.9)
       = Ret (false, Scenario.connected 0.9).
Proof.
  destruct (Neuron.heap (Scenario.connected 0.9) !! Scenario.A)
    as [na|] eqn:Ea; [|vm_compute in Ea; discriminate Ea].
  destruct (Neuron.heap (Scenario.connected 0.9) !! Scenario.B)
    as [nb|] eqn:Eb; [|vm_compute in Eb; discriminate Eb].
  destruct (setConnectionWeight_touches_existing_edges_only
              (Scenario.connected 0.9) Scenario.A Scenario.B na 2 Ea)
    as (b & w' & Hr & Hb & _ & _ & Hw & _).
  destruct (setConnectionWeight_touches_existing_edges_only
              (Scenario.connected 0.9) Scenario.B Scenario.A nb 2 Eb)
    as (b2 & w2 & Hr2 & Hb2 & _ & _ & _ & Hsame).
  assert (b = true) as ->.
  { apply Hb. apply (wf_connected 0.9). }
  assert (b2 = false) as ->.
  { destruct b2; [|done]. exfalso.
    destruct (proj1 Hb2 eq_refl) as [x Hx]. vm_compute in Hx. discriminate Hx. }
  destruct (Hsame eq_refl) as [-> _].
  exists w'. split; [exact Hr|]. split; [exact (Hw eq_refl) | exact Hr2].
Defined.

(** ** The output a neuron makes up when it has none *)

Section DefaultOutput.
Context `{Platform}.

Lemma fire_after_default recv l w n :
  Neuron.heap w !! l = Some n ->
  Neuron.outputSignals n = [] ->
  Neuron.fire_with recv l w
  = Neuron.fire_with recv l
      (Neuron.put l (Neuron.with_outputSignals [Neuron.defaultOutput n] n) w).
Proof.
  intros Hn Hout. unfold Neuron.fire_with.
  rewrite (proj2 (get_Ret l w n) Hn), get_put_eq. cbn [mbind res_bind].
  rewrite Hout. cbn [Neuron.with_outputSignals Neuron.outputSignals
                       Neuron.connections].
  reflexivity.
Qed.

Lemma fire_outputs_grow fuel t w w' :
  Neuron.fire fuel t w = Ret w' -> evolves outputs_grow w w'.
Proof.
  apply (neuron_fire_evolves outputs_grow).
  - intros n. unfold outputs_grow. done.
  - apply outputs_grow_trans.
  - intros n st. unfold outputs_grow. done.
  - intros n p _ _. unfold outputs_grow. done.
  - intros n v. unfold outputs_grow. done.
  - intros n v. unfold outputs_grow. cbn. by apply prefix_app_r.
Qed.

Lemma fire_same_wiring fuel t w w' :
  Neuron.fire fuel t w = Ret w' -> evolves same_wiring w w'.
Proof.
  apply (neuron_fire_evolves same_wiring).
  - apply same_wiring_refl.
  - apply same_wiring_trans.
  - intros n st. by repeat split.
  - intros n p _ _. by repeat split.
  - intros n v. by repeat split.
  - intros n v. by repeat split.
Qed.

(** X19. A neuron that fires with no stored output signal makes one up: a
    signal named after the neuron, of strength 1, whose payload names the
    neuron under [source] and gives its potential as text under
    [strength].  That signal is stored first among the neuron's outputs,
    and the fire listeners run once, after all deliveries. *)
Theorem fire_synthesises_default_output fuel l w n w' :
  Neuron.heap w !! l = Some n ->
  Neuron.outputSignals n = [] ->
  Neuron.fire fuel l w = Ret w' ->
  exists n' before,
    Neuron.heap w' !! l = Some n'
    /\ [Neuron.defaultOutput n] `prefix_of` Neuron.outputSignals n'
    /\ Neuron.trace w'
       = before ++ map (Neuron.Fired l) (Neuron.fireCallbacks n)
    /\ Synapse.getId (Neuron.defaultOutput n) = Neuron.getId n +:+ "_output"
    /\ Synapse.getStrength (Neuron.defaultOutput n) == 1
    /\ Synapse.getData "source" (Neuron.defaultOutput n) = Neuron.getId n
    /\ Synapse.getData "strength" (Neuron.defaultOutput n)
       = to_string (Neuron.getPotential n).
Proof.
  intros Hn Hout Hfire.
  pose proof Hfire as Hfire0. unfold Neuron.fire in Hfire0.
  rewrite (fire_after_default _ l w n Hn Hout) in Hfire0.
  set (n0 := Neuron.with_outputSignals [Neuron.defaultOutput n] n) in *.
  set (w0 := Neuron.put l n0 w) in *.
  assert (Hn0 : Neuron.heap w0 !! l = Some n0) by apply lookup_insert_eq.
  (* the stored outputs grow from the made-up signal on *)
  assert (Hgrow : evolves outputs_grow w0 w')
    by (by apply (fire_outputs_grow fuel l)).
  destruct (Hgrow l n0 Hn0) as (n' & Hn' & Hpre).
  (* the listeners are those the neuron had *)
  assert (Hwire : evolves same_wiring w w')
    by (by apply (fire_same_wiring fuel l)).
  destruct (Hwire l n Hn) as (n2 & Hn2 & Hsame).
  rewrite Hn' in Hn2. injection Hn2 as <-.
  destruct Hsame as (_ & _ & _ & _ & _ & _ & _ & _ & Hcbs & _).
  (* the trace ends with their calls *)
  unfold Neuron.fire, Neuron.fire_with in Hfire.
  apply bind_Ret_inv in Hfire as (n1 & _ & Hfire).
  apply bind_Ret_inv in Hfire as (w2 & _ & Hfire).
  apply bind_Ret_inv in Hfire as (n3 & Hn3 & Hfire).
  apply get_Ret in Hn3. injection Hfire as <-.
  cbn in Hn'. rewrite Hn3 in Hn'. injection Hn' as ->.
  exists n', (Neuron.trace w2). split; [done|]. split; [exact Hpre|].
  split; [cbn; by rewrite Hcbs|].
  unfold Neuron.defaultOutput, Neuron.getId, Neuron.getPotential,
    Synapse.getData.
  cbn [Synapse.setData Synapse.stringPayload Synapse.getId Synapse.id
         Synapse.new Synapse.getStrength Synapse.strength].
  split; [done|]. split; [reflexivity|].
  rewrite lookup_insert_ne by done. by rewrite !lookup_insert_eq.
Qed.

End DefaultOutput.

Lemma fire_synthesises_default_output_witness :
  exists n w' n',
    Neuron.heap (Scenario.connected 0.9) !! Scenario.A = Some n
    /\ Neuron.outputSignals n = []
    /\ Neuron.fire (H := Decimal.platform) 2 Scenario.A
         (Scenario.connected 0.9) = Ret w'
    /\ Neuron.heap w' !! Scenario.A = Some n'
    /\ [Neuron.defaultOutput (H := Decimal.platform) n]
       `prefix_of` Neuron.outputSignals n'.
Proof.
  destruct (Neuron.heap (Scenario.connected 0.9) !! Scenario.A)
    as [n|] eqn:En; [|vm_compute in En; discriminate En].
  assert (Hout : Neuron.outputSignals n = []).
  { vm_compute in En. by injection En as <-. }
  destruct (Neuron.fire (H := Decimal.platform) 2 Scenario.A
              (Scenario.connected 0.9)) as [w'| |] eqn:Ef.
  2, 3: exfalso; vm_compute in Ef; discriminate Ef.
  destruct (fire_synthesises_default_output (H := Decimal.platform) 2
              Scenario.A (Scenario.connected 0.9) n w' En Hout Ef)
    as (n' & before & Hn' & Hpre & _).
  exists n, w', n'. by repeat split.
Defined.


(** ** A pass of the network *)

Section EvolvesNetwork.
Context `{Platform}.
Variable R : Neuron.t -> Neuron.t -> Prop.
Hypothesis R_refl : forall n, R n n.
Hypothesis R_trans : forall a b c, R a b -> R b c -> R a c.
Hypothesis R_state : forall n st, R n (Neuron.with_state st n).
Hypothesis R_potential :
  forall n p, 0 <= p -> p <= 1 -> R n (Neuron.with_potential p n).
Hypothesis R_inputSignals : forall n v, R n (Neuron.with_inputSignals v n).
Hypothesis R_outputSignals :
  forall n v,
    R n (Neuron.with_outputSignals (Neuron.outputSignals n ++ v) n).

Lemma sweep_evolves fuel net w w' :
  Network.sweep fuel net w = Ret w' -> evolves R w w'.
Proof using All.
  assert (Hstep : forall l s s',
            evolves R w s -> Neuron.processSignals fuel l s = Ret s' ->
            evolves R w s').
  { intros l s s' Hs Hl. eapply evolves_trans; [exact R_trans | exact Hs |].
    revert Hl. by apply neuron_processSignals_evolves. }
  unfold Network.sweep.
  intros (w1 & H1 & Hr)%bind_Ret_inv.
  apply bind_Ret_inv in Hr as (w2 & H2 & H3).
  assert (E1 : evolves R w w1).
  { revert H1. apply (forM_invariant (fun s => evolves R w s)).
    - intros l s s' _. apply Hstep.
    - by apply evolves_refl. }
  assert (E2 : evolves R w w2).
  { revert H2. apply (forM_invariant (fun s => evolves R w s)); [|exact E1].
    intros l s s' _ Hs.
    destruct (bool_decide (l ∈ Network.inputNeurons net)
              || bool_decide (l ∈ Network.outputNeurons net)).
    - by intros [= <-].
    - by apply Hstep. }
  revert H3. apply (forM_invariant (fun s => evolves R w s)); [|exact E2].
  intros l s s' _. apply Hstep.
Qed.

Lemma pass_evolves fuel net w net' w' :
  Network.processSignals fuel (net, w) = Ret (net', w') ->
  net' = net /\ evolves R w w'.
Proof using All.
  destruct fuel as [|fuel]; [done|]. cbn [Network.processSignals].
  destruct (Network.processing net) eqn:Hp.
  { intros [= <- <-]. split; [done | by apply evolves_refl]. }
  intros (w1 & Hsweep & Hr)%bind_Ret_inv.
  apply bind_Ret_inv in Hr as ([net2 w2] & Hcbs & Hr).
  injection Hr as <- <-. cbn [fst snd].
  apply sweep_evolves in Hsweep.
  assert (Hinv : net2 = Network.with_processing true net /\ evolves R w w2).
  { revert Hcbs.
    apply (forM_invariant
             (fun st : Network.t * Neuron.Store =>
                st.1 = Network.with_processing true net /\ evolves R w st.2));
      [|by split].
    intros cb [neta wa] [netb wb] _ [Hneta Hwa]. cbn [fst snd] in *.
    subst neta. destruct cb as [k|].
    - intros [= <- <-]. split; [done|].
      eapply evolves_trans; [exact R_trans | exact Hwa |].
      by apply evolves_emit.
    - destruct fuel as [|fuel']; [done|].
      rewrite processSignals_in_flight by done. by intros [= <- <-]. }
  destruct Hinv as [-> Hw2]. split; [|exact Hw2].
  destruct net. cbn in *. by rewrite Hp.
Qed.

End EvolvesNetwork.

Section NetworkPass.
Context `{Platform}.

(** X20. A pass of [processSignals] over a network changes no
    registration and no wiring: the network comes back as it was (registry,
    layers, listeners, and the processing flag lowered again), every
    neuron keeps its identifier, type, threshold, edges, gates and
    listeners, and no stored output signal is taken away. *)
Theorem pass_changes_no_registration_and_no_wiring fuel net w net' w' :
  Network.processSignals fuel (net, w) = Ret (net', w') ->
  net' = net
  /\ evolves same_wiring w w'
  /\ evolves outputs_grow w w'.
Proof.
  intros Hpass.
  assert (Hwiring : net' = net /\ evolves same_wiring w w').
  { revert Hpass. apply (pass_evolves same_wiring).
    - apply same_wiring_refl.
    - apply same_wiring_trans.
    - intros n st. by repeat split.
    - intros n p _ _. by repeat split.
    - intros n v. by repeat split.
    - intros n v. by repeat split. }
  assert (Houtputs : net' = net /\ evolves outputs_grow w w').
  { revert Hpass. apply (pass_evolves outputs_grow).
    - intros n. unfold outputs_grow. done.
    - apply outputs_grow_trans.
    - intros n st. unfold outputs_grow. done.
    - intros n p _ _. unfold outputs_grow. done.
    - intros n v. unfold outputs_grow. done.
    - intros n v. unfold outputs_grow. cbn. by apply prefix_app_r. }
  destruct Hwiring as [Hnet Hwiring]. destruct Houtputs as [_ Houtputs].
  by repeat split.
Qed.

End NetworkPass.

Lemma pass_changes_no_registration_and_no_wiring_witness :
  exists w',
    Network.processSignals (H := Decimal.platform) 3
      (Network.onProcess Network.Reenter Scenario.net, Scenario.connected 0.9)
    = Ret (Network.onProcess Network.Reenter Scenario.net, w')
    /\ evolves same_wiring (Scenario.connected 0.9) w'.
Proof.
  destruct (Network.processSignals (H := Decimal.platform) 3
              (Network.onProcess Network.Reenter Scenario.net,
               Scenario.connected 0.9)) as [[net' w']| |] eqn:E.
  2, 3: exfalso; vm_compute in E; discriminate E.
  destruct (pass_changes_no_registration_and_no_wiring
              (H := Decimal.platform) 3 _ _ net' w' E) as (-> & Hw & _).
  exists w'. by split.
Defined.

Lemma emit_emit evs evs' w :
  Neuron.emit evs' (Neuron.emit evs w) = Neuron.emit (evs ++ evs') w.
Proof. unfold Neuron.emit. cbn. by rewrite <- app_assoc. Qed.

Lemma emit_nil w : Neuron.emit [] w = w.
Proof. destruct w. unfold Neuron.emit. cbn. by rewrite app_nil_r. Qed.

Lemma foldl_observed net cbs w :
  foldl (fun w cb =>
           match cb with
           | Network.Observer k =>
               Neuron.emit [Neuron.Processed (Network.id net) k] w
           | Network.Reenter => w
           end) w cbs
  = Neuron.emit
      (omap (fun cb =>
               match cb with
               | Network.Observer k =>
                   Some (Neuron.Processed (Network.id net) k)
               | Network.Reenter => None
               end) cbs) w.
Proof.
  revert w. induction cbs as [|cb cbs IH]; intros w; cbn [foldl omap].
  - by rewrite emit_nil.
  - rewrite IH. destruct cb as [k|]; [|done]. by rewrite emit_emit.
Qed.

Section QuiescentPass.
Context `{Platform}.

Lemma processSignals_quiescent fuel l w :
  quiescent w l -> Neuron.processSignals fuel l w = Ret w.
Proof.
  intros (n & Hn & Hq). unfold Neuron.processSignals, Neuron.processSignals_with.
  rewrite (proj2 (get_Ret l w n) Hn). cbn [mbind res_bind].
  destruct Hq as [Hq|Hq].
  - rewrite Hq. by destruct (Neuron.blocked (Neuron.state n)).
  - by rewrite Hq.
Qed.

Lemma forM_quiescent {A} (f : A -> Neuron.Store -> res Neuron.Store)
    (xs : list A) w :
  (forall x, x ∈ xs -> f x w = Ret w) -> forM f xs w = Ret w.
Proof.
  induction xs as [|x xs IH]; intros Hall; cbn [forM]; [done|].
  rewrite (Hall x) by (by left). cbn [mbind res_bind].
  apply IH. intros y Hy. apply Hall. by right.
Qed.

(** X21. A pass over a network none of whose neurons has anything to
    process (every registered or layered neuron has an empty buffer or is
    blocked) changes no neuron: it runs each observing listener once, in
    registration order, and nothing else; the network comes back with the
    processing flag lowered. *)
Theorem quiescent_pass_only_notifies fuel net w :
  Network.isProcessing net = false ->
  (forall l, l ∈ Network.getInputNeurons net ++ Network.getAllNeurons net
                 ++ Network.getOutputNeurons net ->
             quiescent w l) ->
  Network.processSignals (S (S fuel)) (net, w)
  = Ret (net, Neuron.emit (observed net) w).
Proof.
  unfold Network.isProcessing, Network.getInputNeurons,
    Network.getOutputNeurons.
  intros Hp Hq.
  change (Network.processSignals (S (S fuel)) (net, w)) with
    (if Network.processing net then Ret (net, w)
     else
       w ← Network.sweep (S fuel) (Network.with_processing true net) w;
       st ← forM (fun cb '(net, w) =>
                    match cb with
                    | Network.Observer k =>
                        Ret (net, Neuron.emit
                                    [Neuron.Processed (Network.id net) k] w)
                    | Network.Reenter =>
                        Network.processSignals (S fuel) (net, w)
                    end)
                 (Network.processCallbacks (Network.with_processing true net))
                 (Network.with_processing true net, w);
       Ret (Network.with_processing false st.1, st.2)).
  rewrite Hp.
  assert (Hsweep : Network.sweep (S fuel) (Network.with_processing true net) w
                   = Ret w).
  { unfold Network.sweep. cbn [Network.with_processing Network.inputNeurons
                                 Network.outputNeurons].
    rewrite forM_quiescent.
    2: { intros l Hl. apply processSignals_quiescent, Hq.
         apply elem_of_app. by left. }
    cbn [mbind res_bind]. rewrite forM_quiescent.
    2: { intros l Hl.
         destruct (bool_decide (l ∈ Network.inputNeurons net)
                   || bool_decide (l ∈ Network.outputNeurons net)); [done|].
         apply processSignals_quiescent, Hq.
         apply elem_of_app. right. apply elem_of_app. by left. }
    cbn [mbind res_bind]. apply forM_quiescent.
    intros l Hl. apply processSignals_quiescent, Hq.
    apply elem_of_app. right. apply elem_of_app. by right. }
  rewrite Hsweep. cbn [mbind res_bind].
  rewrite (callbacks_in_flight fuel) by done.
  cbn [mbind res_bind fst snd]. rewrite foldl_observed.
  unfold observed. destruct net. cbn in *. by rewrite Hp.
Qed.

End QuiescentPass.

Lemma quiescent_pass_only_notifies_witness :
  let net := Network.onProcess Network.Reenter
               (Network.onProcess (Network.Observer 7) Scenario.net) in
  Network.processSignals (H := Decimal.platform) 2
    (net, Scenario.connected 0.9)
  = Ret (net, Neuron.emit [Neuron.Processed "net" 7%nat]
                (Scenario.connected 0.9)).
Proof.
  cbv zeta.
  apply (quiescent_pass_only_notifies (H := Decimal.platform) 0
           (Network.onProcess Network.Reenter
              (Network.onProcess (Network.Observer 7) Scenario.net))
           (Scenario.connected 0.9) eq_refl).
  intros l Hl.
  assert (Hl' : l = Scenario.A \/ l = Scenario.B).
  { vm_compute in Hl.
    apply elem_of_cons in Hl as [->|Hl]; [by left|].
    apply elem_of_cons in Hl as [->|Hl]; [by right|].
    by apply elem_of_nil in Hl. }
  destruct Hl' as [-> | ->].
  - eexists. split; [by vm_compute|]. by left.
  - eexists. split; [by vm_compute|]. by left.
Defined.

(** ** Registering neurons *)

Lemma elem_of_records l n net w :
  (l, n) ∈ Registry.records net w
  <-> (exists i, Network.neurons net !! i = Some l)
      /\ Neuron.heap w !! l = Some n.
Proof.
  unfold Registry.records, Network.getAllNeurons.
  rewrite list_elem_of_omap. split.
  - intros (l' & Hl' & Hsome).
    apply list_elem_of_fmap in Hl' as ([i l''] & -> & Hin).
    apply elem_of_map_to_list in Hin. cbn in Hsome.
    destruct (Neuron.heap w !! l'') as [n'|] eqn:E; [|done].
    cbn in Hsome. injection Hsome as -> ->. split; [by exists i | done].
  - intros [[i Hi] Hn]. exists l. split.
    + apply list_elem_of_fmap. exists (i, l). split; [done|].
      by apply elem_of_map_to_list.
    + by rewrite Hn.
Qed.

(** X22. [createNeuron] makes a neuron once per identifier: asking again,
    with whatever type, hands back the same neuron and changes nothing.
    The first request puts a new neuron of the requested type at an unused
    handle, where [getNeuron], [getNeuronsByType] and, under the type's
    tag, [getNeuronsByTag] find it. *)
Theorem createNeuron_is_idempotent i ty ty' net w :
  let '(l, net1, w1) := Network.createNeuron i ty net w in
  Network.createNeuron i ty' net1 w1 = (l, net1, w1)
  /\ Network.getNeuron i net1 = Some l
  /\ (Network.getNeuron i net = None ->
      Neuron.heap w !! l = None
      /\ Neuron.heap w1 = <[l := Neuron.new i ty]> (Neuron.heap w)
      /\ Network.getNeuronCount net1 = S (Network.getNeuronCount net)
      /\ l ∈ Registry.getNeuronsByType ty net1 w1
      /\ l ∈ Registry.getNeuronsByTag (Neuron.typeTag ty) net1 w1)
  /\ (is_Some (Network.getNeuron i net) -> net1 = net /\ w1 = w).
Proof.
  unfold Network.createNeuron, Network.getNeuron, Network.getNeuronCount.
  destruct (Network.neurons net !! i) as [l0|] eqn:Ei.
  - rewrite Ei. repeat split; try done.
  - unfold Neuron.make_shared. cbv zeta.
    set (l := fresh (dom (Neuron.heap w))).
    cbn [Network.with_neurons Network.neurons].
    rewrite lookup_insert_eq. split; [done|]. split; [done|].
    split; [|by intros [? ?]].
    intros _.
    assert (Hfresh : Neuron.heap w !! l = None).
    { apply not_elem_of_dom. subst l. apply is_fresh. }
    split; [done|]. split; [done|].
    split; [by apply map_size_insert_None|].
    assert (Hrec : (l, Neuron.new i ty)
                   ∈ Registry.records
                       (Network.with_neurons (<[i := l]> (Network.neurons net))
                          net)
                       (Neuron.put l (Neuron.new i ty) w)).
    { apply elem_of_records. split.
      - exists i. cbn. apply lookup_insert_eq.
      - cbn. apply lookup_insert_eq. }
    split.
    + unfold Registry.getNeuronsByType. apply list_elem_of_fmap.
      exists (l, Neuron.new i ty). split; [done|].
      apply list_elem_of_filter. split; [|done]. by destruct ty.
    + unfold Registry.getNeuronsByTag. apply list_elem_of_fmap.
      exists (l, Neuron.new i ty). split; [done|].
      apply list_elem_of_filter. split; [|done].
      cbn. unfold Neuron.hasTag. apply bool_decide_eq_true_2.
      cbn. by left.
Qed.

(** X23. The input layer holds a neuron at most once: adding a neuron
    puts it in the layer, adding it again changes nothing.  The neuron is
    also registered under its identifier unless that identifier is taken;
    existing registrations are never replaced, and the registry stays
    sound. *)
Theorem input_layer_holds_each_neuron_once l net w net1 :
  Network.addInputNeuron (Some l) net w = Ret net1 ->
  l ∈ Network.getInputNeurons net1
  /\ (NoDup (Network.getInputNeurons net) ->
      NoDup (Network.getInputNeurons net1))
  /\ Network.addInputNeuron (Some l) net1 w = Ret net1
  /\ (forall i, is_Some (Network.getNeuron i net) ->
                Network.getNeuron i net1 = Network.getNeuron i net)
  /\ (l ∉ Network.getInputNeurons net ->
      exists n l0, Neuron.heap w !! l = Some n
                   /\ Network.getNeuron (Neuron.getId n) net1 = Some l0
                   /\ (Network.getNeuron (Neuron.getId n) net = None
                       -> l0 = l))
  /\ (Network.registry_ok net w -> Network.registry_ok net1 w)
  /\ Network.getOutputNeurons net1 = Network.getOutputNeurons net.
Proof.
  unfold Network.addInputNeuron, Network.getInputNeurons,
    Network.getOutputNeurons, Network.getNeuron.
  case_bool_decide as Hin.
  - intros [= <-]. rewrite bool_decide_eq_true_2 by done.
    split; [done|]. split; [done|]. split; [done|]. split; [done|].
    split; [done|]. done.
  - intros (n & Hn & Hr)%bind_Ret_inv. apply get_Ret in Hn.
    injection Hr as <-.
    destruct (Network.neurons net !! Neuron.getId n) as [l0|] eqn:Eid.
    + cbn. rewrite bool_decide_eq_true_2
        by (apply elem_of_app; right; by apply list_elem_of_singleton).
      split; [apply elem_of_app; right; by apply list_elem_of_singleton|].
      split.
      { intros Hnd. apply NoDup_app. split; [done|]. split.
        - intros x Hx ->%list_elem_of_singleton. done.
        - apply NoDup_singleton. }
      split; [done|]. split; [done|].
      split; [intros _; exists n, l0; split; [done|]; split; [done|]; by rewrite Eid|].
      done.
    + cbn. rewrite bool_decide_eq_true_2
        by (apply elem_of_app; right; by apply list_elem_of_singleton).
      split; [apply elem_of_app; right; by apply list_elem_of_singleton|].
      split.
      { intros Hnd. apply NoDup_app. split; [done|]. split.
        - intros x Hx ->%list_elem_of_singleton. done.
        - apply NoDup_singleton. }
      split; [done|]. split.
      { intros i [l1 Hi].
        rewrite lookup_insert_ne; [done|]. intros <-. congruence. }
      split.
      { intros _. exists n, l. rewrite lookup_insert_eq. by eauto. }
      split; [|done].
      intros Hreg i l1. cbn.
      destruct (decide (i = Neuron.getId n)) as [->|Hne].
      * rewrite lookup_insert_eq. intros [= <-]. by eauto.
      * rewrite lookup_insert_ne by done. apply Hreg.
Qed.

Lemma input_layer_holds_each_neuron_once_witness :
  exists net1,
    Network.addInputNeuron (Some Scenario.A) Scenario.net
      (Scenario.connected 0.9) = Ret net1
    /\ Network.getInputNeurons net1 = [Scenario.A]
    /\ Network.addInputNeuron (Some Scenario.A) net1 (Scenario.connected 0.9)
       = Ret net1.
Proof.
  destruct (Network.addInputNeuron (Some Scenario.A) Scenario.net
              (Scenario.connected 0.9)) as [net1| |] eqn:E.
  2, 3: exfalso; vm_compute in E; discriminate E.
  destruct (input_layer_holds_each_neuron_once Scenario.A Scenario.net
              (Scenario.connected 0.9) net1 E) as (_ & _ & Hagain & _).
  exists net1. split; [reflexivity|]. split; [|exact Hagain].
  vm_compute in E. injection E as <-. reflexivity.
Defined.


(** ** The tier networks *)

Lemma matchesPattern_spec pattern net w :
  Tier.matchesPattern pattern net w = true
  <-> forall item,
        item ∈ pattern ->
        exists i l n,
          Network.neurons net !! i = Some l
          /\ Neuron.heap w !! l = Some n
          /\ (Neuron.hasMetadata item n = true \/ Neuron.hasTag item n = true).
Proof.
  unfold Tier.matchesPattern. rewrite forallb_forall. split.
  - intros Hall item Hitem.
    specialize (Hall item (proj1 (list_elem_of_In _ _) Hitem)).
    apply existsb_exists in Hall as ([l n] & Hin & Hx).
    apply list_elem_of_In, elem_of_records in Hin as [[i Hi] Hn].
    exists i, l, n. split; [done|]. split; [done|].
    by apply orb_true_iff in Hx.
  - intros Hall item Hitem. apply list_elem_of_In in Hitem.
    destruct (Hall item Hitem) as (i & l & n & Hi & Hn & Hx).
    apply existsb_exists. exists (l, n). split.
    + apply list_elem_of_In, elem_of_records. split; [by exists i | done].
    + by apply orb_true_iff.
Qed.

Section Patterns.
Context `{Platform}.

(** X24. Whether a pattern of the subconscious tier matches is settled
    by registration, not by activity: a pattern matches exactly when each
    of its items is a metadata key or a tag of some registered neuron, and
    a cascade of signals, which writes to neither, leaves every pattern's
    match as it was. *)
Theorem pattern_match_is_settled_by_registration fuel t s net w w' pattern :
  Neuron.receiveSignal fuel t s w = Ret w' ->
  Network.registry_ok net w ->
  Tier.matchesPattern pattern net w' = Tier.matchesPattern pattern net w
  /\ (Tier.matchesPattern pattern net w = true
      <-> forall item,
            item ∈ pattern ->
            exists i l n,
              Network.neurons net !! i = Some l
              /\ Neuron.heap w !! l = Some n
              /\ (Neuron.hasMetadata item n = true
                  \/ Neuron.hasTag item n = true)).
Proof.
  intros Hr Hreg. split; [|apply matchesPattern_spec].
  assert (Hev : evolves same_wiring w w').
  { revert Hr. apply (receiveSignal_evolves same_wiring).
    - apply same_wiring_refl.
    - apply same_wiring_trans.
    - intros n st. by repeat split.
    - intros n p _ _. by repeat split.
    - intros n v. by repeat split.
    - intros n v. by repeat split. }
  apply eq_true_iff_eq. rewrite !matchesPattern_spec.
  split; intros Hall item Hitem;
    destruct (Hall item Hitem) as (i & l & n & Hi & Hn & Hx).
  - destruct (Hreg i l Hi) as (n0 & Hn0 & _).
    destruct (Hev l n0 Hn0) as (n1 & Hn1 & Hsame).
    rewrite Hn in Hn1. injection Hn1 as <-.
    destruct Hsame as (_ & _ & _ & _ & _ & Htags & Hmeta & _).
    exists i, l, n0. split; [done|]. split; [done|].
    unfold Neuron.hasMetadata, Neuron.hasTag in *.
    by rewrite <- Htags, <- Hmeta.
  - destruct (Hev l n Hn) as (n1 & Hn1 & Hsame).
    destruct Hsame as (_ & _ & _ & _ & _ & Htags & Hmeta & _).
    exists i, l, n1. split; [done|]. split; [done|].
    unfold Neuron.hasMetadata, Neuron.hasTag in *.
    by rewrite Htags, Hmeta.
Qed.

End Patterns.

Lemma pattern_match_is_settled_by_registration_witness :
  exists w',
    Scenario.end_to_end = Ret w'
    /\ Tier.matchesPattern ["processing"] Scenario.net w' = true
    /\ Tier.matchesPattern ["processing"; "memory"] Scenario.net w' = false.
Proof.
  destruct Scenario.end_to_end as [w'| |] eqn:E.
  2, 3: exfalso; vm_compute in E; discriminate E.
  exists w'. split; [reflexivity|].
  split.
  - rewrite (proj1 (pattern_match_is_settled_by_registration
                      (H := Decimal.platform) 2 Scenario.A _ Scenario.net
                      (Scenario.connected 0.9) w' ["processing"] E
                      (registry_ok_scenario 0.9))).
    by vm_compute.
  - rewrite (proj1 (pattern_match_is_settled_by_registration
                      (H := Decimal.platform) 2 Scenario.A _ Scenario.net
                      (Scenario.connected 0.9) w' ["processing"; "memory"] E
                      (registry_ok_scenario 0.9))).
    by vm_compute.
Defined.

Section Filters.
Context `{Platform}.

(** X25. The filter of the unconscious tier: a null signal never passes;
    without rules every signal passes; with rules a signal passes exactly
    when some rule's key holds that rule's value in its payload.  So the
    first rule added can turn away signals that passed before, while a
    rule added to existing rules turns none away.  A pass of the tier
    does not consult the filter: it is the pass of the base network,
    whatever the rules. *)
Theorem filter_passes_any_matching_rule signal u :
  (Tier.passesFilters signal u = true
   <-> exists s,
         signal = Some s
         /\ (Tier.filterRules u = []
             \/ exists key value,
                  (key, value) ∈ Tier.filterRules u
                  /\ Synapse.stringPayload s !! key = Some value))
  /\ (forall key value,
        Tier.filterRules u <> [] ->
        Tier.passesFilters signal u = true ->
        Tier.passesFilters signal (Tier.addFilterRule key value u) = true)
  /\ (forall i key value s,
        Tier.passesFilters (Some s) (Tier.newUnconscious i) = true
        /\ (Tier.passesFilters (Some s)
              (Tier.addFilterRule key value (Tier.newUnconscious i)) = true
            <-> Synapse.stringPayload s !! key = Some value))
  /\ (forall fuel w,
        Tier.Unconscious_processSignals (S fuel) (u, w)
        = (fun r : Network.t * Neuron.Store =>
             (Tier.mkUnconscious r.1 (Tier.filterRules u), r.2))
          <$> Network.processSignals (S fuel) (Tier.u_base u, w)).
Proof.
  assert (Hrule : forall s rules,
            existsb (fun rule : string * string =>
                       Synapse.hasData rule.1 s
                       && bool_decide (Synapse.getData rule.1 s = rule.2))
                    rules = true
            <-> exists key value,
                  (key, value) ∈ rules
                  /\ Synapse.stringPayload s !! key = Some value).
  { intros s rules. rewrite existsb_exists. split.
    - intros ([key value] & Hin & Hx). apply list_elem_of_In in Hin.
      apply andb_true_iff in Hx as [Hhas Hval].
      apply bool_decide_eq_true_1 in Hhas as [v Hv].
      apply bool_decide_eq_true_1 in Hval.
      unfold Synapse.getData in Hval. cbn in *. rewrite Hv in Hval.
      cbn in Hval. subst v. by exists key, value.
    - intros (key & value & Hin & Hv). exists (key, value).
      split; [by apply list_elem_of_In|]. cbn.
      unfold Synapse.hasData, Synapse.getData. rewrite Hv.
      apply andb_true_iff.
      split; apply bool_decide_eq_true_2; [by eexists | done]. }
  assert (Hspec : forall sig v,
            Tier.passesFilters sig v = true
            <-> exists s,
                  sig = Some s
                  /\ (Tier.filterRules v = []
                      \/ exists key value,
                           (key, value) ∈ Tier.filterRules v
                           /\ Synapse.stringPayload s !! key = Some value)).
  { intros sig v. unfold Tier.passesFilters. destruct sig as [s|].
    - destruct (Tier.filterRules v) as [|rule rules] eqn:Erules.
      + split; [intros _; exists s; by auto | done].
      + rewrite Hrule. split.
        * intros Hex. exists s. by auto.
        * intros (s' & [= <-] & [? | Hex]); done.
    - split; [done | by intros (s & ? & _)]. }
  split; [apply Hspec|]. split; [|split].
  - intros key value Hne Hpass.
    apply Hspec in Hpass as (s & -> & [Hnil | (k & v & Hin & Hv)]); [done|].
    apply Hspec. exists s. split; [done|]. right. exists k, v.
    split; [|done]. cbn. apply elem_of_app. by left.
  - intros i key value s. split; [done|].
    rewrite Hspec. cbn. split.
    + intros (s' & [= <-] & [? | (k & v & Hin & Hv)]); [done|].
      apply list_elem_of_singleton in Hin. by injection Hin as -> ->.
    + intros Hv. exists s. split; [done|]. right. exists key, value.
      split; [by apply list_elem_of_singleton | done].
  - intros fuel w. unfold Tier.Unconscious_processSignals.
    destruct (Network.isProcessing (Tier.u_base u)) eqn:Hp.
    + rewrite processSignals_in_flight by done. cbn. by destruct u.
    + by destruct (Network.processSignals (S fuel) (Tier.u_base u, w)).
Qed.

End Filters.

(** ** What reaches the potential *)

Section Contribution.
Context `{Platform}.

(** The three shapes of what the engine's own gates hand back. *)
Lemma builtin_output_form g uuid ins r :
  NeuronGate.process g uuid ins = Some r ->
  builtin g ->
  exists s name q,
    Some s ∈ ins
    /\ (r = NeuronGate.stamp g name
              (Synapse.setStrength q (Synapse.derive uuid s))
        \/ r = NeuronGate.stamp g name (Synapse.derive uuid s)
        \/ exists text,
             r = Synapse.addTag "gate_processed"
                   (Synapse.setData "modulation_factor" text
                      (Synapse.setData "gate_type" "MODULATOR"
                         (Synapse.setData "gate_id" (NeuronGate.id g)
                            (Synapse.setStrength q
                               (Synapse.derive uuid s)))))).
Proof.
  unfold NeuronGate.process, builtin.
  destruct (NeuronGate.kind g) as [| | | | |factor|processor]; [..|done].
  - unfold NeuronGate.AndGate_process.
    destruct ins as [|[s0|] rest]; [done| |].
    + destruct (NeuronGate.allAboveThreshold g (Some s0 :: rest)); [|done].
      intros [= <-] _. eexists s0, _, _. split; [by left | by left].
    + by destruct (NeuronGate.allAboveThreshold g (None :: rest)).
  - intros Hr _. pose proof (or_gate_scan g uuid ins) as Hscan.
    rewrite Hr in Hscan. destruct Hscan as (b & Hin & ->).
    exists b, "OR", 0. split; [done|]. right. by left.
  - unfold NeuronGate.NotGate_process.
    destruct ins as [|[s0|] rest]; [done| |done].
    intros [= <-] _. eexists s0, _, _. split; [by left | by left].
  - unfold NeuronGate.XorGate_process.
    destruct ins as [|[i0|] [|[i1|] [|? ?]]]; try done.
    cbv zeta.
    destruct (negb (Qltb (Synapse.getStrength i0) (NeuronGate.threshold g)));
      destruct (negb (Qltb (Synapse.getStrength i1) (NeuronGate.threshold g)));
      cbn [negb andb orb]; try done.
    + intros [= <-] _. eexists i0, _, _. split; [by left | by left].
    + intros [= <-] _. eexists i1, _, _. split; [right; by left | by left].
  - unfold NeuronGate.ThresholdGate_process.
    destruct ins as [|[s0|] rest]; [done| |done].
    destruct (negb (Qltb (Synapse.getStrength s0) (NeuronGate.threshold g)));
      [|done].
    intros [= <-] _. eexists s0, _, _. split; [by left | by left].
  - unfold NeuronGate.ModulatorGate_process.
    destruct ins as [|[s0|] rest]; [done| |done].
    cbv zeta. intros [= <-] _. eexists s0, "MODULATOR", _.
    split; [by left|]. right. right. by eexists.
Qed.


End Contribution.


Section TierPasses.
Context `{Platform}.

(** X27. A pass of the conscious tier is a pass of the base network,
    preceded, when the focus names a registered neuron, by the delivery of
    one attention signal to that neuron.  The tier comes back as it was
    and no wiring changes; a call made while a pass is in flight does
    nothing, and delivers no attention signal.  The attention signal
    carries the attention strength as its own strength but has no
    [strength] entry, so the neuron counts it with the default [0.5]. *)
Theorem conscious_pass_delivers_one_attention_signal fuel c w c' w' :
  Tier.Conscious_processSignals fuel (c, w) = Ret (c', w') ->
  c' = c
  /\ evolves same_wiring w w'
  /\ (Network.isProcessing (Tier.c_base c) = true -> w' = w)
  /\ (Network.isProcessing (Tier.c_base c) = false ->
      (Tier.focusedNeuronId c = ""
       \/ Network.getNeuron (Tier.focusedNeuronId c) (Tier.c_base c) = None ->
       Network.processSignals fuel (Tier.c_base c, w)
       = Ret (Tier.c_base c, w'))
      /\ (forall l,
            Tier.focusedNeuronId c <> "" ->
            Network.getNeuron (Tier.focusedNeuronId c) (Tier.c_base c)
            = Some l ->
            exists w1,
              Neuron.receiveSignal fuel l (Some (Tier.attentionSignal c)) w
              = Ret w1
              /\ Network.processSignals fuel (Tier.c_base c, w1)
                 = Ret (Tier.c_base c, w')))
  /\ Synapse.getStrength (Tier.attentionSignal c)
     == clamp (Tier.attentionStrength c) 0 1
  /\ Synapse.payloadStrength (Tier.attentionSignal c) = 0.5.
Proof.
  intros Hr.
  assert (Hsig : Synapse.getStrength (Tier.attentionSignal c)
                 == clamp (Tier.attentionStrength c) 0 1
                 /\ Synapse.payloadStrength (Tier.attentionSignal c) = 0.5).
  { split; [apply clamp01_clamp | reflexivity]. }
  unfold Tier.Conscious_processSignals in Hr.
  destruct (Network.isProcessing (Tier.c_base c)) eqn:Hp.
  { injection Hr as <- <-. split; [done|]. split.
    - intros m n Hn. exists n. split; [done | apply same_wiring_refl].
    - split; [done|]. split; [done | exact Hsig]. }
  apply bind_Ret_inv in Hr as (w1 & Hinject & Hr).
  apply bind_Ret_inv in Hr as ([net2 w2] & Hpass & Hr).
  injection Hr as <- <-. cbn [fst snd].
  assert (Hpass' : net2 = Tier.c_base c /\ evolves same_wiring w1 w2).
  { revert Hpass. apply (pass_evolves same_wiring).
    - apply same_wiring_refl.
    - apply same_wiring_trans.
    - intros n st. by repeat split.
    - intros n p _ _. by repeat split.
    - intros n v. by repeat split.
    - intros n v. by repeat split. }
  destruct Hpass' as [-> Hw12].
  assert (Hw01 : evolves same_wiring w w1).
  { case_bool_decide as Hfocus.
    - destruct (Network.getNeuron _ _) as [l|].
      + revert Hinject. apply (receiveSignal_evolves same_wiring).
        * apply same_wiring_refl.
        * apply same_wiring_trans.
        * intros n st. by repeat split.
        * intros n p _ _. by repeat split.
        * intros n v. by repeat split.
        * intros n v. by repeat split.
      + injection Hinject as <-. intros m n Hn. exists n.
        split; [done | apply same_wiring_refl].
    - injection Hinject as <-. intros m n Hn. exists n.
      split; [done | apply same_wiring_refl]. }
  split; [by destruct c|]. split.
  { intros m n Hn. destruct (Hw01 m n Hn) as (n1 & Hn1 & H01).
    destruct (Hw12 m n1 Hn1) as (n2 & Hn2 & H12).
    exists n2. split; [done|]. by apply same_wiring_trans with n1. }
  split; [done|]. split; [|exact Hsig].
  intros _. split.
  - intros Hnone. case_bool_decide as Hfocus.
    + destruct Hnone as [Hnone|Hnone]; [done|].
      rewrite Hnone in Hinject. by injection Hinject as <-.
    + by injection Hinject as <-.
  - intros l Hne Hl. rewrite bool_decide_eq_true_2 in Hinject by done.
    rewrite Hl in Hinject. by exists w1.
Qed.

End TierPasses.

Lemma conscious_pass_delivers_one_attention_signal_witness :
  let c := Tier.setAttentionFocus "A"
             (Tier.mkConscious Scenario.net "" 0.5) in
  exists w' n,
    Tier.Conscious_processSignals (H := Decimal.platform) 3
      (c, Scenario.connected 0.9) = Ret (c, w')
    /\ Neuron.heap w' !! Scenario.A = Some n
    /\ Neuron.getState n = Neuron.RESTING.
Proof.
  cbv zeta.
  destruct (Tier.Conscious_processSignals (H := Decimal.platform) 3
              (Tier.setAttentionFocus "A"
                 (Tier.mkConscious Scenario.net "" 0.5),
               Scenario.connected 0.9)) as [[c' w']| |] eqn:E.
  2, 3: exfalso; vm_compute in E; discriminate E.
  destruct (conscious_pass_delivers_one_attention_signal
              (H := Decimal.platform) 3 _ _ c' w' E) as (-> & _).
  exists w'. vm_compute in E. injection E as <-.
  eexists. split; [reflexivity|]. split; [by vm_compute | reflexivity].
Defined.

(** ** Responses of the subconscious tier *)

Lemma responseSignal_snoc response text :
  Tier.responseSignal (response ++ [text])
  = Synapse.setData ("response_" +:+ pretty (length response)) text
      (Tier.responseSignal response).
Proof.
  unfold Tier.responseSignal. rewrite imap_app, foldl_app. cbn.
  by rewrite Nat.add_0_r.
Qed.

Lemma response_fields response :
  Synapse.id (Tier.responseSignal response) = "response_signal"
  /\ Synapse.strength (Tier.responseSignal response) == 0.8.
Proof.
  induction response as [|text response IH] using rev_ind.
  - split; [done | by vm_compute].
  - by rewrite responseSignal_snoc.
Qed.

Lemma response_payload_at response i :
  Synapse.stringPayload (Tier.responseSignal response)
  !! ("response_" +:+ pretty i) = response !! i.
Proof.
  induction response as [|text response IH] using rev_ind; [done|].
  rewrite responseSignal_snoc. cbn [Synapse.setData Synapse.stringPayload].
  destruct (decide (i = length response)) as [->|Hne].
  - rewrite lookup_insert_eq.
    by rewrite lookup_app_r, Nat.sub_diag by lia.
  - rewrite lookup_insert_ne.
    2: { intros Heq. apply Hne. symmetry.
         by apply (inj pretty), (inj (String.append "response_")). }
    rewrite IH. destruct (decide (i < length response)%nat).
    + by rewrite lookup_app_l.
    + rewrite !lookup_ge_None_2; [done | | lia].
      rewrite length_app. cbn. lia.
Qed.

Lemma response_payload_other response key :
  (forall i : nat, key <> "response_" +:+ pretty i) ->
  Synapse.stringPayload (Tier.responseSignal response) !! key = None.
Proof.
  intros Hkey. induction response as [|text response IH] using rev_ind;
    [done|].
  rewrite responseSignal_snoc. cbn [Synapse.setData Synapse.stringPayload].
  by rewrite lookup_insert_ne.
Qed.

Lemma response_payload_size response :
  size (Synapse.stringPayload (Tier.responseSignal response))
  = length response.
Proof.
  induction response as [|text response IH] using rev_ind; [done|].
  rewrite responseSignal_snoc. cbn [Synapse.setData Synapse.stringPayload].
  rewrite map_size_insert_None.
  - rewrite IH, length_app. cbn. lia.
  - rewrite response_payload_at. by apply lookup_ge_None_2.
Qed.

Section Responses.
Context `{Platform}.

(** X28. The response signal of the subconscious tier holds the [i]-th
    response text under the key [response_i] and nothing else: it has as
    many payload entries as there are texts, strength 0.8, and no
    [strength] entry, so a neuron counts it with the default [0.5].
    [generateResponse] hands it to the neurons of the output layer: with
    an empty output layer it does nothing, and it never changes a neuron
    that cannot be reached from an output neuron.  A pass of the tier
    with an empty output layer, or with no pattern that matches, is the
    pass of the base network. *)
Theorem response_signal_indexes_its_texts (response : list string) :
  (forall i,
     Synapse.stringPayload (Tier.responseSignal response)
     !! ("response_" +:+ pretty i) = response !! i)
  /\ length (Synapse.getKeys (Tier.responseSignal response)) = length response
  /\ Synapse.getId (Tier.responseSignal response) = "response_signal"
  /\ Synapse.getStrength (Tier.responseSignal response) == 0.8
  /\ Synapse.payloadStrength (Tier.responseSignal response) = 0.5
  /\ (forall fuel net w,
        Network.getOutputNeurons net = [] ->
        Tier.generateResponse fuel response net w = Ret w)
  /\ (forall fuel net w w',
        Tier.generateResponse fuel response net w = Ret w' ->
        forall m, (forall o, o ∈ Network.getOutputNeurons net ->
                             ~ Neuron.reach w o m) ->
                  Neuron.heap w' !! m = Neuron.heap w !! m)
  /\ (forall fuel s w,
        Network.getOutputNeurons (Tier.s_base s) = []
        \/ (forall pr, pr ∈ Tier.patterns s ->
                       Tier.matchesPattern pr.1 (Tier.s_base s) w = false) ->
        Tier.Subconscious_processSignals (S fuel) (s, w)
        = (fun r : Network.t * Neuron.Store =>
             (Tier.mkSubconscious r.1 (Tier.patterns s), r.2))
          <$> Network.processSignals (S fuel) (Tier.s_base s, w)).
Proof.
  split; [apply response_payload_at|].
  split.
  { unfold Synapse.getKeys. rewrite length_fmap, length_map_to_list.
    apply response_payload_size. }
  split; [apply response_fields|]. split; [apply response_fields|].
  split.
  { unfold Synapse.payloadStrength, Synapse.hasData.
    rewrite response_payload_other; [|by intros i].
    rewrite bool_decide_eq_false_2; [done | by intros [? ?]]. }
  split.
  { intros fuel net w Hout. unfold Tier.generateResponse. by rewrite Hout. }
  split.
  2: { intros fuel s w Hidle. unfold Tier.Subconscious_processSignals.
       destruct (Network.isProcessing (Tier.s_base s)) eqn:Hp.
       - rewrite processSignals_in_flight by done. cbn. by destruct s.
       - rewrite forM_quiescent.
         + cbn [mbind res_bind].
           by destruct (Network.processSignals (S fuel) (Tier.s_base s, w)).
         + intros pr Hpr. destruct Hidle as [Hout | Hnone].
           * destruct (Tier.matchesPattern pr.1 (Tier.s_base s) w); [|done].
             unfold Tier.generateResponse. by rewrite Hout.
           * by rewrite (Hnone pr Hpr). }
  intros fuel net w w' Hgen m Hm. unfold Tier.generateResponse in Hgen.
  assert (Hinv : (forall x, Neuron.links_of w' x = Neuron.links_of w x)
                 /\ Neuron.heap w' !! m = Neuron.heap w !! m);
    [|by destruct Hinv].
  revert Hgen.
  apply (forM_invariant
           (fun s => (forall x, Neuron.links_of s x = Neuron.links_of w x)
                     /\ Neuron.heap s !! m = Neuron.heap w !! m));
    [|by split].
  intros o s s' Ho [Hlinks Hheap] Hrecv.
  apply receiveSignal_frame in Hrecv as (Hframe & Hlinks' & _).
  split.
  - intros x. by rewrite Hlinks'.
  - rewrite <- Hheap. apply Hframe. intros Hreach. apply (Hm o Ho).
    revert Hreach. apply reach_links. intros x. by rewrite Hlinks.
Qed.

End Responses.


(** ** The hash of a text *)

Section Hash.
Local Open Scope Z_scope.

Lemma wrap64_range z : 0 <= Utils.wrap64 z < 2 ^ 64.
Proof. unfold Utils.wrap64. apply Z.mod_pos_bound. done. Qed.

Lemma wrap64_small z : 0 <= z < 2 ^ 64 -> Utils.wrap64 z = z.
Proof. intros Hz. unfold Utils.wrap64. by apply Z.mod_small. Qed.

Lemma byte_range (c : ascii) : 0 <= Z.of_N (N_of_ascii c) < 256.
Proof.
  split; [lia|].
  pose proof (N_ascii_bounded c) as Hb. lia.
Qed.

Lemma char_to_u64_range sgn c : 0 <= Utils.char_to_u64 sgn c < 2 ^ 64.
Proof.
  unfold Utils.char_to_u64. cbv zeta. pose proof (byte_range c) as Hb.
  destruct (sgn && (128 <=? Z.of_N (N_of_ascii c))).
  - apply wrap64_range.
  - lia.
Qed.

Lemma char_to_u64_inj sgn c c' :
  Utils.char_to_u64 sgn c = Utils.char_to_u64 sgn c' -> c = c'.
Proof.
  unfold Utils.char_to_u64. cbv zeta.
  pose proof (byte_range c) as Hb. pose proof (byte_range c') as Hb'.
  assert (Hwrap : forall b, 128 <= b < 256 ->
                            Utils.wrap64 (b - 256) = b - 256 + 2 ^ 64).
  { intros b Hbb. unfold Utils.wrap64.
    rewrite <- (Z.mod_add (b - 256) 1 (2 ^ 64)) by done.
    apply Z.mod_small. lia. }
  intros Heq.
  assert (Hbytes : Z.of_N (N_of_ascii c) = Z.of_N (N_of_ascii c')).
  { destruct sgn; cbn [andb] in Heq; [|done].
    destruct (Z.leb_spec 128 (Z.of_N (N_of_ascii c))) as [Hc|Hc],
             (Z.leb_spec 128 (Z.of_N (N_of_ascii c'))) as [Hc'|Hc'].
    - rewrite !Hwrap in Heq by lia. lia.
    - rewrite Hwrap in Heq by lia. lia.
    - rewrite Hwrap in Heq by lia. lia.
    - done. }
  apply N2Z.inj in Hbytes.
  rewrite <- (ascii_N_embedding c), <- (ascii_N_embedding c').
  by rewrite Hbytes.
Qed.

Lemma lxor_range a b :
  0 <= a < 2 ^ 64 -> 0 <= b < 2 ^ 64 -> 0 <= Z.lxor a b < 2 ^ 64.
Proof.
  intros [Ha0 Ha1] [Hb0 Hb1].
  assert (H0 : 0 <= Z.lxor a b) by (by apply Z.lxor_nonneg).
  split; [done|].
  destruct (decide (Z.lxor a b = 0)) as [->|Hne]; [done|].
  apply Z.log2_lt_pow2; [lia|].
  eapply Z.le_lt_trans; [by apply Z.log2_lxor|].
  apply Z.max_lub_lt.
  - destruct (decide (a = 0)) as [->|]; [done|].
    apply Z.log2_lt_pow2; lia.
  - destruct (decide (b = 0)) as [->|]; [done|].
    apply Z.log2_lt_pow2; lia.
Qed.

(** Multiplying by the FNV prime loses nothing: the prime is odd, so it
    has an inverse modulo [2^64]. *)
Lemma mul_prime_inj a b :
  0 <= a < 2 ^ 64 -> 0 <= b < 2 ^ 64 ->
  Utils.wrap64 (a * Utils.FNV_PRIME) = Utils.wrap64 (b * Utils.FNV_PRIME) ->
  a = b.
Proof.
  intros Ha Hb Heq. unfold Utils.wrap64 in Heq.
  assert (Hinv : (Utils.FNV_PRIME * 14886173955864302971) mod 2 ^ 64 = 1)
    by (by vm_compute).
  assert (Hback : forall x, 0 <= x < 2 ^ 64 ->
            ((x * Utils.FNV_PRIME) mod 2 ^ 64 * 14886173955864302971)
              mod 2 ^ 64 = x).
  { intros x Hx. rewrite Z.mul_mod_idemp_l by done.
    rewrite <- Z.mul_assoc, <- Z.mul_mod_idemp_r by done.
    rewrite Hinv, Z.mul_1_r. by apply Z.mod_small. }
  rewrite <- (Hback a Ha), <- (Hback b Hb). by rewrite Heq.
Qed.

Lemma fnv1a_step_range sgn h c : 0 <= Utils.fnv1a_step sgn h c < 2 ^ 64.
Proof. apply wrap64_range. Qed.

Lemma fnv1a_step_inj sgn h h' c c' :
  0 <= h < 2 ^ 64 -> 0 <= h' < 2 ^ 64 ->
  Utils.fnv1a_step sgn h c = Utils.fnv1a_step sgn h' c' ->
  Z.lxor h (Utils.char_to_u64 sgn c) = Z.lxor h' (Utils.char_to_u64 sgn c').
Proof.
  intros Hh Hh'. unfold Utils.fnv1a_step.
  apply mul_prime_inj; apply lxor_range; try done; apply char_to_u64_range.
Qed.

Lemma fnv1a_from_range sgn str h :
  0 <= h < 2 ^ 64 -> 0 <= Utils.fnv1a_from sgn h str < 2 ^ 64.
Proof.
  revert h. induction str as [|c str IH]; intros h Hh; cbn; [done|].
  apply IH, fnv1a_step_range.
Qed.

Lemma fnv1a_from_inj sgn str h h' :
  0 <= h < 2 ^ 64 -> 0 <= h' < 2 ^ 64 ->
  Utils.fnv1a_from sgn h str = Utils.fnv1a_from sgn h' str -> h = h'.
Proof.
  revert h h'. induction str as [|c str IH]; intros h h' Hh Hh' Heq; cbn in *;
    [done|].
  apply IH in Heq; try apply fnv1a_step_range.
  apply fnv1a_step_inj in Heq; try done.
  apply (f_equal (fun z => Z.lxor z (Utils.char_to_u64 sgn c))) in Heq.
  by rewrite !Z.lxor_assoc, !Z.lxor_nilpotent, !Z.lxor_0_r in Heq.
Qed.

Lemma fnv1a_from_app sgn a b h :
  Utils.fnv1a_from sgn h (a +:+ b)
  = Utils.fnv1a_from sgn (Utils.fnv1a_from sgn h a) b.
Proof. revert h. induction a as [|c a IH]; intros h; cbn; [done | apply IH]. Qed.

Lemma hex_digits_length fuel n acc :
  (String.length acc < String.length (Utils.hex_digits (S fuel) n acc)
   /\ String.length (Utils.hex_digits (S fuel) n acc)
      <= S fuel + String.length acc)%nat.
Proof.
  revert n acc. induction fuel as [|fuel IH]; intros n acc.
  - cbn. destruct (n / 16 =? 0); cbn; lia.
  - cbn [Utils.hex_digits]. destruct (n / 16 =? 0).
    + cbn. lia.
    + specialize (IH (n / 16) (String (Utils.hex_digit (n mod 16)) acc)).
      cbn [String.length] in IH. cbn [Utils.hex_digits] in IH. lia.
Qed.

Lemma fill_string_length k fill s :
  String.length (Utils.fill_string k fill s) = (k + String.length s)%nat.
Proof. induction k as [|k IH]; cbn; [done | by rewrite IH]. Qed.

(** X29. [simpleHash] always answers with exactly 16 characters, and the
    FNV-1a value it prints loses no single character: two texts that
    differ in exactly one character, wherever it stands, have different
    hash values (each step of the loop is injective in the running hash
    and in the character, the FNV prime being odd). *)
Theorem simpleHash_single_character_matters sgn
    (before after : string) (c c' : ascii) :
  String.length (Utils.simpleHash sgn (before +:+ String c after)) = 16%nat
  /\ 0 <= Utils.fnv1a sgn (before +:+ String c after) < 2 ^ 64
  /\ (Utils.fnv1a sgn (before +:+ String c after)
      = Utils.fnv1a sgn (before +:+ String c' after)
      -> c = c').
Proof.
  split; [|split].
  - unfold Utils.simpleHash, Utils.hex16, Utils.setw.
    rewrite fill_string_length.
    pose proof (hex_digits_length 15
                  (Utils.fnv1a sgn (before +:+ String c after)) "") as Hlen.
    cbn [String.length] in Hlen. lia.
  - apply fnv1a_from_range. by vm_compute.
  - unfold Utils.fnv1a. rewrite !fnv1a_from_app. cbn [Utils.fnv1a_from].
    intros Heq.
    assert (Hh : 0 <= Utils.fnv1a_from sgn Utils.FNV_OFFSET_BASIS before
                 < 2 ^ 64)
      by (apply fnv1a_from_range; by vm_compute).
    apply fnv1a_from_inj in Heq; try apply fnv1a_step_range.
    apply fnv1a_step_inj in Heq; try done.
    apply (f_equal (Z.lxor (Utils.fnv1a_from sgn Utils.FNV_OFFSET_BASIS
                              before))) in Heq.
    rewrite <- !Z.lxor_assoc, !Z.lxor_nilpotent, !Z.lxor_0_l in Heq.
    by apply char_to_u64_inj in Heq.
Qed.

End Hash.

(** ** The counters of the memory manager *)

Section Counters.
Local Open Scope Z_scope.

Lemma run_snoc calls c m :
  MemoryManager.run (calls ++ [c]) m
  = MemoryManager.step (MemoryManager.run calls m) c.
Proof. unfold MemoryManager.run. by rewrite foldl_app. Qed.

Lemma allocations_snoc calls c :
  MemoryManager.allocations_since_reset (calls ++ [c])
  = match c with
    | MemoryManager.Allocate =>
        MemoryManager.allocations_since_reset calls + 1
    | MemoryManager.Deallocate _ =>
        MemoryManager.allocations_since_reset calls
    | MemoryManager.ResetStats => 0
    end.
Proof. unfold MemoryManager.allocations_since_reset. by rewrite foldl_app. Qed.

Lemma allocations_bound calls :
  0 <= MemoryManager.allocations_since_reset calls <= Z.of_nat (length calls).
Proof.
  induction calls as [|c calls IH] using rev_ind; [done|].
  rewrite allocations_snoc, length_app. cbn [length].
  destruct c; lia.
Qed.

(** X30. The two counters of the memory manager, over any sequence of
    calls short enough for the counters not to wrap around: the total is
    the number of allocations since the last [resetStats]; the active
    count never exceeds the total and never goes below zero, whatever is
    deallocated (a null pointer is ignored, and a deallocation at count
    zero, as after a reset, leaves the count at zero). *)
Theorem memory_counters_stay_consistent (calls : list MemoryManager.call) :
  Z.of_nat (length calls) < 2 ^ 64 ->
  let m := MemoryManager.run calls MemoryManager.new in
  MemoryManager.getTotalSynapseCount m
  = MemoryManager.allocations_since_reset calls
  /\ 0 <= MemoryManager.getActiveSynapseCount m
     <= MemoryManager.getTotalSynapseCount m.
Proof.
  unfold MemoryManager.getTotalSynapseCount,
    MemoryManager.getActiveSynapseCount. cbv zeta.
  induction calls as [|c calls IH] using rev_ind; intros Hlen; [done|].
  rewrite length_app in Hlen. cbn [length] in Hlen.
  destruct IH as [Htotal Hactive]; [lia|].
  pose proof (allocations_bound calls) as Hbound.
  rewrite run_snoc, allocations_snoc.
  set (m := MemoryManager.run calls MemoryManager.new) in *.
  destruct c as [|is_null|]; cbn [MemoryManager.step].
  - unfold MemoryManager.allocateSynapse.
    cbn [MemoryManager.totalSynapses MemoryManager.activeSynapses].
    rewrite !wrap64_small by lia. lia.
  - unfold MemoryManager.deallocateSynapse.
    destruct is_null; [done|].
    destruct (Z.ltb_spec 0 (MemoryManager.activeSynapses m)); [|done].
    cbn [MemoryManager.totalSynapses MemoryManager.activeSynapses].
    rewrite wrap64_small by lia. lia.
  - done.
Qed.

Lemma memory_counters_stay_consistent_witness :
  let calls := [MemoryManager.Allocate; MemoryManager.Allocate;
                MemoryManager.Deallocate false; MemoryManager.ResetStats;
                MemoryManager.Deallocate false; MemoryManager.Allocate;
                MemoryManager.Deallocate true] in
  MemoryManager.getTotalSynapseCount
    (MemoryManager.run calls MemoryManager.new) = 1
  /\ MemoryManager.getActiveSynapseCount
       (MemoryManager.run calls MemoryManager.new) = 1.
Proof.
  cbv zeta.
  destruct (memory_counters_stay_consistent
              [MemoryManager.Allocate; MemoryManager.Allocate;
               MemoryManager.Deallocate false; MemoryManager.ResetStats;
               MemoryManager.Deallocate false; MemoryManager.Allocate;
               MemoryManager.Deallocate true] eq_refl) as [Ht _].
  split; [exact Ht | reflexivity].
Defined.

End Counters.
